(** * RepoRAG-MCP: incremental build tracker and chunk repository writer

    A shallow embedding of [incrementalBuilder.py], [codeChunker.py] and the
    extractors of [LanguageChunker/], with the properties of the
    specification stated over it.

    Conventions of the embedding:
    - Python [str] paths and hashes are [string]; a Python [set] of paths is
      a [gset string], a [dict] keyed by paths a [gmap string _];
    - a modification time (a Python float) is an exact number in [Z]: the
      code only compares two of them with [>] and copies them;
    - a statement that can raise returns an [option] or a [result]; every
      [try]/[except] of the source is written out where it stands;
    - the services of the operating system and of external libraries (the
      MD5 digest, the working directory, the tree-sitter parser and its
      queries) are fields of a class the definitions are parameterised by. *)

From Stdlib Require Import ZArith Ascii String List Lia.
From stdpp Require Import base option list gmap sets strings pretty.

Local Open Scope Z_scope.

(** ** Part I. Definitions *)

(** *** Services of the platform *)

Class Platform := {
  (** [hashlib.md5(bytes).hexdigest()] *)
  md5_hexdigest : string -> string;
  (** [os.getcwd()] *)
  getcwd : string
}.

(** *** [str] operations *)

Module Str.

Definition startswith (s p : string) : bool := String.prefix p s.

Fixpoint endswith_char (s : string) (c : ascii) : bool :=
  match s with
  | EmptyString => false
  | String a EmptyString => bool_decide (a = c)
  | String _ s' => endswith_char s' c
  end.

(** [s.split(c)] for a one-character separator. *)
Fixpoint split (c : ascii) (s : string) : list string :=
  match s with
  | EmptyString => [EmptyString]
  | String a s' =>
      if bool_decide (a = c) then EmptyString :: split c s'
      else match split c s' with
           | h :: t => String a h :: t
           | [] => [String a EmptyString]
           end
  end.

(** [c.join(l)] *)
Fixpoint join (c : ascii) (l : list string) : string :=
  match l with
  | [] => EmptyString
  | [x] => x
  | x :: l' => x +:+ String c (join c l')
  end.

(** [ch.isspace()] on the code points below 256. *)
Definition isspace (a : ascii) : bool :=
  let n := nat_of_ascii a in
  ((9 <=? n) && (n <=? 13) || (28 <=? n) && (n <=? 32)
   || (n =? 133) || (n =? 160))%nat.

Fixpoint lstrip (s : string) : string :=
  match s with
  | EmptyString => EmptyString
  | String a s' => if isspace a then lstrip s' else s
  end.

Fixpoint rstrip (s : string) : string :=
  match s with
  | EmptyString => EmptyString
  | String a s' =>
      match rstrip s' with
      | EmptyString => if isspace a then EmptyString else String a EmptyString
      | r => String a r
      end
  end.

(** [s.strip()] *)
Definition strip (s : string) : string := rstrip (lstrip s).

(** Whether every character of [s] is whitespace. *)
Fixpoint all_space (s : string) : bool :=
  match s with
  | EmptyString => true
  | String a s' => isspace a && all_space s'
  end.

(** Truth value of a [str]: non-empty. *)
Definition truthy (s : string) : bool :=
  match s with EmptyString => false | _ => true end.

(** [s.endswith(suffix)] *)
Definition endswith (s suffix : string) : bool :=
  String.prefix (String.rev suffix) (String.rev s).

(** [s[a:b]] for indices that are not negative. *)
Definition slice (a b : nat) (s : string) : string :=
  String.substring a (b - a) s.

(** The pieces of [s] between the occurrences of [sep], found from left
    to right without overlap; [skip] counts the characters of an occurrence
    still to pass over and [cur] holds the current piece, reversed. *)
Fixpoint split_go (sep : string) (skip : nat) (cur : string) (s : string)
    : list string :=
  match s with
  | EmptyString => [String.rev cur]
  | String a s' =>
      match skip with
      | S k => split_go sep k cur s'
      | O =>
          if String.prefix sep s
          then String.rev cur
               :: split_go sep (String.length sep - 1) EmptyString s'
          else split_go sep 0 (String a cur) s'
      end
  end.

(** [s.split(sep)] and [s.replace(old, new)] for a non-empty [sep], [old]. *)
Definition split_str (sep s : string) : list string :=
  split_go sep 0 EmptyString s.

Definition replace (old new s : string) : string :=
  String.concat new (split_str old s).

(** Whether [c] occurs in [s]. *)
Fixpoint contains (c : ascii) (s : string) : bool :=
  match s with
  | EmptyString => false
  | String a s' => bool_decide (a = c) || contains c s'
  end.

(** [sub in s] on two [str]. *)
Fixpoint contains_str (sub s : string) : bool :=
  String.prefix sub s
  || match s with
     | EmptyString => false
     | String _ s' => contains_str sub s'
     end.

(** [s.lower()] on the code points below 256: the letters [A]-[Z] and the
    capital letters of Latin-1 move up by 32. *)
Definition lower_char (a : ascii) : ascii :=
  let n := nat_of_ascii a in
  if ((65 <=? n) && (n <=? 90)
      || (192 <=? n) && (n <=? 222) && negb (n =? 215))%nat
  then ascii_of_nat (n + 32) else a.

Fixpoint lower (s : string) : string :=
  match s with
  | EmptyString => EmptyString
  | String a s' => String (lower_char a) (lower s')
  end.

(** [s.rfind(c)] for a character, counted from [i]; [None] is [-1]. *)
Fixpoint rfind_from (c : ascii) (i : nat) (s : string) : option nat :=
  match s with
  | EmptyString => None
  | String a s' =>
      match rfind_from c (S i) s' with
      | Some j => Some j
      | None => if bool_decide (a = c) then Some i else None
      end
  end.

Definition rfind (c : ascii) (s : string) : option nat := rfind_from c 0 s.

End Str.

(** *** [posixpath] *)

Module Path.

Definition sep : ascii := "/"%char.

Definition isabs (p : string) : bool := Str.startswith p "/".

(** [os.path.join(a, b)] *)
Definition join (a b : string) : string :=
  if Str.startswith b "/" then b
  else if negb (Str.truthy a) || Str.endswith_char a sep then a +:+ b
  else a +:+ String sep b.

(** What [join a] puts in front of a relative second argument. *)
Definition dir_prefix (a : string) : string :=
  if negb (Str.truthy a) || Str.endswith_char a sep then a
  else a +:+ "/".

(** [os.path.join(a, *p)] *)
Definition join_all (a : string) (p : list string) : string := foldl join a p.

(** [os.path.basename(p)]: what follows the last separator. *)
Definition basename (p : string) : string :=
  List.last (Str.split sep p) EmptyString.

(** Number of leading slashes [normpath] keeps: POSIX allows one or two
    initial slashes, three or more count as one. *)
Definition initial_slashes (path : string) : nat :=
  if Str.startswith path "/" then
    if Str.startswith path "//" && negb (Str.startswith path "///")
    then 2%nat else 1%nat
  else 0%nat.

(** One turn of the loop of [normpath] over the components. *)
Definition normpath_step (initial : nat) (new_comps : list string)
    (comp : string) : list string :=
  if bool_decide (comp = "" \/ comp = ".") then new_comps
  else if bool_decide (comp <> ".."
                       \/ (initial = 0%nat /\ new_comps = [])
                       \/ (new_comps <> [] /\ List.last new_comps "" = ".."))
  then new_comps ++ [comp]
  else if bool_decide (new_comps <> []) then removelast new_comps
  else new_comps.

Definition or_dot (p : string) : string := if Str.truthy p then p else ".".

(** [os.path.normpath(path)] *)
Definition normpath (path : string) : string :=
  if negb (Str.truthy path) then "."
  else
    let initial := initial_slashes path in
    let comps := foldl (normpath_step initial) [] (Str.split sep path) in
    or_dot (String.concat "" (repeat "/" initial) +:+ Str.join sep comps).

(** [os.path.abspath(path)] *)
Definition abspath {pf : Platform} (path : string) : string :=
  normpath (if isabs path then path else join getcwd path).

(** Length of [os.path.commonprefix([l1, l2])] on two lists: the source
    compares the smaller and the larger of the two element by element. *)
Fixpoint common_prefix_len (l1 l2 : list string) : nat :=
  match l1, l2 with
  | x :: l1', y :: l2' =>
      if bool_decide (x = y) then S (common_prefix_len l1' l2') else 0%nat
  | _, _ => 0%nat
  end.

(** [os.path.relpath(path, start)]; [None] is the [ValueError] raised on an
    empty path. *)
Definition relpath {pf : Platform} (path start : string) : option string :=
  if negb (Str.truthy path) then None
  else
    let start_list := filter (fun x => Str.truthy x = true)
                             (Str.split sep (abspath start)) in
    let path_list := filter (fun x => Str.truthy x = true)
                            (Str.split sep (abspath path)) in
    let i := common_prefix_len start_list path_list in
    let rel_list := repeat ".." (length start_list - i) ++ drop i path_list in
    match rel_list with
    | [] => Some "."
    | a :: p => Some (join_all a p)
    end.

(** The paths the tracker works with.  A component is a name between two
    separators other than [.] and [..]; a path inside the repository is a
    relative path made of components, and the repository root an absolute
    one (the file system root itself apart). *)
Definition is_component (s : string) : bool :=
  Str.truthy s && negb (bool_decide (s = "."))
  && negb (bool_decide (s = "..")).

Definition inside_path (k : string) : bool :=
  forallb is_component (Str.split sep k).

Definition rooted_path (r : string) : bool :=
  match r with
  | String a r' => bool_decide (a = sep) && inside_path r'
  | EmptyString => false
  end.

(** [os.path.splitext(p)]: the extension starts at the last dot of the last
    component, unless only dots stand before it in that component. *)
Definition splitext (p : string) : string * string :=
  match Str.rfind "." p with
  | None => (p, EmptyString)
  | Some dotIndex =>
      let filenameIndex :=
        match Str.rfind sep p with
        | Some sepIndex => S sepIndex
        | None => 0%nat
        end in
      if (filenameIndex <=? dotIndex)%nat
         && negb (forallb (fun a => bool_decide (a = "."%char))
                    (list_ascii_of_string
                       (Str.slice filenameIndex dotIndex p)))
      then (Str.slice 0 dotIndex p,
            Str.slice dotIndex (String.length p) p)
      else (p, EmptyString)
  end.

End Path.

(** *** [incrementalBuilder.py] *)

Module IncrementalBuilder.

(** A file's state as the tracker records it: (mtime, content hash). *)
Abbreviation FileState := (Z * string)%type.

(** The files the tracker can stat and read, by absolute path: modification
    time and bytes.  A path that is not there makes [_get_file_info] raise. *)
Abbreviation FileSystem := (gmap string (Z * string)).

(** The in-memory cache: [{'files': {...}, 'deleted_files': set(...)}]. *)
Record Cache := {
  files : gmap string FileState;
  deleted_files : gset string
}.

Definition empty_cache : Cache := {| files := ∅; deleted_files := ∅ |}.

(** The JSON document of the cache file: an object with a [files] object
    (path to [[mtime, hash]]) and, when present, a [deleted_files] array. *)
Record CacheDocument := {
  doc_files : list (string * FileState);
  doc_deleted_files : option (list string)
}.

(** What the cache file holds when it exists.  [Unreadable] stands for every
    content on which the [try] block of [_load_cache] raises (not JSON, or
    JSON of another shape); [LegacyMapping] is an object without a [files]
    member, read as the mapping itself. *)
Inductive CacheFileContent :=
  | Unreadable
  | LegacyMapping (entries : list (string * FileState))
  | Document (d : CacheDocument).

Record Builder := {
  repo_path : string;
  cache_dir : string;
  cache_file : string
}.

(** [IncrementalBuilder.__init__] *)
Definition init {pf : Platform} (repo : string) (dir : string) : Builder :=
  let repo_path := Path.abspath repo in
  let repo_name := Path.basename repo_path in
  {| repo_path := repo_path;
     cache_dir := dir;
     cache_file := Path.join dir (repo_name +:+ "_file_state.json") |}.

(** A dict comprehension over [(key, value)] items: a later item replaces
    an earlier one with the same key. *)
Definition dict_of_items {V} (items : list (string * V)) : gmap string V :=
  foldl (fun m kv => <[kv.1 := kv.2]> m) ∅ items.

(** [_calculate_file_hash] and [_get_file_info] *)
Definition _calculate_file_hash {pf : Platform} (content : string) : string :=
  md5_hexdigest content.

Definition _get_file_info {pf : Platform} (fs : FileSystem) (file_path : string)
    : option FileState :=
  match fs !! file_path with
  | Some (mtime, content) => Some (mtime, _calculate_file_hash content)
  | None => None
  end.

(** The comprehension of [_load_cache]; [None] when [relpath] raises. *)
Definition relative_items {pf : Platform} (b : Builder)
    (items : list (string * FileState)) : option (list (string * FileState)) :=
  mapM (fun kv => match Path.relpath kv.1 (repo_path b) with
                  | Some rel => Some (rel, kv.2)
                  | None => None
                  end) items.

(** [_load_cache]; the argument is the content of [cache_file], [None] when
    the file does not exist. *)
Definition _load_cache {pf : Platform} (b : Builder)
    (file : option CacheFileContent) : Cache :=
  match file with
  | None => empty_cache
  | Some Unreadable => empty_cache
  | Some (LegacyMapping entries) =>
      match relative_items b entries with
      | Some items => {| files := dict_of_items items; deleted_files := ∅ |}
      | None => empty_cache
      end
  | Some (Document d) =>
      match relative_items b (doc_files d) with
      | Some items =>
          {| files := dict_of_items items;
             deleted_files := list_to_set (default [] (doc_deleted_files d)) |}
      | None => empty_cache
      end
  end.

(** The document [_save_cache] builds ([abs_cache]).  The members of the
    JSON object are listed in the enumeration order of the map. *)
Definition abs_cache (b : Builder) (cache : Cache) : CacheDocument :=
  {| doc_files :=
       map_to_list (dict_of_items
         (map (fun kv => (Path.join (repo_path b) kv.1, kv.2))
              (map_to_list (files cache))));
     doc_deleted_files := Some (elements (deleted_files cache)) |}.

(** [_save_cache]: [writable] tells whether opening the cache file for
    writing succeeds; when it raises the warning is printed and the file
    stays as it was. *)
Definition _save_cache (b : Builder) (cache : Cache) (writable : bool)
    (file : option CacheFileContent) : option CacheFileContent :=
  if writable then Some (Document (abs_cache b cache)) else file.

(** The extensions [_get_all_code_files] lists. *)
Definition code_extensions : list string :=
  [".py"; ".js"; ".jsx"; ".ts"; ".tsx"; ".java"; ".kt"; ".kts"; ".c"; ".cpp";
   ".h"; ".hpp"; ".cs"; ".go"; ".rb"; ".php"; ".rs"; ".xml"; ".swift";
   ".objc"; ".scala"].

(** The body of [for file in files]; [None] is the [ValueError] of
    [relpath], which nothing catches. *)
Definition list_file {pf : Platform} (b : Builder) (root : string)
    (code_files : option (gset string)) (file : string)
    : option (gset string) :=
  match code_files with
  | None => None
  | Some s =>
      if bool_decide (Str.lower (Path.splitext file).2 ∈ code_extensions)
      then match Path.relpath (Path.join root file) (repo_path b) with
           | Some rel_path => Some (s ∪ {[rel_path]})
           | None => None
           end
      else Some s
  end.

(** [_get_all_code_files]; [walk] is what [os.walk(self.repo_path)] yields:
    [(root, files)]. *)
Definition _get_all_code_files {pf : Platform} (b : Builder)
    (walk : list (string * list string)) : option (gset string) :=
  foldl (fun code_files '(root, files) =>
           if Str.contains_str ".git" root
              || Str.contains_str "node_modules" root
           then code_files
           else foldl (list_file b root) code_files files)
        (Some ∅) walk.

(** The variables of the first loop of [get_changed_files]. *)
Record Scan := {
  changed_files : gset string;
  new_files : list string;
  modified_files : list string
}.

Definition scan_start : Scan :=
  {| changed_files := ∅; new_files := []; modified_files := [] |}.

(** The body of [for rel_path in current_files], with its [try]/[except]. *)
Definition scan_file {pf : Platform} (b : Builder) (cache : Cache)
    (fs : FileSystem) (st : Scan) (rel_path : string) : Scan :=
  let abs_path := Path.join (repo_path b) rel_path in
  match _get_file_info fs abs_path with
  | Some (current_mtime, current_hash) =>
      match files cache !! rel_path with
      | None =>
          {| changed_files := changed_files st ∪ {[abs_path]};
             new_files := new_files st ++ [rel_path];
             modified_files := modified_files st |}
      | Some (cached_mtime, cached_hash) =>
          if bool_decide (current_mtime > cached_mtime)
             || negb (bool_decide (current_hash = cached_hash))
          then {| changed_files := changed_files st ∪ {[abs_path]};
                  new_files := new_files st;
                  modified_files := modified_files st ++ [rel_path] |}
          else st
      end
  | None =>
      {| changed_files :=
           changed_files st ∪ {[Path.join (repo_path b) rel_path]};
         new_files := new_files st;
         modified_files := modified_files st |}
  end.

(** The second loop: the cached paths that are neither listed nor already
    recorded as deleted, in the order the cache enumerates them. *)
Definition detect_deleted (cache : Cache) (current_files : gset string)
    : list string :=
  filter (fun rel_path => (rel_path ∉ current_files)
                          /\ (rel_path ∉ deleted_files cache))
         (map fst (map_to_list (files cache))).

(** What one call of [get_changed_files] produces: the returned set, the
    three printed lists, and the cache handed to [_save_cache]. *)
Record Changes := {
  changed : gset string;
  report_new : list string;
  report_modified : list string;
  report_deleted : list string;
  saved_cache : Cache
}.

(** [get_changed_files] from the loaded cache on.  [current_files] is the
    result of [_get_all_code_files]; a Python set is visited in an order of
    its own, here the one of [elements]. *)
Definition classify_changes {pf : Platform} (b : Builder) (cache : Cache)
    (current_files : gset string) (fs : FileSystem) : Changes :=
  let st := foldl (scan_file b cache fs) scan_start (elements current_files) in
  let deleted := detect_deleted cache current_files in
  let newly_deleted_files : gset string := list_to_set deleted in
  {| changed := changed_files st;
     report_new := new_files st;
     report_modified := modified_files st;
     report_deleted := deleted;
     saved_cache := {| files := files cache;
                       deleted_files :=
                         deleted_files cache ∪ newly_deleted_files |} |}.

(** What the loop body decides for one listed file: listed as modified,
    and added to the returned set. *)
Definition is_modified {pf : Platform} (b : Builder) (cache : Cache)
    (fs : FileSystem) (rel : string) : Prop :=
  exists m h cm ch,
    _get_file_info fs (Path.join (repo_path b) rel) = Some (m, h)
    /\ files cache !! rel = Some (cm, ch)
    /\ (m > cm \/ h <> ch).

Definition is_reprocessed {pf : Platform} (b : Builder) (cache : Cache)
    (fs : FileSystem) (rel : string) : Prop :=
  _get_file_info fs (Path.join (repo_path b) rel) = None
  \/ files cache !! rel = None
  \/ is_modified b cache fs rel.

(** [get_changed_files]: load, classify, save. *)
Definition get_changed_files {pf : Platform} (b : Builder)
    (current_files : gset string) (fs : FileSystem) (writable : bool)
    (file : option CacheFileContent) : Changes * option CacheFileContent :=
  let cache := _load_cache b file in
  let r := classify_changes b cache current_files fs in
  (r, _save_cache b (saved_cache r) writable file).

(** The body of the loop of [update_cache], with its [try]/[except]. *)
Definition update_file {pf : Platform} (b : Builder) (fs : FileSystem)
    (cache : Cache) (abs_path : string) : Cache :=
  match Path.relpath abs_path (repo_path b) with
  | Some rel_path =>
      match _get_file_info fs abs_path with
      | Some info => {| files := <[rel_path := info]> (files cache);
                        deleted_files := deleted_files cache |}
      | None => cache
      end
  | None => cache
  end.

Definition updated_cache {pf : Platform} (b : Builder) (fs : FileSystem)
    (cache : Cache) (processed_files : gset string) : Cache :=
  foldl (update_file b fs) cache (elements processed_files).

(** [update_cache]: load, update, save. *)
Definition update_cache {pf : Platform} (b : Builder)
    (processed_files : gset string) (fs : FileSystem) (writable : bool)
    (file : option CacheFileContent) : option CacheFileContent :=
  let cache := _load_cache b file in
  _save_cache b (updated_cache b fs cache processed_files) writable file.

(** The calls a sequence of build cycles makes on one tracker. *)
Inductive Call :=
  | CallGetChangedFiles (current_files : gset string) (fs : FileSystem)
                        (writable : bool)
  | CallUpdateCache (processed_files : gset string) (fs : FileSystem)
                    (writable : bool).

(** One call: the cache file after it, and the deleted-files report it
    printed (an update prints none). *)
Definition run_call {pf : Platform} (b : Builder)
    (file : option CacheFileContent) (c : Call)
    : option CacheFileContent * list string :=
  match c with
  | CallGetChangedFiles current_files fs writable =>
      let '(r, file') := get_changed_files b current_files fs writable file in
      (file', report_deleted r)
  | CallUpdateCache processed_files fs writable =>
      (update_cache b processed_files fs writable file, [])
  end.

(** A sequence of calls: the final cache file and the reports in order. *)
Fixpoint run_calls {pf : Platform} (b : Builder)
    (file : option CacheFileContent) (cs : list Call)
    : option CacheFileContent * list (list string) :=
  match cs with
  | [] => (file, [])
  | c :: cs' =>
      let '(file', rep) := run_call b file c in
      let '(file'', reps) := run_calls b file' cs' in
      (file'', rep :: reps)
  end.

End IncrementalBuilder.

(** *** The Python interpreter: iteration over a set of strings

    A set of [str] built by successive [add] is kept as the list of its
    distinct elements in insertion order.  [list(s)] visits them in an order
    that depends on the string hashes, which are salted anew in every
    interpreter process: each process has its own [set_iter]. *)

Module PySet.

Definition add (s : list string) (x : string) : list string :=
  if bool_decide (x ∈ s) then s else s ++ [x].

End PySet.

Class Interpreter := {
  set_iter : list string -> list string;
  set_iter_perm : forall s, set_iter s ≡ₚ s
}.

(** *** The [re] module: the patterns of the source *)

Inductive Pattern :=
  | PatFilename      (** [# (.+)] *)
  | PatFilepath      (** [File path: `(.+)`] *)
  | PatLanguage      (** [Programming language: (.+)] *)
  | PatCodeBlock     (** the fenced code block, with [re.DOTALL] *)
  | PatJavaPackage   (** [package\s+([^;]+);] *)
  | PatJavaImport    (** [import\s+(?:static\s+)?([^;]+);] *)
  | PatJsImportSource  (** [from\s+['"](.+?)['"]] *)
  | PatKotlinImport.   (** [import\s+(.+?)(?:\s+as\s+.+)?$] *)

Class Regex := {
  (** [re.search(pattern, text).group(1)], [None] when nothing matches *)
  re_search : Pattern -> string -> option string
}.

(** *** tree-sitter: nodes, captures and the base class of the extractors *)

Module TreeSitter.

(** A syntax node with its [parent] link; [node_id] is the identity that
    [==] compares. *)
#[local] Unset Elimination Schemes.
Inductive Node :=
  mkNode (node_id : N) (type : string) (start_byte end_byte : nat)
         (start_row end_row : nat) (parent : option Node).
#[local] Set Elimination Schemes.

Definition node_id (n : Node) : N :=
  match n with mkNode i _ _ _ _ _ _ => i end.
Definition node_type (n : Node) : string :=
  match n with mkNode _ t _ _ _ _ _ => t end.
Definition start_byte (n : Node) : nat :=
  match n with mkNode _ _ a _ _ _ _ => a end.
Definition end_byte (n : Node) : nat :=
  match n with mkNode _ _ _ b _ _ _ => b end.
Definition start_row (n : Node) : nat :=
  match n with mkNode _ _ _ _ r _ _ => r end.
Definition end_row (n : Node) : nat :=
  match n with mkNode _ _ _ _ _ r _ => r end.
Definition node_parent (n : Node) : option Node :=
  match n with mkNode _ _ _ _ _ _ p => p end.

(** [a == b] on nodes of one tree *)
Definition node_eqb (a b : Node) : bool := (node_id a =? node_id b)%N.

(** A capture: [(node, label)]. *)
Abbreviation Capture := (Node * string)%type.

Inductive Language := Java | Python | JavaScript | Kotlin.

(** The queries the extractors compile in [__init__]. *)
Inductive Query :=
  | JavaQuery | JavaQueryImports | JavaQueryReferences
  | PyQueryClass | PyQueryFunction | PyQueryMethod
  | PyQueryImports | PyQueryReferences
  | JsQueryFunction | JsQueryImports | JsQueryReferences
  | KtQuery | KtQueryImports | KtQueryReferences.

(** The parser and the query cursor.  [captures q code n] is
    [q.captures(n)] and [children code n] is [n.children] for a node [n]
    of the tree parsed from [code]. *)
Class Engine := {
  parse : Language -> string -> Node;
  captures : Query -> string -> Node -> list Capture;
  children : string -> Node -> list Node
}.

(** [_get_node_text]: the text is identified with its encoding, so that
    [encode] and [decode] are the identity. *)
Definition _get_node_text (node : Node) (code_bytes : string) : string :=
  Str.slice (start_byte node) (end_byte node) code_bytes.

(** [_get_node_lines] *)
Definition _get_node_lines (node : Node) : nat * nat :=
  (start_row node, end_row node).

(** The loop [while parent: if parent.type == ty: ... break;
    parent = parent.parent], started at [p]: the nearest node of type [ty]
    among [p] and its ancestors. *)
Fixpoint nearest (ty : string) (p : Node) : option Node :=
  match p with
  | mkNode _ t _ _ _ _ up =>
      if bool_decide (t = ty) then Some p
      else match up with
           | Some p' => nearest ty p'
           | None => None
           end
  end.

Definition enclosing (ty : string) (node : Node) : option Node :=
  match node_parent node with
  | Some p => nearest ty p
  | None => None
  end.

End TreeSitter.

(** *** The chunks an extractor returns *)

(** The [meta] dict of a chunk.  A field is [None] when the key is absent
    (or, for [parent], when its value is [None]): [process_file] reads them
    with [get] and a default. *)
Record ChunkMeta := {
  meta_content : option string;
  meta_start_line : option nat;
  meta_end_line : option nat;
  meta_chunk_type : option string;
  meta_name : option string;
  meta_parent : option string;
  meta_language : option string;
  meta_imports : option (list string);
  meta_references : option (list string);
  meta_dependencies : option (list string);
  meta_methods : option (list string)
}.

(** [(chunk_text, chunk_meta)] *)
Abbreviation Chunk := (string * ChunkMeta)%type.

(** The meta dict every branch of the extractors builds. *)
Definition make_meta (content : string) (start_line end_line : nat)
    (chunk_type name : string) (parent : option string) (language : string)
    (imports references : list string) : ChunkMeta :=
  {| meta_content := Some content;
     meta_start_line := Some start_line;
     meta_end_line := Some end_line;
     meta_chunk_type := Some chunk_type;
     meta_name := Some name;
     meta_parent := parent;
     meta_language := Some language;
     meta_imports := Some imports;
     meta_references := Some references;
     meta_dependencies := None;
     meta_methods := None |}.

(** The common shape of [extract_references]: the identifiers captured
    under [code_node], the keywords apart, collected in a set and returned
    as [list(references)]. *)
Definition collect_references {ts : TreeSitter.Engine} {ip : Interpreter}
    (q : TreeSitter.Query) (keywords : list string)
    (code_node : TreeSitter.Node) (code_bytes : string) : list string :=
  let references :=
    foldl (fun refs (capture : TreeSitter.Capture) =>
             let identifier := TreeSitter._get_node_text capture.1 code_bytes in
             if Str.truthy identifier && negb (bool_decide (identifier ∈ keywords))
             then PySet.add refs identifier else refs)
          [] (TreeSitter.captures q code_bytes code_node) in
  set_iter references.

(** *** [LanguageChunker/JavaChunker.py] *)

Module JavaChunker.
Import TreeSitter.

(** [extract_imports]: [package_prefix] is assigned and never read. *)
Definition extract_imports {ts : Engine} {re : Regex}
    (root_node : Node) (code_bytes : string) : list string :=
  foldl (fun imports (capture : Capture) =>
           let '(node, node_type) := capture in
           if bool_decide (node_type = "package") then imports
           else if bool_decide (node_type = "import") then
             match re_search PatJavaImport (_get_node_text node code_bytes) with
             | Some import_path => imports ++ [Str.strip import_path]
             | None => imports
             end
           else imports)
        [] (captures JavaQueryImports code_bytes root_node).

Definition keywords : list string :=
  ["public"; "private"; "protected"; "class"; "interface"; "extends";
   "implements"; "return"; "if"; "else"; "for"; "while"; "try"; "catch";
   "finally"; "throw"; "throws"; "new"; "this"; "super"; "static"; "final";
   "void"; "true"; "false"; "null"].

Definition extract_references {ts : Engine} {ip : Interpreter}
    (code_node : Node) (code_bytes : string) : list string :=
  collect_references JavaQueryReferences keywords code_node code_bytes.

(** The loop [for j, cap in enumerate(captures)] that looks the enclosing
    class up: every capture of [parent] labelled [class] that is followed
    by a [class_name] capture assigns [parent_class]; the last one stays. *)
Fixpoint scan_class_name (parent : Node) (code_bytes : string)
    (captures : list Capture) (parent_class : option string)
    : option string :=
  match captures with
  | [] => parent_class
  | cap :: rest =>
      let parent_class' :=
        if node_eqb cap.1 parent && bool_decide (cap.2 = "class") then
          match rest with
          | (class_name_node, label) :: _ =>
              if bool_decide (label = "class_name")
              then Some (_get_node_text class_name_node code_bytes)
              else parent_class
          | [] => parent_class
          end
        else parent_class in
      scan_class_name parent code_bytes rest parent_class'
  end.

(** [# Find parent class] *)
Definition find_parent_class (node : Node) (code_bytes : string)
    (captures : list Capture) : option string :=
  match enclosing "class_declaration" node with
  | Some parent => scan_class_name parent code_bytes captures None
  | None => None
  end.

(** The chunk of a class: its meta has no [parent] key. *)
Definition class_chunk {ts : Engine} {ip : Interpreter}
    (node name_node : Node) (code_bytes : string) (all_imports : list string)
    : Chunk :=
  let class_name := _get_node_text name_node code_bytes in
  let '(start_line, end_line) := _get_node_lines node in
  let references := extract_references node code_bytes in
  let content := _get_node_text node code_bytes in
  (content, make_meta content (start_line + 1) (end_line + 1) "class"
              class_name None "java" all_imports references).

(** The chunk of a method or a constructor ([chunk_type] tells which). *)
Definition member_chunk {ts : Engine} {ip : Interpreter}
    (chunk_type : string) (node name_node : Node) (code_bytes : string)
    (captures : list Capture) (all_imports : list string) : Chunk :=
  let member_name := _get_node_text name_node code_bytes in
  let parent_class := find_parent_class node code_bytes captures in
  let '(start_line, end_line) := _get_node_lines node in
  let references := extract_references node code_bytes in
  let content := _get_node_text node code_bytes in
  (content, make_meta content (start_line + 1) (end_line + 1) chunk_type
              member_name parent_class "java" all_imports references).

(** The loop [while i < len(captures)] from index [i] on, [rest] being
    [captures[i:]]: a declaration capture followed by its name capture
    makes one chunk and moves on by two, anything else moves on by one. *)
Fixpoint walk {ts : Engine} {ip : Interpreter} (code_bytes : string)
    (captures : list Capture) (all_imports : list string)
    (rest : list Capture) : list Chunk :=
  match rest with
  | [] => []
  | (node, node_type) :: rest1 =>
      let next_is (label : string) :=
        match rest1 with
        | (_, l) :: _ => bool_decide (l = label)
        | [] => false
        end in
      match rest1 with
      | (name_node, _) :: rest2 =>
          if bool_decide (node_type = "class") then
            if next_is "class_name"
            then class_chunk node name_node code_bytes all_imports
                 :: walk code_bytes captures all_imports rest2
            else walk code_bytes captures all_imports rest1
          else if bool_decide (node_type = "method") then
            if next_is "method_name"
            then member_chunk "method" node name_node code_bytes captures
                   all_imports
                 :: walk code_bytes captures all_imports rest2
            else walk code_bytes captures all_imports rest1
          else if bool_decide (node_type = "constructor") then
            if next_is "constructor_name"
            then member_chunk "constructor" node name_node code_bytes
                   captures all_imports
                 :: walk code_bytes captures all_imports rest2
            else walk code_bytes captures all_imports rest1
          else walk code_bytes captures all_imports rest1
      | [] => []
      end
  end.

(** [JavaChunker.chunk_code] *)
Definition chunk_code {ts : Engine} {re : Regex} {ip : Interpreter}
    (code : string) : list Chunk :=
  let code_bytes := code in
  let root_node := parse Java code_bytes in
  let all_imports := extract_imports root_node code_bytes in
  let captures := captures JavaQuery code_bytes root_node in
  walk code_bytes captures all_imports captures.

End JavaChunker.

(** *** [LanguageChunker/PythonChunker.py] *)

Module PythonChunker.
Import TreeSitter.

(** The stripped, non-empty parts of a comma-separated list. *)
Definition stripped_parts (s : string) : list string :=
  filter (fun part => Str.truthy part = true)
         (map Str.strip (Str.split_str "," s)).

(** [extract_imports] *)
Definition extract_imports (node : Node) (code_bytes : string)
    : list string :=
  let import_text := _get_node_text node code_bytes in
  if bool_decide (node_type node = "import_statement") then
    stripped_parts (Str.strip (Str.replace "import" "" import_text))
  else if bool_decide (node_type node = "import_from_statement") then
    match Str.split_str "import" import_text with
    | part0 :: part1 :: _ =>
        let module := Str.strip (Str.replace "from" "" part0) in
        map (fun item => module +:+ "." +:+ item)
            (stripped_parts (Str.strip part1))
    | _ => []
    end
  else [].

Definition keywords : list string :=
  ["self"; "None"; "True"; "False"; "if"; "else"; "for"; "while"; "try";
   "except"; "def"; "class"; "return"; "with"; "as"].

Definition extract_references {ts : Engine} {ip : Interpreter}
    (code_node : Node) (code_bytes : string) : list string :=
  collect_references PyQueryReferences keywords code_node code_bytes.

(** [for i in range(0, len(l), 2): if i + 1 >= len(l): continue]: the
    captures two by two, a last one without partner left out. *)
Fixpoint pairs {A} (l : list A) : list (A * A) :=
  match l with
  | a :: b :: l' => (a, b) :: pairs l'
  | _ => []
  end.

(** [l.index(cap)]: tuples compare component by component. *)
Definition capture_eqb (a b : Capture) : bool :=
  node_eqb a.1 b.1 && bool_decide (a.2 = b.2).

Fixpoint index (cap : Capture) (l : list Capture) : option nat :=
  match l with
  | [] => None
  | x :: l' => if capture_eqb x cap then Some 0%nat
               else S <$> index cap l'
  end.

(** The loop [for cap in class_captures] of the method branch. *)
Definition scan_class_name (parent : Node) (code_bytes : string)
    (class_captures : list Capture) : option string :=
  foldl (fun parent_class (cap : Capture) =>
           if node_eqb cap.1 parent then
             match index cap class_captures with
             | Some i =>
                 match class_captures !! (i + 1)%nat with
                 | Some (class_name_node, _) =>
                     Some (_get_node_text class_name_node code_bytes)
                 | None => parent_class
                 end
             | None => parent_class
             end
           else parent_class)
        None class_captures.

Definition find_parent_class (method_node : Node) (code_bytes : string)
    (class_captures : list Capture) : option string :=
  match enclosing "class_definition" method_node with
  | Some parent => scan_class_name parent code_bytes class_captures
  | None => None
  end.

Definition chunk_of {ts : Engine} {ip : Interpreter} (chunk_type : string)
    (node name_node : Node) (parent : option string) (code_bytes : string)
    (all_imports : list string) : Chunk :=
  let name := _get_node_text name_node code_bytes in
  let '(start_line, end_line) := _get_node_lines node in
  let references := extract_references node code_bytes in
  let content := _get_node_text node code_bytes in
  (content, make_meta content (start_line + 1) (end_line + 1) chunk_type
              name parent "python" all_imports references).

(** [all_imports]: the imports of every captured import statement. *)
Definition file_imports {ts : Engine} (root_node : Node)
    (code_bytes : string) : list string :=
  flat_map (fun capture : Capture => extract_imports capture.1 code_bytes)
           (captures PyQueryImports code_bytes root_node).

(** [PythonChunker.chunk_code]: the classes, then the functions that have
    no enclosing class, then the methods. *)
Definition chunk_code {ts : Engine} {ip : Interpreter} (code : string)
    : list Chunk :=
  let code_bytes := code in
  let root_node := parse Python code_bytes in
  let all_imports := file_imports root_node code_bytes in
  let class_captures := captures PyQueryClass code_bytes root_node in
  let classes :=
    map (fun '((class_node, _), (class_name_node, _)) =>
           chunk_of "class" class_node class_name_node None code_bytes
             all_imports)
        (pairs class_captures) in
  let function_captures := captures PyQueryFunction code_bytes root_node in
  let functions :=
    flat_map (fun '((function_node, _), (function_name_node, _)) =>
                let is_method :=
                  bool_decide
                    (is_Some (enclosing "class_definition" function_node)) in
                if negb is_method
                then [chunk_of "function" function_node function_name_node
                        None code_bytes all_imports]
                else [])
             (pairs function_captures) in
  let method_captures := captures PyQueryMethod code_bytes root_node in
  let methods :=
    map (fun '((method_node, _), (method_name_node, _)) =>
           chunk_of "method" method_node method_name_node
             (find_parent_class method_node code_bytes class_captures)
             code_bytes all_imports)
        (pairs method_captures) in
  classes ++ functions ++ methods.

End PythonChunker.

(** *** [LanguageChunker/JavaScriptChunker.py] *)

Module JavaScriptChunker.
Import TreeSitter.

(** [extract_imports]: [current_source] is the module of the last import
    statement in whose text the pattern was found. *)
Definition extract_imports {ts : Engine} {re : Regex}
    (root_node : Node) (code_bytes : string) : list string :=
  (foldl (fun (st : list string * option string) (capture : Capture) =>
            let '(imports, current_source) := st in
            let '(node, node_type) := capture in
            if bool_decide (node_type = "import") then
              match re_search PatJsImportSource
                      (_get_node_text node code_bytes) with
              | Some source => (imports, Some source)
              | None => (imports, current_source)
              end
            else if bool_decide (node_type ∈ ["import_name"; "import_default";
                                              "namespace_import"]) then
              match current_source with
              | Some source =>
                  if Str.truthy source then
                    let import_name := _get_node_text node code_bytes in
                    (imports ++ [source +:+ "." +:+ import_name],
                     current_source)
                  else (imports, current_source)
              | None => (imports, current_source)
              end
            else (imports, current_source))
         ([], None) (captures JsQueryImports code_bytes root_node)).1.

Definition keywords : list string :=
  ["function"; "return"; "const"; "let"; "var"; "if"; "else"; "for";
   "while"; "try"; "catch"; "this"; "class"; "true"; "false"; "null";
   "undefined"].

Definition extract_references {ts : Engine} {ip : Interpreter}
    (code_node : Node) (code_bytes : string) : list string :=
  collect_references JsQueryReferences keywords code_node code_bytes.

(** The meta dict of the branches of [chunk_code]; only the method branch
    has a [parent] key. *)
Definition chunk_of {ts : Engine} {ip : Interpreter}
    (chunk_type name : string) (parent : option string) (node : Node)
    (code_bytes : string) (all_imports : list string) : Chunk :=
  let '(start_line, end_line) := _get_node_lines node in
  let references := extract_references node code_bytes in
  let content := _get_node_text node code_bytes in
  (content, make_meta content (start_line + 1) (end_line + 1) chunk_type
              name parent "javascript" all_imports references).

(** The loop [while i < len(captures)] from index [i] on, [rest] being
    [captures[i:]].  The look-up of the enclosing class of a method is the
    loop of [JavaChunker]; an arrow function whose next capture is not its
    parameter makes a chunk of its own and moves on by one. *)
Fixpoint walk {ts : Engine} {ip : Interpreter} (code_bytes : string)
    (captures : list Capture) (all_imports : list string)
    (rest : list Capture) : list Chunk :=
  match rest with
  | [] => []
  | (node, node_type) :: rest1 =>
      match rest1 with
      | (name_node, label) :: rest2 =>
          let name := _get_node_text name_node code_bytes in
          if bool_decide (node_type = "function") then
            if bool_decide (label = "function_name")
            then chunk_of "function" name None node code_bytes all_imports
                 :: walk code_bytes captures all_imports rest2
            else walk code_bytes captures all_imports rest1
          else if bool_decide (node_type = "method") then
            if bool_decide (label = "method_name")
            then chunk_of "method" name
                   (JavaChunker.find_parent_class node code_bytes captures)
                   node code_bytes all_imports
                 :: walk code_bytes captures all_imports rest2
            else walk code_bytes captures all_imports rest1
          else if bool_decide (node_type = "class") then
            if bool_decide (label = "class_name")
            then chunk_of "class" name None node code_bytes all_imports
                 :: walk code_bytes captures all_imports rest2
            else walk code_bytes captures all_imports rest1
          else if bool_decide (node_type = "arrow_function") then
            if bool_decide (label = "param_name")
            then chunk_of "arrow_function"
                   ("arrow_function(" +:+ name +:+ ")") None node code_bytes
                   all_imports
                 :: walk code_bytes captures all_imports rest2
            else chunk_of "arrow_function" "anonymous_arrow_function" None
                   node code_bytes all_imports
                 :: walk code_bytes captures all_imports rest1
          else walk code_bytes captures all_imports rest1
      | [] =>
          if bool_decide (node_type = "arrow_function")
          then [chunk_of "arrow_function" "anonymous_arrow_function" None
                  node code_bytes all_imports]
          else []
      end
  end.

(** [JavaScriptChunker.chunk_code] *)
Definition chunk_code {ts : Engine} {re : Regex} {ip : Interpreter}
    (code : string) : list Chunk :=
  let code_bytes := code in
  let root_node := parse JavaScript code_bytes in
  let all_imports := extract_imports root_node code_bytes in
  let captures := captures JsQueryFunction code_bytes root_node in
  walk code_bytes captures all_imports captures.

End JavaScriptChunker.

(** *** [LanguageChunker/KotlinChunker.py] *)

Module KotlinChunker.
Import TreeSitter.

(** [extract_imports] *)
Definition extract_imports {ts : Engine} {re : Regex}
    (root_node : Node) (code_bytes : string) : list string :=
  foldl (fun imports (capture : Capture) =>
           let import_text := _get_node_text capture.1 code_bytes in
           match re_search PatKotlinImport import_text with
           | Some package_path => imports ++ [Str.strip package_path]
           | None => imports
           end)
        [] (captures KtQueryImports code_bytes root_node).

Definition keywords : list string :=
  ["val"; "var"; "fun"; "class"; "object"; "interface"; "override";
   "private"; "public"; "protected"; "internal"; "return"; "if"; "else";
   "when"; "true"; "false"; "null"; "this"; "super"].

Definition extract_references {ts : Engine} {ip : Interpreter}
    (code_node : Node) (code_bytes : string) : list string :=
  collect_references KtQueryReferences keywords code_node code_bytes.

(** [for child in node.children: if child.type == "simple_identifier":
    ... break]: the text of the first child that is a simple identifier. *)
Definition first_identifier {ts : Engine} (node : Node)
    (code_bytes : string) : option string :=
  (fun child => _get_node_text child code_bytes)
  <$> List.find (fun child =>
                   bool_decide (node_type child = "simple_identifier"))
                (children code_bytes node).

(** The body of the loop [for node, node_type in captures]: the chunks it
    appends. *)
Definition chunks_of_capture {ts : Engine} {ip : Interpreter}
    (code_bytes : string) (all_imports : list string) (capture : Capture)
    : list Chunk :=
  let '(node, node_type) := capture in
  let code_content := _get_node_text node code_bytes in
  let '(start_line, end_line) := _get_node_lines node in
  let references := extract_references node code_bytes in
  if bool_decide (node_type = "class") then
    let name := default "Unknown" (first_identifier node code_bytes) in
    [(code_content,
      make_meta code_content (start_line + 1) (end_line + 1) "class" name
        None "kotlin" all_imports references)]
  else if bool_decide (node_type = "function") then
    let name := default "Unknown" (first_identifier node code_bytes) in
    let '(is_method, parent_class) :=
      match enclosing "class_declaration" node with
      | Some parent => (true, first_identifier parent code_bytes)
      | None => (false, None)
      end in
    [(code_content,
      make_meta code_content (start_line + 1) (end_line + 1)
        (if is_method then "method" else "function") name parent_class
        "kotlin" all_imports references)]
  else [].

(** [KotlinChunker.chunk_code] *)
Definition chunk_code {ts : Engine} {re : Regex} {ip : Interpreter}
    (code : string) : list Chunk :=
  let code_bytes := code in
  let root_node := parse Kotlin code_bytes in
  let all_imports := extract_imports root_node code_bytes in
  flat_map (chunks_of_capture code_bytes all_imports)
           (captures KtQuery code_bytes root_node).

End KotlinChunker.

(** *** [codeChunker.py] *)

Module CodeChunker.

(** The exceptions a [try] of the source can catch ([except Exception]). *)
Inductive Exn :=
  | OSError
  | ValueError (message : string)
  | OtherException.

Inductive Result (A : Type) :=
  | Ok (a : A)
  | Raise (e : Exn).
Arguments Ok {A} a.
Arguments Raise {A} e.

(** The extractors of JavaScript, Kotlin and Objective-C as
    [chunk_code_by_language] calls them; [LanguageChunker.chunkers] gives
    those of the source. *)
Class OtherChunkers := {
  javascript_chunk_code : string -> Result (list Chunk);
  kotlin_chunk_code : string -> Result (list Chunk);
  objc_chunk_code : string -> Result (list Chunk)
}.

Record CodeInfo := {
  language : string;
  filename : string;
  filepath : string
}.

(** A record of the chunk store ([chunk_data]). *)
Record ChunkRecord := {
  rec_id : string;
  rec_text : string;
  rec_source : string;
  rec_filename : string;
  rec_filepath : string;
  rec_language : string;
  rec_repository : string;
  rec_chunk_index : nat;
  rec_type : string;
  rec_code_type : string;
  rec_name : string;
  rec_parent : option string;
  rec_dependencies : list string;
  rec_methods : list string;
  rec_start_line : nat;
  rec_end_line : nat;
  rec_imports : list string;
  rec_references : list string
}.

(** What the output file holds when it exists: one record a line, or
    something [_load_existing_chunks] fails on. *)
Inductive StoreFile :=
  | Malformed
  | Lines (records : list ChunkRecord).

(** [self.existing_chunks]: a dict from source to its records, in the
    order the sources were first met. *)
Abbreviation ExistingChunks := (list (string * list ChunkRecord)).

Record CodeChunker := {
  input_dir : string;
  incremental : bool;
  repo_name : string;
  output_file : string;
  existing_chunks : ExistingChunks
}.

(** [existing_chunks[source].append(chunk)], the key created when new. *)
Fixpoint append_chunk (d : ExistingChunks) (source : string)
    (chunk : ChunkRecord) : ExistingChunks :=
  match d with
  | [] => [(source, [chunk])]
  | (s, l) :: d' =>
      if bool_decide (s = source) then (s, l ++ [chunk]) :: d'
      else (s, l) :: append_chunk d' source chunk
  end.

(** [_load_existing_chunks] *)
Definition _load_existing_chunks (file : StoreFile) : ExistingChunks :=
  match file with
  | Malformed => []
  | Lines records =>
      foldl (fun d chunk =>
               let source := rec_source chunk in
               if Str.truthy source then append_chunk d source chunk else d)
            [] records
  end.

(** [CodeChunker.__init__]; [store] is the content of the output file,
    [None] when it does not exist. *)
Definition init (input_dir : string) (incremental : bool)
    (store : option StoreFile) : CodeChunker :=
  let repo_name := Path.basename input_dir in
  {| input_dir := input_dir;
     incremental := incremental;
     repo_name := repo_name;
     output_file := "artifacts/chunks/" +:+ repo_name
                    +:+ "_code_chunks_ast.jsonl";
     existing_chunks :=
       match store with
       | Some file => if incremental then _load_existing_chunks file else []
       | None => []
       end |}.

(** [self.chunkers] *)
Inductive Chunker :=
  | PythonChunker | JavaScriptChunker | JavaChunker | KotlinChunker
  | ObjectiveCChunker.

Definition chunkers (language : string) : option Chunker :=
  if bool_decide (language = "py" \/ language = "python")
  then Some PythonChunker
  else if bool_decide (language = "js" \/ language = "javascript")
  then Some JavaScriptChunker
  else if bool_decide (language = "java") then Some JavaChunker
  else if bool_decide (language = "kt" \/ language = "kotlin")
  then Some KotlinChunker
  else if bool_decide (language = "objc") then Some ObjectiveCChunker
  else None.

Section Extraction.
Context {pf : Platform} {re : Regex} {ts : TreeSitter.Engine}
        {ip : Interpreter} {oc : OtherChunkers}.

(** [_generate_uid] *)
Definition _generate_uid (file_path chunk_id : string) : string :=
  md5_hexdigest (file_path +:+ ":" +:+ chunk_id).

(** [extract_code_info] and [extract_code_content] *)
Definition extract_code_info (content : string) : CodeInfo :=
  {| language := default "unknown" (re_search PatLanguage content);
     filename := default "" (re_search PatFilename content);
     filepath := default "" (re_search PatFilepath content) |}.

Definition extract_code_content (content : string) : string :=
  default content (re_search PatCodeBlock content).

(** [chunk_code_by_language] *)
Definition chunk_code_by_language (code language : string)
    : Result (list Chunk) :=
  match chunkers language with
  | None => Raise (ValueError ("Unsupported language: " +:+ language))
  | Some PythonChunker => Ok (PythonChunker.chunk_code code)
  | Some JavaChunker => Ok (JavaChunker.chunk_code code)
  | Some JavaScriptChunker => javascript_chunk_code code
  | Some KotlinChunker => kotlin_chunk_code code
  | Some ObjectiveCChunker => objc_chunk_code code
  end.

(** [enumerate(l)] *)
Fixpoint enumerate_from {A} (i : nat) (l : list A) : list (nat * A) :=
  match l with
  | [] => []
  | x :: l' => (i, x) :: enumerate_from (S i) l'
  end.

(** The body of the loop of [process_file]: [None] is [continue]. *)
Definition chunk_data (self : CodeChunker) (file_path : string)
    (code_info : CodeInfo) (i : nat) (chunk : Chunk) : option ChunkRecord :=
  let '(chunk_text, chunk_meta) := chunk in
  if negb (Str.truthy (Str.strip chunk_text)) then None
  else
    let chunk_type := default "unknown" (meta_chunk_type chunk_meta) in
    let chunk_id := filename code_info +:+ ":" +:+ chunk_type
                    +:+ ":" +:+ pretty i in
    let chunk_uid := _generate_uid file_path chunk_id in
    Some {| rec_id := chunk_uid;
            rec_text := default chunk_text (meta_content chunk_meta);
            rec_source := file_path;
            rec_filename := filename code_info;
            rec_filepath := filepath code_info;
            rec_language := language code_info;
            rec_repository := repo_name self;
            rec_chunk_index := i;
            rec_type := chunk_type;
            rec_code_type := chunk_type;
            rec_name := default "" (meta_name chunk_meta);
            rec_parent := meta_parent chunk_meta;
            rec_dependencies := default [] (meta_dependencies chunk_meta);
            rec_methods := default [] (meta_methods chunk_meta);
            rec_start_line := default 0%nat (meta_start_line chunk_meta);
            rec_end_line := default 0%nat (meta_end_line chunk_meta);
            rec_imports := default [] (meta_imports chunk_meta);
            rec_references := default [] (meta_references chunk_meta) |}.

Definition chunk_records (self : CodeChunker) (file_path : string)
    (code_info : CodeInfo) (code_chunks : list Chunk) : list ChunkRecord :=
  omap (fun ic => chunk_data self file_path code_info ic.1 ic.2)
       (enumerate_from 0 code_chunks).

(** The [try] block of [process_file].  [fs] gives the content of the
    files that can be read; opening another one raises. *)
Definition process_file_try (self : CodeChunker) (fs : gmap string string)
    (file_path : string) : Result (list ChunkRecord) :=
  match fs !! file_path with
  | None => Raise OSError
  | Some content =>
      let code_info := extract_code_info content in
      let code_content := extract_code_content content in
      match chunk_code_by_language code_content (language code_info) with
      | Raise e => Raise e
      | Ok code_chunks =>
          Ok (chunk_records self file_path code_info code_chunks)
      end
  end.

(** [process_file]: an exception is printed and the file gives [[]]. *)
Definition process_file (self : CodeChunker) (fs : gmap string string)
    (file_path : string) : list ChunkRecord :=
  match process_file_try self fs file_path with
  | Ok result => result
  | Raise _ => []
  end.

(** The files [process_directory] hands to [process_file], in order;
    [walk] is what [os.walk(self.input_dir)] yields: [(root, files)]. *)
Definition md_files (walk : list (string * list string)) : list string :=
  flat_map (fun '(root, files) =>
              flat_map (fun file =>
                          if Str.endswith file ".md" then
                            let file_path := Path.join root file in
                            if bool_decide (Path.basename file_path
                                            = "_repo_metadata.md")
                            then [] else [file_path]
                          else [])
                       files)
           walk.

(** [process_directory] *)
Definition process_directory (self : CodeChunker)
    (walk : list (string * list string)) (fs : gmap string string)
    : list ChunkRecord :=
  flat_map (process_file self fs) (md_files walk).

(** Truth value of [processed_files]: neither [None] nor empty. *)
Definition nonempty_set (processed_files : option (gset string)) : bool :=
  match processed_files with
  | Some s => negb (bool_decide (s = ∅))
  | None => false
  end.

(** [save_jsonl]: the records written to the output file. *)
Definition save_jsonl (self : CodeChunker) (chunks : list ChunkRecord)
    (processed_files : option (gset string)) : list ChunkRecord :=
  if incremental self && nonempty_set processed_files then
    let final_chunks :=
      flat_map (fun '(source, file_chunks) =>
                  if bool_decide (source ∈ default ∅ processed_files)
                  then [] else file_chunks)
               (existing_chunks self) in
    final_chunks ++ chunks
  else chunks.

(** [run] *)
Definition run (self : CodeChunker) (walk : list (string * list string))
    (fs : gmap string string) : list ChunkRecord :=
  let chunks := process_directory self walk fs in
  let processed_files : gset string :=
    list_to_set (map rec_source chunks) in
  save_jsonl self chunks (Some processed_files).

End Extraction.

(** Whole-file replacement as the specification words it: the stored
    records of the sources that were not reprocessed, then the fresh
    records of those that were. *)
Definition whole_file_replacement (stored : list ChunkRecord)
    (reprocessed : list string) (fresh : list ChunkRecord)
    : list ChunkRecord :=
  filter (fun r => rec_source r ∉ reprocessed) stored ++ fresh.

End CodeChunker.

(** *** [LanguageChunker/ObjectiveCChunker.py] *)

Module ObjectiveCChunker.
Import CodeChunker.

(** [chunk_code]: after the parse, [self.extract_imports(tree, code_bytes)]
    reads [self.query_imports]; [__init__] leaves the assignment of that
    query in a comment, so the attribute does not exist and
    [AttributeError] is raised before a capture is read.  The loop after
    the call is never reached. *)
Definition chunk_code (code : string) : Result (list Chunk) :=
  Raise OtherException.

End ObjectiveCChunker.

(** *** The extractors of [self.chunkers]

    The instances [JavaScriptChunker()], [KotlinChunker()] and
    [ObjectiveCChunker()] that [CodeChunker.__init__] stores, run by the
    interpreter process [ip]. *)

Module LanguageChunker.

Definition chunkers {ts : TreeSitter.Engine} {re : Regex}
    (ip : Interpreter) : CodeChunker.OtherChunkers :=
  {| CodeChunker.javascript_chunk_code code :=
       CodeChunker.Ok (JavaScriptChunker.chunk_code code);
     CodeChunker.kotlin_chunk_code code :=
       CodeChunker.Ok (KotlinChunker.chunk_code code);
     CodeChunker.objc_chunk_code := ObjectiveCChunker.chunk_code |}.

End LanguageChunker.

(** *** Vocabulary of the properties *)

Module Vocabulary.
Import TreeSitter CodeChunker.





(** The records of a loaded store whose source passes [keep]. *)
Definition kept (keep : string -> bool) (d : ExistingChunks)
    : list ChunkRecord :=
  flat_map (fun '(source, file_chunks) =>
              if keep source then file_chunks else []) d.

(** A meta dict and a record with another list of references. *)
Definition meta_with_references (m : ChunkMeta)
    (references : option (list string)) : ChunkMeta :=
  {| meta_content := meta_content m;
     meta_start_line := meta_start_line m;
     meta_end_line := meta_end_line m;
     meta_chunk_type := meta_chunk_type m;
     meta_name := meta_name m;
     meta_parent := meta_parent m;
     meta_language := meta_language m;
     meta_imports := meta_imports m;
     meta_references := references;
     meta_dependencies := meta_dependencies m;
     meta_methods := meta_methods m |}.

Definition with_references (r : ChunkRecord) (references : list string)
    : ChunkRecord :=
  {| rec_id := rec_id r;
     rec_text := rec_text r;
     rec_source := rec_source r;
     rec_filename := rec_filename r;
     rec_filepath := rec_filepath r;
     rec_language := rec_language r;
     rec_repository := rec_repository r;
     rec_chunk_index := rec_chunk_index r;
     rec_type := rec_type r;
     rec_code_type := rec_code_type r;
     rec_name := rec_name r;
     rec_parent := rec_parent r;
     rec_dependencies := rec_dependencies r;
     rec_methods := rec_methods r;
     rec_start_line := rec_start_line r;
     rec_end_line := rec_end_line r;
     rec_imports := rec_imports r;
     rec_references := references |}.

(** Two chunks, two records that are equal but for their references,
    which are related by [R]. *)
Definition same_chunk_modulo (R : relation (list string)) (c1 c2 : Chunk)
    : Prop :=
  c1.1 = c2.1
  /\ exists refs1 refs2,
       meta_references c1.2 = Some refs1
       /\ R refs2 refs1
       /\ c2.2 = meta_with_references c1.2 (Some refs2).

Definition same_record_modulo (R : relation (list string))
    (r1 r2 : ChunkRecord) : Prop :=
  exists refs, R refs (rec_references r1) /\ r2 = with_references r1 refs.

(** Equal up to the order of the references. *)
Definition same_record_up_to_order : relation ChunkRecord :=
  same_record_modulo (≡ₚ).

End Vocabulary.

(** *** [codeCurator.py]: the curated file the chunker reads *)

Module CodeCurator.

Definition nl : string := String "010"%char EmptyString.

(** What [process_file] writes for a source file: the header lines and the
    fenced code block. *)
Definition curated (basename rel_path language content : string) : string :=
  "# " +:+ basename +:+ nl +:+ nl
  +:+ "File path: `" +:+ rel_path +:+ "`" +:+ nl +:+ nl
  +:+ "Programming language: " +:+ language +:+ nl +:+ nl
  +:+ "```" +:+ language +:+ nl
  +:+ content
  +:+ nl +:+ "```" +:+ nl.

(** [language_map] of [estimate_language]. *)
Definition language_map : list (string * string) :=
  [(".py", "python"); (".js", "javascript"); (".jsx", "javascript");
   (".ts", "typescript"); (".tsx", "typescript"); (".java", "java");
   (".c", "c"); (".cpp", "cpp"); (".h", "c"); (".hpp", "cpp");
   (".cs", "csharp"); (".go", "go"); (".rb", "ruby"); (".php", "php");
   (".rs", "rust"); (".swift", "swift"); (".kt", "kotlin");
   (".scala", "scala"); (".sh", "bash"); (".bash", "bash"); (".sql", "sql");
   (".r", "r"); (".html", "html"); (".css", "css"); (".sass", "sass");
   (".scss", "scss"); (".yaml", "yaml"); (".yml", "yaml"); (".json", "json");
   (".xml", "xml"); (".toml", "toml"); (".ini", "ini"); (".conf", "config")].

(** [d.get(key, default)] on a dict written as the list of its items. *)
Fixpoint get (d : list (string * string)) (key default : string) : string :=
  match d with
  | [] => default
  | (k, v) :: d' => if bool_decide (k = key) then v else get d' key default
  end.

(** [estimate_language] *)
Definition estimate_language (filepath : string) : string :=
  let ext := Str.lower (Path.splitext filepath).2 in
  get language_map ext "unknown".

(** What [process_file] writes for the file [filepath] of relative path
    [rel_path] when it does not ignore it. *)
Definition written (filepath rel_path content : string) : string :=
  curated (Path.basename filepath) rel_path (estimate_language filepath)
    content.

End CodeCurator.

(** *** The four searches of [codeChunker.py]

    [re.search] on the patterns of [extract_code_info] and
    [extract_code_content], written out: the attempt to match at a position
    is a function of the text from that position on, and [re.search] makes
    the attempt at every position from left to right. *)

Module Re.

Definition newline : ascii := "010"%char.

(** [.] without [re.DOTALL]: every character but the newline. *)
Definition dot (a : ascii) : bool := negb (bool_decide (a = newline)).

(** [\w] on the code points below 256: the ASCII letters and digits, the
    underscore, and the letters and numeric characters of Latin-1. *)
Definition word (a : ascii) : bool :=
  let n := nat_of_ascii a in
  ((48 <=? n) && (n <=? 57) || (65 <=? n) && (n <=? 90) || (n =? 95)
   || (97 <=? n) && (n <=? 122)
   || (n =? 170) || (n =? 178) || (n =? 179) || (n =? 181) || (n =? 185)
   || (n =? 186) || (188 <=? n) && (n <=? 190)
   || (192 <=? n) && (n <=? 214) || (216 <=? n) && (n <=? 246)
   || (248 <=? n))%nat.

(** The longest run of characters of the class [p] at the start of [s],
    and what follows it: a greedy [p*]. *)
Fixpoint span (p : ascii -> bool) (s : string) : string * string :=
  match s with
  | EmptyString => (EmptyString, EmptyString)
  | String a s' =>
      if p a then let '(run, rest) := span p s' in (String a run, rest)
      else (EmptyString, s)
  end.

(** A literal at the start of [s]: what follows it. *)
Fixpoint literal (l s : string) : option string :=
  match l, s with
  | EmptyString, _ => Some s
  | String a l', String b s' =>
      if bool_decide (a = b) then literal l' s' else None
  | String _ _, EmptyString => None
  end.

(** A lazy [(.*?)] with [re.DOTALL] before the literal [stop]: the text up
    to the first occurrence of [stop]. *)
Fixpoint until (stop s : string) : option string :=
  if String.prefix stop s then Some EmptyString
  else match s with
       | EmptyString => None
       | String a s' => String a <$> until stop s'
       end.

(** [l(.+)] at the start of [s]: the literal, then the rest of the line,
    which must not be empty. *)
Definition match_rest_of_line (l s : string) : option string :=
  match literal l s with
  | Some rest =>
      let group := (span dot rest).1 in
      if Str.truthy group then Some group else None
  | None => None
  end.

(** [File path: `(.+)`] at the start of [s]: the greedy group gives back
    characters up to the last backquote of the line, and keeps one
    character at least. *)
Definition match_filepath (s : string) : option string :=
  match literal "File path: `" s with
  | Some rest =>
      let line := (span dot rest).1 in
      match Str.rfind "`" line with
      | Some (S j) => Some (Str.slice 0 (S j) line)
      | _ => None
      end
  | None => None
  end.

(** The fenced block at the start of [s]: three backquotes, the word
    characters of the language and a newline (a shorter run of word
    characters is followed by a word character, not by the newline), then
    the shortest text before a newline and three backquotes. *)
Definition match_code_block (s : string) : option string :=
  match literal "```" s with
  | Some rest =>
      match (span word rest).2 with
      | String a body =>
          if bool_decide (a = newline) then until (String newline "```") body
          else None
      | EmptyString => None
      end
  | None => None
  end.

(** [re.search(pattern, s).group(1)]: the first position at which the
    attempt succeeds. *)
Fixpoint search (attempt : string -> option string) (s : string)
    : option string :=
  match attempt s with
  | Some group => Some group
  | None =>
      match s with
      | EmptyString => None
      | String _ s' => search attempt s'
      end
  end.

(** The searches of [codeChunker.py]; the patterns of the extractors
    stay those of [java]. *)
Definition python_re (java : Regex) : Regex :=
  {| re_search pattern text :=
       match pattern with
       | PatFilename => search (match_rest_of_line "# ") text
       | PatFilepath => search match_filepath text
       | PatLanguage =>
           search (match_rest_of_line "Programming language: ") text
       | PatCodeBlock => search match_code_block text
       | PatJavaPackage | PatJavaImport | PatJsImportSource
       | PatKotlinImport => @re_search java pattern text
       end |}.

(** [l([^...]+)] at the start of [s]: the literal, then the longest run
    of characters of the class [p], which must not be empty. *)
Definition match_run (l : string) (p : ascii -> bool) (s : string)
    : option string :=
  match literal l s with
  | Some rest =>
      let group := (span p rest).1 in
      if Str.truthy group then Some group else None
  | None => None
  end.

End Re.

(** *** Files opened in text mode

    The curator writes a curated file and the chunker reads it with [open]
    in text mode and the default [newline].  On a POSIX system the write
    leaves the ends of line as they are; the read turns a carriage return,
    with the newline that may follow it, into one newline. *)

Module TextIO.

Definition carriage_return : ascii := "013"%char.

(** What [f.read()] returns for a file that holds the characters [s]. *)
Fixpoint read (s : string) : string :=
  match s with
  | EmptyString => EmptyString
  | String a s' =>
      if bool_decide (a = carriage_return) then
        String Re.newline
          match s' with
          | String b s'' =>
              if bool_decide (b = Re.newline) then read s'' else read s'
          | EmptyString => EmptyString
          end
      else String a (read s')
  end.

End TextIO.

(** *** [Compliance/hookAnalysis.py] *)

Module HookAnalysis.

Definition keywords : list string :=
  ["MEID"; "IMSI"; "MAC"; "IMEI"; "SERIAL"; "ICCID"; "getDeviceId"].

(** The variables of the loop of [extractHookEntries]. *)
Record Scan := {
  hook_entries : list string;
  current_entry : list string;
  in_hook_entry : bool
}.

(** [if current_entry: hook_entries.append('\n'.join(current_entry));
    current_entry = []] *)
Definition flush (entries current : list string)
    : list string * list string :=
  match current with
  | [] => (entries, [])
  | _ :: _ => (entries ++ [Str.join Re.newline current], [])
  end.

(** The body of [for line in lines]. *)
Definition scan_line (st : Scan) (line : string) : Scan :=
  let line := Str.strip line in
  if Str.startswith line "hook:" then
    let '(entries, current) := flush (hook_entries st) (current_entry st) in
    {| hook_entries := entries;
       current_entry := current ++ [line];
       in_hook_entry := true |}
  else if in_hook_entry st then
    if Str.truthy line then
      {| hook_entries := hook_entries st;
         current_entry := current_entry st ++ [line];
         in_hook_entry := in_hook_entry st |}
    else
      let '(entries, current) := flush (hook_entries st) (current_entry st) in
      {| hook_entries := entries;
         current_entry := current;
         in_hook_entry := false |}
  else st.

Definition scan_start : Scan :=
  {| hook_entries := []; current_entry := []; in_hook_entry := false |}.

(** [extractHookEntries] *)
Definition extractHookEntries (text : string) : list string :=
  let lines := Str.split Re.newline text in
  let st := foldl scan_line scan_start lines in
  (flush (hook_entries st) (current_entry st)).1.

(** [s.upper()] as the list of its code points: the capital of a
    character below 256 can be two characters ([SS]) or lie above 255. *)
Definition upper_char (a : ascii) : list N :=
  let n := N_of_ascii a in
  if ((97 <=? n) && (n <=? 122)
      || (224 <=? n) && (n <=? 254) && negb (n =? 247))%N
  then [(n - 32)%N]
  else if (n =? 181)%N then [924%N]
  else if (n =? 223)%N then [83%N; 83%N]
  else if (n =? 255)%N then [376%N]
  else [n].

Definition upper (s : string) : list N :=
  flat_map upper_char (list_ascii_of_string s).

(** [a in b] on two texts given by their code points. *)
Fixpoint starts_with (a b : list N) : bool :=
  match a, b with
  | [], _ => true
  | x :: a', y :: b' => (x =? y)%N && starts_with a' b'
  | _ :: _, [] => false
  end.

Fixpoint occurs_in (a b : list N) : bool :=
  starts_with a b
  || match b with
     | [] => false
     | _ :: b' => occurs_in a b'
     end.

(** [isKeyWord]; [None] is the [Nullable] it returns when no keyword
    occurs. *)
Definition isKeyWord (method : string) (keywords : list string)
    : option string :=
  List.find (fun keyword => occurs_in (upper keyword) (upper method))
            keywords.

(** A row of the result. *)
Record HookResult := {
  keyWord : string;
  clazz : string;
  nativeMethod : string;
  hookMethod : string
}.

(** The classes [[^\s>]] and [[^\s,]]. *)
Definition not_space_nor (c : ascii) (a : ascii) : bool :=
  negb (Str.isspace a) && negb (bool_decide (a = c)).

(** [re.search(r'method=([^\s>]+)', s)] and
    [re.search(r'name=([^\s,]+)', s)] *)
Definition search_method (s : string) : option string :=
  Re.search (Re.match_run "method=" (not_space_nor ">")) s.

Definition search_name (s : string) : option string :=
  Re.search (Re.match_run "name=" (not_space_nor ",")) s.

(** The body of the loop of [processHookEntries]: [None] is the
    [IndexError] of [lines[1]] or of [lines[2]], [Some None] is
    [continue]. *)
Definition process_entry (entry : string) : option (option HookResult) :=
  let lines := Str.split Re.newline entry in
  match lines !! 1%nat with
  | None => None
  | Some second_line =>
      match search_method second_line with
      | None => Some None
      | Some native =>
          match isKeyWord native keywords with
          | None => Some None
          | Some keyword =>
              let class_name := default "" (search_name second_line) in
              match lines !! 2%nat with
              | None => None
              | Some third_line =>
                  Some (Some {| keyWord := keyword;
                                clazz := class_name;
                                nativeMethod := native;
                                hookMethod :=
                                  default "" (search_name third_line) |})
              end
          end
      end
  end.

(** [processHookEntries]; [None] when an [IndexError] leaves the loop. *)
Definition processHookEntries (hook_list : list string)
    : option (list HookResult) :=
  foldl (fun results entry =>
           match results with
           | None => None
           | Some rows =>
               match process_entry entry with
               | None => None
               | Some None => Some rows
               | Some (Some row) => Some (rows ++ [row])
               end
           end)
        (Some []) hook_list.

End HookAnalysis.

(** *** [localRepoProcess.py] *)

Module LocalRepoProcess.
Import IncrementalBuilder.

(** A command line handed to [run_command], as the data put into it: the
    curator with the files of its [--files-list], the chunker and the
    vectoriser with their input and their [--incremental] flag. *)
Inductive Command :=
  | Curate (input : string) (files_list : option (gset string))
  | Chunk (input : string) (incremental : bool)
  | Vectorize (input model : string) (incremental : bool).

(** What the run meets outside of the process: the walk of the repository
    and the files at the time of [get_changed_files] and of [update_cache],
    whether the cache file can be written, whether each command exits with
    status 0, whether the curated directory exists, and the first path the
    [glob] of the chunks file matches. *)
Record World := {
  walk : list (string * list string);
  fs_scan : FileSystem;
  writable_scan : bool;
  curate_ok : bool;
  curated_exists : bool;
  chunk_ok : bool;
  chunks_file : option string;
  vectorize_ok : bool;
  fs_update : FileSystem;
  writable_update : bool
}.

(** What a run leaves: the value returned ([None] when an exception leaves
    the function), the cache file, and the commands run, in order. *)
Record Outcome := {
  returned : option bool;
  cache_after : option CacheFileContent;
  commands : list Command
}.

(** [model.split('/')[-1] if '/' in model else model] *)
Definition model_short (model : string) : string :=
  if Str.contains "/" model then List.last (Str.split "/" model) EmptyString
  else model.

(** The collection name printed at the end of a run. *)
Definition collection_name (repo_name model : string) : string :=
  let collection_name :=
    "code_" +:+ repo_name +:+ "_code_chunks_ast_" +:+ model_short model in
  if (63 <? String.length collection_name)%nat
  then Str.slice 0 63 collection_name
  else collection_name.

(** The builder [process_local_repository] makes. *)
Definition builder {pf : Platform} (repo_path : string) : Builder :=
  init (Path.abspath repo_path) ".build_cache".

(** [process_local_repository]; [file] is the content of the cache file
    when the run starts. *)
Definition process_local_repository {pf : Platform} (repo_path model : string)
    (incremental : bool) (w : World) (file : option CacheFileContent)
    : Outcome :=
  let repo_path := Path.abspath repo_path in
  let repo_name := Path.basename repo_path in
  let builder := init repo_path ".build_cache" in
  let scanned :=
    if incremental then
      match _get_all_code_files builder (walk w) with
      | Some current_files =>
          let '(r, file') :=
            get_changed_files builder current_files (fs_scan w)
              (writable_scan w) file in
          Some (changed r, file')
      | None => None
      end
    else Some (∅, file) in
  match scanned with
  | None => {| returned := None; cache_after := file; commands := [] |}
  | Some (changed_files, file) =>
      if incremental && bool_decide (changed_files = ∅) then
        {| returned := Some true; cache_after := file; commands := [] |}
      else
        let curate :=
          Curate repo_path (if incremental then Some changed_files else None) in
        if negb (curate_ok w) then
          {| returned := Some false; cache_after := file;
             commands := [curate] |}
        else
          let curated_path :=
            Path.join_all "artifacts" ["curated"; repo_name] in
          if negb (curated_exists w) then
            {| returned := Some false; cache_after := file;
               commands := [curate] |}
          else
            let chunk := Chunk curated_path incremental in
            if negb (chunk_ok w) then
              {| returned := Some false; cache_after := file;
                 commands := [curate; chunk] |}
            else
              match chunks_file w with
              | None =>
                  {| returned := Some false; cache_after := file;
                     commands := [curate; chunk] |}
              | Some chunks_file =>
                  let vectorize := Vectorize chunks_file model incremental in
                  if negb (vectorize_ok w) then
                    {| returned := Some false; cache_after := file;
                       commands := [curate; chunk; vectorize] |}
                  else
                    {| returned := Some true;
                       cache_after :=
                         if incremental
                         then update_cache builder changed_files (fs_update w)
                                (writable_update w) file
                         else file;
                       commands := [curate; chunk; vectorize] |}
              end
  end.

End LocalRepoProcess.

(** *** Vocabulary of the further properties *)

Module Notions.
Import IncrementalBuilder.

(** What one directory of the walk adds to the listing: the relative path
    of a file with a listed extension. *)
Definition listed_from {pf : Platform} (b : Builder) (root : string)
    (files : list string) (rel : string) : Prop :=
  exists file, file ∈ files
    /\ Str.lower (Path.splitext file).2 ∈ code_extensions
    /\ Path.relpath (Path.join root file) (repo_path b) = Some rel.

(** The test that makes [_get_all_code_files] pass a directory over. *)
Definition skipped (root : string) : bool :=
  Str.contains_str ".git" root || Str.contains_str "node_modules" root.

(** A walk of the repository of [b], as [os.walk] yields it: the root
    itself or a directory under it, and file names without separator. *)
Definition walk_of_repo (b : Builder) (walk : list (string * list string))
    : Prop :=
  Forall (fun '(root, files) =>
            (root = repo_path b
             \/ exists d, Path.inside_path d = true
                          /\ root = Path.join (repo_path b) d)
            /\ Forall (fun file => Str.contains Path.sep file = false) files)
         walk.

(** The keys of a cache are paths inside the repository. *)
Definition keys_inside (c : Cache) : Prop :=
  forall k, is_Some (files c !! k) -> Path.inside_path k = true.

(** The text whose digest is the identity of a record: the path of the
    curated file, then [filename:chunk_type:index]. *)
Definition uid_text (r : CodeChunker.ChunkRecord) : string :=
  CodeChunker.rec_source r +:+ ":"
  +:+ (CodeChunker.rec_filename r +:+ ":" +:+ CodeChunker.rec_type r
       +:+ ":" +:+ pretty (CodeChunker.rec_chunk_index r)).

(** A declaration as the queries of [JavaChunker] capture it: the kind
    ([class], [method] or [constructor]), the declaration node and the node
    of its name; and the two captures tree-sitter yields for it. *)
Abbreviation Declaration :=
  (string * TreeSitter.Node * TreeSitter.Node)%type.

Definition declaration_captures (d : Declaration)
    : list TreeSitter.Capture :=
  let '(kind, node, name_node) := d in
  [(node, kind); (name_node, kind +:+ "_name")].

(** The chunk [JavaChunker] builds for a declaration. *)
Definition java_chunk_of {ts : TreeSitter.Engine} {ip : Interpreter}
    (code_bytes : string) (captures : list TreeSitter.Capture)
    (imports : list string) (d : Declaration) : Chunk :=
  let '(kind, node, name_node) := d in
  if bool_decide (kind = "class")
  then JavaChunker.class_chunk node name_node code_bytes imports
  else JavaChunker.member_chunk kind node name_node code_bytes captures
         imports.

(** A file name or a relative path that the searches of the chunker read
    back from the header of a curated file: it is not empty, holds neither
    a newline nor a backquote, and does not hold the text
    [Programming language: ]. *)
Definition header_safe (s : string) : bool :=
  Str.truthy s && negb (Str.contains Re.newline s)
  && negb (Str.contains "`" s)
  && negb (Str.contains_str "Programming language: " s).

(** A language name made of word characters. *)
Definition word_text (l : string) : bool :=
  Str.truthy l && forallb Re.word (list_ascii_of_string l).

(** The line that ends a fenced block: a newline and three backquotes. *)
Definition fence : string := String Re.newline "```".

(** The lines of a report that open an entry of [extractHookEntries]. *)
Definition hook_lines (text : string) : list string :=
  filter (fun line => Str.startswith (Str.strip line) "hook:" = true)
         (Str.split Re.newline text).

(** The lines of an entry: a first line that starts with [hook:], and no
    line that is empty or holds a newline. *)
Definition entry_lines (lines : list string) : Prop :=
  match lines with
  | line :: _ => Str.startswith line "hook:" = true
  | [] => False
  end
  /\ Forall (fun line => Str.truthy line = true
                         /\ Str.contains Re.newline line = false) lines.

(** A name as it stands in an import statement: not empty, of ASCII
    characters, without comma and without whitespace, and the two words
    that [extract_imports] cuts at do not occur in it. *)
Definition name_char (a : ascii) : bool :=
  (nat_of_ascii a <? 128)%nat && negb (Str.isspace a)
  && negb (bool_decide (a = ","%char)).

Definition import_name (n : string) : bool :=
  Str.truthy n && forallb name_char (list_ascii_of_string n)
  && negb (Str.contains_str "import" n) && negb (Str.contains_str "from" n).

End Notions.

(** *** Concrete inputs for the examples *)

Module Examples.
Import TreeSitter CodeChunker IncrementalBuilder.

Definition example_platform : Platform :=
  {| md5_hexdigest := fun s => "md5:" +:+ s; getcwd := "/work" |}.

Definition example_builder : Builder :=
  init (pf:=example_platform) "/r" ".build_cache".

(** A cached file whose modification time was touched. *)
Definition touched_cache : Cache :=
  {| files := {[ "a.py" := (10, "md5:x") ]}; deleted_files := ∅ |}.
Definition touched_fs : FileSystem := {[ "/r/a.py" := (20, "x") ]}.

(** A cache file that records [old.py] as deleted. *)
Definition recorded_file : option CacheFileContent :=
  Some (Document {| doc_files := [("/r/old.py", (5, "md5:o"))];
                    doc_deleted_files := Some ["old.py"] |}).

(** Two interpreter processes: one visits a set in insertion order, the
    other in the reverse order. *)
Definition insertion_order : Interpreter :=
  {| set_iter := fun s => s; set_iter_perm := fun s => Permutation_refl s |}.
Definition reverse_order : Interpreter :=
  {| set_iter := reverse; set_iter_perm := reverse_Permutation |}.

(** The Java file of the scenario of the specification, and its tree. *)
Definition foo_java : string := "class Foo { void bar() {} }".
Definition j_root := mkNode 0 "program" 0 27 0 0 None.
Definition j_class := mkNode 1 "class_declaration" 0 27 0 0 (Some j_root).
Definition j_class_name := mkNode 2 "identifier" 6 9 0 0 (Some j_class).
Definition j_body := mkNode 3 "class_body" 10 27 0 0 (Some j_class).
Definition j_method :=
  mkNode 4 "method_declaration" 12 25 0 0 (Some j_body).
Definition j_method_name := mkNode 5 "identifier" 17 20 0 0 (Some j_method).

(** A Java file without any declaration. *)
Definition empty_java : string := "// nothing".

(** A Python file with one class and one method. *)
Definition foo_py : string :=
  "class Foo:" +:+ CodeCurator.nl
  +:+ "    def bar(self):" +:+ CodeCurator.nl
  +:+ "        return baz".
Definition p_root := mkNode 0 "module" 0 48 0 2 None.
Definition p_class := mkNode 1 "class_definition" 0 48 0 2 (Some p_root).
Definition p_class_name := mkNode 2 "identifier" 6 9 0 0 (Some p_class).
Definition p_block := mkNode 3 "block" 15 48 1 2 (Some p_class).
Definition p_func := mkNode 4 "function_definition" 15 48 1 2 (Some p_block).
Definition p_func_name := mkNode 5 "identifier" 19 22 1 1 (Some p_func).
Definition p_params := mkNode 6 "parameters" 22 28 1 1 (Some p_func).
Definition p_self := mkNode 7 "identifier" 23 27 1 1 (Some p_params).
Definition p_body := mkNode 8 "block" 38 48 2 2 (Some p_func).
Definition p_return := mkNode 9 "return_statement" 38 48 2 2 (Some p_body).
Definition p_baz := mkNode 10 "identifier" 45 48 2 2 (Some p_return).

(** What tree-sitter answers on the three sources. *)
Definition example_engine : Engine :=
  {| parse lang code :=
       if bool_decide (code = foo_java) then j_root
       else if bool_decide (code = foo_py) then p_root
       else mkNode 0 "program" 0 (String.length code) 0 0 None;
     captures q code n :=
       if bool_decide (code = foo_java) then
         match q with
         | JavaQuery =>
             [(j_class, "class"); (j_class_name, "class_name");
              (j_method, "method"); (j_method_name, "method_name")]
         | JavaQueryReferences =>
             if (node_id n =? 1)%N
             then [(j_class_name, "identifier"); (j_method_name, "identifier")]
             else if (node_id n =? 4)%N then [(j_method_name, "identifier")]
             else []
         | _ => []
         end
       else if bool_decide (code = foo_py) then
         match q with
         | PyQueryClass => [(p_class, "class"); (p_class_name, "class_name")]
         | PyQueryFunction =>
             [(p_func, "function"); (p_func_name, "function_name")]
         | PyQueryMethod => [(p_func, "method"); (p_func_name, "method_name")]
         | PyQueryReferences =>
             if (node_id n =? 1)%N
             then [(p_class_name, "identifier"); (p_func_name, "identifier");
                   (p_self, "identifier"); (p_baz, "identifier")]
             else if (node_id n =? 4)%N
             then [(p_func_name, "identifier"); (p_self, "identifier");
                   (p_baz, "identifier")]
             else []
         | _ => []
         end
       else [];
     children code n :=
       if bool_decide (code = foo_java) then
         if (node_id n =? 0)%N then [j_class]
         else if (node_id n =? 1)%N then [j_class_name; j_body]
         else if (node_id n =? 3)%N then [j_method]
         else if (node_id n =? 4)%N then [j_method_name]
         else []
       else if bool_decide (code = foo_py) then
         if (node_id n =? 0)%N then [p_class]
         else if (node_id n =? 1)%N then [p_class_name; p_block]
         else if (node_id n =? 3)%N then [p_func]
         else if (node_id n =? 4)%N then [p_func_name; p_params; p_body]
         else if (node_id n =? 6)%N then [p_self]
         else if (node_id n =? 8)%N then [p_return]
         else if (node_id n =? 9)%N then [p_baz]
         else []
       else [] |}.

(** The curated files of the examples, with what the searches of
    [extract_code_info] and [extract_code_content] find in them. *)
Definition foo_java_md : string :=
  CodeCurator.curated "Foo.java" "Foo.java" "java" foo_java.
Definition a_java_md : string :=
  CodeCurator.curated "A.java" "A.java" "java" foo_java.
Definition a_java_emptied_md : string :=
  CodeCurator.curated "A.java" "A.java" "java" empty_java.
Definition foo_py_md : string :=
  CodeCurator.curated "foo.py" "foo.py" "python" foo_py.
Definition notes_rb_md : string :=
  CodeCurator.curated "notes.rb" "notes.rb" "ruby" "puts 1".

Definition curated_table : list (string * (string * string * string)) :=
  [(foo_java_md, ("Foo.java", "java", foo_java));
   (a_java_md, ("A.java", "java", foo_java));
   (a_java_emptied_md, ("A.java", "java", empty_java));
   (foo_py_md, ("foo.py", "python", foo_py));
   (notes_rb_md, ("notes.rb", "ruby", "puts 1"))].

Definition example_regex : Regex :=
  {| re_search pat text :=
       match list_find (fun e => e.1 = text) curated_table with
       | Some (_, (_, (name, lang, code))) =>
           match pat with
           | PatFilename => Some name
           | PatFilepath => Some name
           | PatLanguage => Some lang
           | PatCodeBlock => Some code
           | _ => None
           end
       | None => None
       end |}.

Definition example_others : OtherChunkers :=
  {| javascript_chunk_code := fun _ => Ok [];
     kotlin_chunk_code := fun _ => Ok [];
     objc_chunk_code := fun _ => Ok [] |}.

(** The curated directory of a repository with the files [A.java] and
    [Foo.java], before and after [A.java] lost its only class. *)
Definition curated_dir : string := "artifacts/curated/repo".
Definition a_path : string := "artifacts/curated/repo/A.java.md".
Definition foo_path : string := "artifacts/curated/repo/Foo.java.md".

Definition walk_both : list (string * list string) :=
  [(curated_dir, ["A.java.md"; "Foo.java.md"])].
Definition walk_a_only : list (string * list string) :=
  [(curated_dir, ["A.java.md"])].

Definition fs_before : gmap string string :=
  {[ a_path := a_java_md; foo_path := foo_java_md ]}.
Definition fs_after : gmap string string :=
  {[ a_path := a_java_emptied_md; foo_path := foo_java_md ]}.

(** The store a first, full run leaves. *)
Definition store_before : list ChunkRecord :=
  run (pf:=example_platform) (re:=example_regex) (ts:=example_engine)
      (ip:=insertion_order) (oc:=example_others)
      (CodeChunker.init curated_dir false None) walk_both fs_before.

(** A directory with an unreadable file, a file in a language without
    extractor, and a good file. *)
Definition walk_mixed : list (string * list string) :=
  [(curated_dir, ["gone.md"; "notes.rb.md"; "Foo.java.md"])].
Definition fs_mixed : gmap string string :=
  {[ "artifacts/curated/repo/notes.rb.md" := notes_rb_md;
     foo_path := foo_java_md ]}.

(** A curated Python file. *)
Definition py_path : string := "artifacts/curated/repo/foo.py.md".
Definition fs_py : gmap string string := {[ py_path := foo_py_md ]}.

(** Three chunks of which the second is blank. *)
Definition chunks_with_blank : list Chunk :=
  [("class A {}", make_meta "class A {}" 1 1 "class" "A" None "java" [] []);
   ("  ", make_meta "  " 2 2 "method" "m" None "java" [] []);
   ("void f() {}",
    make_meta "void f() {}" 3 3 "method" "f" None "java" [] [])].

(** A run of the pipeline on the repository [/r] with the one file
    [a.py], every step succeeding, and the same with a chunker that
    fails. *)
Definition example_world : LocalRepoProcess.World :=
  {| LocalRepoProcess.walk := [("/r", ["a.py"])];
     LocalRepoProcess.fs_scan := touched_fs;
     LocalRepoProcess.writable_scan := true;
     LocalRepoProcess.curate_ok := true;
     LocalRepoProcess.curated_exists := true;
     LocalRepoProcess.chunk_ok := true;
     LocalRepoProcess.chunks_file :=
       Some "artifacts/chunks/r_code_chunks_ast.jsonl";
     LocalRepoProcess.vectorize_ok := true;
     LocalRepoProcess.fs_update := touched_fs;
     LocalRepoProcess.writable_update := true |}.

Definition failing_world : LocalRepoProcess.World :=
  {| LocalRepoProcess.walk := [("/r", ["a.py"])];
     LocalRepoProcess.fs_scan := touched_fs;
     LocalRepoProcess.writable_scan := true;
     LocalRepoProcess.curate_ok := true;
     LocalRepoProcess.curated_exists := true;
     LocalRepoProcess.chunk_ok := false;
     LocalRepoProcess.chunks_file := None;
     LocalRepoProcess.vectorize_ok := true;
     LocalRepoProcess.fs_update := touched_fs;
     LocalRepoProcess.writable_update := true |}.

(** A report with two entries, the second being its last line. *)
Definition report_ending_with_hook : string :=
  "hook: first" +:+ CodeCurator.nl
  +:+ "  class=Lcom/a; method=getImei>" +:+ CodeCurator.nl
  +:+ "  name=caller, line 3" +:+ CodeCurator.nl
  +:+ CodeCurator.nl
  +:+ "hook: second".

(** The node of an import statement that is the whole of its file. *)
Definition import_node (type text : string) : Node :=
  mkNode 0 type 0 (String.length text) 0 0 None.

End Examples.

(** ** Part II. Theorems *)

Local Close Scope Z_scope.

(** *** Strings and [os.path.join]. *)

Module PathFacts.

Lemma startswith_cons s a p :
  Str.startswith (String a s) (String a p) = Str.startswith s p.
Proof.
  unfold Str.startswith. simpl. destruct (ascii_dec a a); [done|congruence].
Qed.

Lemma truthy_app_l a b : Str.truthy a = true -> Str.truthy (a +:+ b) = true.
Proof. by destruct a. Qed.

Lemma truthy_or_dot p : Str.truthy (Path.or_dot p) = true.
Proof. unfold Path.or_dot. by destruct p. Qed.

Lemma truthy_normpath p : Str.truthy (Path.normpath p) = true.
Proof.
  unfold Path.normpath. destruct (Str.truthy p); simpl; [|done].
  apply truthy_or_dot.
Qed.

Lemma app_assoc_string (a b c : string) : (a +:+ b) +:+ c = a +:+ (b +:+ c).
Proof. induction a; simpl; [done|]. unfold String.app in *. simpl. by f_equal. Qed.

Lemma join_relative a b :
  Path.isabs b = false -> Path.join a b = Path.dir_prefix a +:+ b.
Proof.
  unfold Path.isabs, Path.join, Path.dir_prefix. intros ->.
  destruct (negb (Str.truthy a) || Str.endswith_char a Path.sep); [done|].
  by rewrite app_assoc_string.
Qed.

Lemma join_inj a b1 b2 :
  Path.isabs b1 = false -> Path.isabs b2 = false ->
  Path.join a b1 = Path.join a b2 -> b1 = b2.
Proof.
  intros H1 H2. rewrite !join_relative by done. apply String.app_inj.
Qed.

Lemma truthy_join a b : Str.truthy a = true -> Str.truthy (Path.join a b) = true.
Proof.
  intros Ha. unfold Path.join.
  destruct (Str.startswith b "/") eqn:Hb.
  - destruct b; [done|done].
  - destruct (negb (Str.truthy a) || Str.endswith_char a Path.sep);
      by apply truthy_app_l.
Qed.

End PathFacts.

(** *** Splitting a path at its separators, [normpath] and [relpath]. *)

Module SplitFacts.
Import PathFacts.

Lemma split_nonempty c s : Str.split c s <> [].
Proof.
  destruct s as [|a s]; simpl; [done|].
  destruct (bool_decide (a = c)); [done|]. by destruct (Str.split c s).
Qed.

Lemma join_cons c x l :
  l <> [] -> Str.join c (x :: l) = x +:+ String c (Str.join c l).
Proof. by destruct l. Qed.

Lemma join_split c s : Str.join c (Str.split c s) = s.
Proof.
  induction s as [|a s IH]; simpl; [done|].
  destruct (bool_decide (a = c)) eqn:E.
  - apply bool_decide_eq_true in E as ->.
    rewrite join_cons by apply split_nonempty. by rewrite IH.
  - destruct (Str.split c s) as [|h t] eqn:Hs; [by apply split_nonempty in Hs|].
    rewrite <- IH. by destruct t.
Qed.

Lemma split_app_sep c a b :
  Str.split c (a +:+ String c b) = Str.split c a ++ Str.split c b.
Proof.
  induction a as [|x a IH]; simpl.
  - by rewrite bool_decide_eq_true_2.
  - change (String x a +:+ String c b) with (String x (a +:+ String c b)).
    simpl. destruct (bool_decide (x = c)); rewrite IH; [done|].
    destruct (Str.split c a) eqn:Hs; [by apply split_nonempty in Hs|done].
Qed.

Lemma split_contains c s x : x ∈ Str.split c s -> Str.contains c x = false.
Proof.
  revert x. induction s as [|a s IH]; intros x; simpl.
  - by intros ->%list_elem_of_singleton.
  - destruct (bool_decide (a = c)) eqn:E.
    + intros [->|?]%elem_of_cons; [done|by apply IH].
    + destruct (Str.split c s) as [|h t] eqn:Hs;
        [by apply split_nonempty in Hs|].
      intros [->|?]%elem_of_cons.
      * simpl. rewrite E. apply IH, elem_of_cons. by left.
      * apply IH, elem_of_cons. by right.
Qed.

Lemma startswith_head a x c :
  Str.startswith (String a x) (String c "") = bool_decide (a = c).
Proof.
  unfold Str.startswith. cbn [String.prefix].
  destruct (ascii_dec c a) as [->|Hne].
  - rewrite bool_decide_eq_true_2 by done. by destruct x.
  - rewrite bool_decide_eq_false_2; [done|congruence].
Qed.

Lemma contains_startswith x :
  Str.contains Path.sep x = false -> Str.startswith x "/" = false.
Proof.
  destruct x as [|a x]; [done|]. rewrite startswith_head.
  cbn [Str.contains]. by intros [Ha _]%orb_false_iff.
Qed.

Lemma contains_endswith x :
  Str.contains Path.sep x = false -> Str.endswith_char x Path.sep = false.
Proof.
  induction x as [|a x IH]; [done|]. simpl.
  intros [Ha Hx]%orb_false_iff. destruct x; [done|]. by apply IH.
Qed.

Lemma endswith_app s1 s2 c :
  s2 <> "" -> Str.endswith_char (s1 +:+ s2) c = Str.endswith_char s2 c.
Proof.
  intros Hs. induction s1 as [|a s1 IH]; [done|].
  change (String a s1 +:+ s2) with (String a (s1 +:+ s2)). simpl.
  destruct (s1 +:+ s2) eqn:E; [|done].
  destruct s1; [by change (s2 = "") in E|discriminate].
Qed.

Lemma is_component_truthy x : Path.is_component x = true -> Str.truthy x = true.
Proof. unfold Path.is_component. by intros [[? _]%andb_true_iff _]%andb_true_iff. Qed.

Lemma inside_path_relative k :
  Path.inside_path k = true -> Str.startswith k "/" = false.
Proof.
  unfold Path.inside_path. intros Hk. destruct k as [|a k]; [reflexivity|].
  rewrite startswith_head. cbn [Str.split] in Hk. unfold Path.sep in Hk.
  by destruct (bool_decide (a = "/"%char)).
Qed.

Lemma inside_path_truthy k : Path.inside_path k = true -> Str.truthy k = true.
Proof. by destruct k. Qed.

Lemma endswith_inv s c :
  Str.endswith_char s c = true -> exists s0, s = s0 +:+ String c "".
Proof.
  induction s as [|a s IH]; [done|]. simpl. destruct s as [|a' s'].
  - intros ->%bool_decide_eq_true. by exists "".
  - intros [s0 ->]%IH. by exists (String a s0).
Qed.

Lemma inside_path_no_trailing_sep k :
  Path.inside_path k = true -> Str.endswith_char k Path.sep = false.
Proof.
  intros Hk. destruct (Str.endswith_char k Path.sep) eqn:E; [|done].
  apply endswith_inv in E as [s0 ->]. unfold Path.inside_path in Hk.
  rewrite split_app_sep, forallb_app in Hk.
  by apply andb_true_iff in Hk as [_ Hk].
Qed.

Lemma inside_path_components k :
  Path.inside_path k = true ->
  Forall (fun x => Path.is_component x = true /\ Str.contains Path.sep x = false)
         (Str.split Path.sep k).
Proof.
  intros Hk. apply Forall_forall. intros x Hx. split.
  - unfold Path.inside_path in Hk. rewrite forallb_forall in Hk.
    apply Hk. by apply list_elem_of_In.
  - by eapply split_contains.
Qed.

(** [normpath] leaves a list of proper components as it is. *)
Lemma normpath_step_component i acc x :
  Path.is_component x = true -> Path.normpath_step i acc x = acc ++ [x].
Proof.
  unfold Path.is_component, Path.normpath_step.
  intros [[Ht Hd]%andb_true_iff Hdd]%andb_true_iff.
  apply negb_true_iff, bool_decide_eq_false in Hd, Hdd.
  rewrite bool_decide_eq_false_2.
  - rewrite bool_decide_eq_true_2; [done|by left].
  - intros [->| ->]; done.
Qed.

Lemma normpath_components i l : forall acc,
  Forall (fun x => Path.is_component x = true) l ->
  foldl (Path.normpath_step i) acc l = acc ++ l.
Proof.
  induction l as [|x l IH]; intros acc Hl; simpl.
  - by rewrite app_nil_r.
  - inversion Hl; subst. rewrite normpath_step_component by done.
    rewrite IH by done. by rewrite <- app_assoc.
Qed.

Lemma common_prefix_len_app l l' :
  Path.common_prefix_len l (l ++ l') = length l.
Proof.
  induction l as [|x l IH]; simpl; [by destruct l'|].
  by rewrite bool_decide_eq_true_2, IH.
Qed.

Lemma filter_truthy_components l :
  Forall (fun x => Path.is_component x = true) l ->
  filter (fun x => Str.truthy x = true) l = l.
Proof.
  induction 1 as [|x l Hx Hl IH]; [done|].
  rewrite filter_cons_True by by apply is_component_truthy.
  by rewrite IH.
Qed.

Lemma join_all_components p : forall a,
  Str.truthy a = true -> Str.endswith_char a Path.sep = false ->
  Forall (fun x => Str.truthy x = true /\ Str.contains Path.sep x = false) p ->
  Path.join_all a p = Str.join Path.sep (a :: p).
Proof.
  unfold Path.join_all.
  induction p as [|x p IH]; intros a Ha He Hp; simpl; [done|].
  inversion Hp as [|?? [Hx Hc] Hp']; subst.
  assert (Hj : Path.join a x = a +:+ String Path.sep x).
  { unfold Path.join. rewrite contains_startswith by done.
    by rewrite Ha, He. }
  rewrite Hj, IH.
  - destruct p as [|y p]; [done|].
    rewrite !join_cons by done. by rewrite app_assoc_string.
  - by apply truthy_app_l.
  - rewrite endswith_app by done. destruct x as [|a' x']; [done|].
    change (Str.endswith_char (String a' x') Path.sep = false).
    by apply contains_endswith.
  - done.
Qed.

Lemma initial_slashes_rooted s :
  Str.startswith s "/" = false -> Path.initial_slashes (String "/" s) = 1.
Proof.
  intros Hs. unfold Path.initial_slashes.
  rewrite startswith_head, bool_decide_eq_true_2 by done.
  by rewrite startswith_cons, Hs.
Qed.

Lemma normpath_rooted s :
  Path.inside_path s = true -> Path.normpath (String "/" s) = String "/" s.
Proof.
  intros Hs. unfold Path.normpath. cbn [Str.truthy negb].
  rewrite initial_slashes_rooted by by apply inside_path_relative.
  cbn [Str.split]. unfold Path.sep. rewrite bool_decide_eq_true_2 by done.
  cbn [foldl]. change (Path.normpath_step 1 [] "") with (@nil string).
  rewrite normpath_components.
  - simpl. by rewrite join_split.
  - eapply Forall_impl; [by apply inside_path_components|]. by intros ? [? _].
Qed.

Lemma inside_path_app a b :
  Path.inside_path a = true -> Path.inside_path b = true ->
  Path.inside_path (a +:+ String Path.sep b) = true.
Proof.
  unfold Path.inside_path. intros Ha Hb.
  by rewrite split_app_sep, forallb_app, Ha, Hb.
Qed.

Lemma join_rooted s k :
  Path.inside_path s = true -> Path.inside_path k = true ->
  Path.join (String "/" s) k = String "/" (s +:+ String Path.sep k).
Proof.
  intros Hs Hk. unfold Path.join.
  rewrite inside_path_relative by done. cbn [Str.truthy negb orb].
  assert (He : Str.endswith_char (String "/" s) Path.sep = false).
  { pose proof (inside_path_truthy _ Hs). destruct s as [|a s]; [done|].
    change (Str.endswith_char (String a s) Path.sep = false).
    by apply inside_path_no_trailing_sep. }
  by rewrite He.
Qed.

Section Relpath.
Context {pf : Platform}.

Lemma abspath_rooted s :
  Path.inside_path s = true -> Path.abspath (String "/" s) = String "/" s.
Proof.
  intros Hs. unfold Path.abspath, Path.isabs.
  rewrite startswith_head, bool_decide_eq_true_2 by done.
  by apply normpath_rooted.
Qed.

(** A path inside the repository, joined to the root and taken relative to
    it again, is itself. *)
Lemma relpath_join_inside root k :
  Path.rooted_path root = true -> Path.inside_path k = true ->
  Path.relpath (Path.join root k) root = Some k.
Proof.
  destruct root as [|a s]; [done|]. cbn [Path.rooted_path].
  intros [->%bool_decide_eq_true Hs]%andb_true_iff Hk.
  unfold Path.sep in *. rewrite join_rooted by done.
  unfold Path.relpath. cbn [Str.truthy negb].
  rewrite !abspath_rooted by (done || by apply inside_path_app).
  cbn [Str.split]. unfold Path.sep. rewrite !bool_decide_eq_true_2 by done.
  rewrite !filter_cons_False by (by intros ?).
  change "/"%char with Path.sep. rewrite split_app_sep.
  pose proof (inside_path_components _ Hs) as Hcs.
  pose proof (inside_path_components _ Hk) as Hck.
  rewrite filter_app, !filter_truthy_components
    by (eapply Forall_impl; [eassumption|]; by intros ? [? _]).
  rewrite common_prefix_len_app, Nat.sub_diag, drop_app_length.
  cbn [repeat app].
  destruct (Str.split Path.sep k) as [|x p] eqn:Ek;
    [by apply split_nonempty in Ek|].
  inversion Hck as [|?? [Hx Hc] Hp]; subst.
  rewrite join_all_components.
  - by rewrite <- Ek, join_split.
  - by apply is_component_truthy.
  - by apply contains_endswith.
  - eapply Forall_impl; [eassumption|]. intros ? [? ?].
    split; [by apply is_component_truthy|done].
Qed.

Lemma join_keeps_relative acc x :
  Str.truthy acc = true -> Path.isabs acc = false -> Path.isabs x = false ->
  Str.truthy (Path.join acc x) = true
  /\ Path.isabs (Path.join acc x) = false.
Proof.
  intros Ha Hacc Hx. split; [by apply truthy_join|].
  rewrite join_relative by done. unfold Path.dir_prefix.
  destruct acc as [|a acc]; [done|]. unfold Path.isabs in *.
  rewrite startswith_head in Hacc.
  destruct (negb _ || _);
    [change (String a acc +:+ x) with (String a (acc +:+ x))
    |change ((String a acc +:+ "/") +:+ x)
       with (String a ((acc +:+ "/") +:+ x))];
    by rewrite startswith_head.
Qed.

Lemma join_all_keeps_relative p : forall a,
  Str.truthy a = true -> Path.isabs a = false ->
  Forall (fun x => Path.isabs x = false) p ->
  Path.isabs (Path.join_all a p) = false.
Proof.
  unfold Path.join_all.
  induction p as [|x p IH]; intros a Ha Habs Hp; simpl; [done|].
  inversion Hp; subst.
  destruct (join_keeps_relative a x) as [? ?]; [done..|]. by apply IH.
Qed.

(** Every path [relpath] returns is relative: so are the paths of the
    listing of [_get_all_code_files] and the keys of a loaded cache. *)
Lemma relpath_is_relative path start r :
  Path.relpath path start = Some r -> Path.isabs r = false.
Proof.
  unfold Path.relpath. destruct (negb (Str.truthy path)); [done|].
  set (sl := filter _ (Str.split Path.sep (Path.abspath start))).
  set (pl := filter _ (Str.split Path.sep (Path.abspath path))).
  assert (Hpl : Forall (fun x => Str.truthy x = true
                                 /\ Path.isabs x = false) pl).
  { apply Forall_forall. intros x [Ht Hx]%list_elem_of_filter.
    split; [done|]. by eapply contains_startswith, split_contains. }
  assert (Hall : Forall (fun x => Str.truthy x = true
                                  /\ Path.isabs x = false)
                   (repeat ".." (length sl - Path.common_prefix_len sl pl)
                    ++ drop (Path.common_prefix_len sl pl) pl)).
  { apply Forall_app. split.
    - apply Forall_forall. by intros x ->%list_elem_of_In%repeat_spec.
    - by apply Forall_drop. }
  destruct (_ ++ _) as [|a p]; [by intros [= <-]|].
  intros [= <-]. inversion Hall as [|?? [Ha Habs] Hp]; subst.
  apply join_all_keeps_relative; [done..|].
  eapply Forall_impl; [eassumption|]. by intros ? [_ ?].
Qed.

End Relpath.

End SplitFacts.

(** *** The two loops of [get_changed_files] and what a save keeps. *)

Module TrackerFacts.
Import PathFacts IncrementalBuilder.
Local Open Scope Z_scope.

Section Classification.
Context {pf : Platform}.
Variables (b : Builder) (cache : Cache) (fs : FileSystem).

Lemma modified_test (m cm : Z) (h ch : string) :
  bool_decide (m > cm) || negb (bool_decide (h = ch)) = true
  <-> (m > cm \/ h <> ch).
Proof.
  rewrite orb_true_iff, negb_true_iff, bool_decide_eq_true,
    bool_decide_eq_false. done.
Qed.

Lemma scan_file_modified st rel x :
  x ∈ modified_files (scan_file b cache fs st rel)
  <-> x ∈ modified_files st \/ (x = rel /\ is_modified b cache fs rel).
Proof.
  unfold scan_file, is_modified.
  destruct (_get_file_info fs _) as [[m h]|] eqn:Hi; simpl.
  - destruct (files cache !! rel) as [[cm ch]|] eqn:Hc; simpl.
    + pose proof (modified_test m cm h ch) as Ht.
      destruct (bool_decide (m > cm) || negb (bool_decide (h = ch))); simpl.
      * rewrite elem_of_app, list_elem_of_singleton. split; [|tauto].
        intros [?| ->]; [by left|]. right. split; [done|].
        exists m, h, cm, ch. tauto.
      * split; [by left|]. intros [?|[-> (m'&h'&cm'&ch'&E1&E2&Hor)]]; [done|].
        injection E1 as -> ->. injection E2 as -> ->.
        apply Ht in Hor. discriminate.
    + split; [by left|]. intros [?|[-> (?&?&?&?&?&?&?)]]; [done|congruence].
  - split; [by left|]. intros [?|[-> (?&?&?&?&?&?&?)]]; [done|congruence].
Qed.

Lemma scan_file_changed st rel p :
  p ∈ changed_files (scan_file b cache fs st rel)
  <-> p ∈ changed_files st
      \/ (p = Path.join (repo_path b) rel /\ is_reprocessed b cache fs rel).
Proof.
  unfold scan_file, is_reprocessed, is_modified.
  destruct (_get_file_info fs _) as [[m h]|] eqn:Hi; simpl.
  - destruct (files cache !! rel) as [[cm ch]|] eqn:Hc; simpl.
    + pose proof (modified_test m cm h ch) as Ht.
      destruct (bool_decide (m > cm) || negb (bool_decide (h = ch))); simpl.
      * rewrite elem_of_union, elem_of_singleton. split; [|tauto].
        intros [?| ->]; [by left|]. right. split; [done|]. right; right.
        exists m, h, cm, ch. tauto.
      * split; [by left|].
        intros [?|[-> [?|[?|(m'&h'&cm'&ch'&E1&E2&Hor)]]]]; [done|done|done|].
        injection E1 as -> ->. injection E2 as -> ->.
        apply Ht in Hor. discriminate.
    + rewrite elem_of_union, elem_of_singleton. tauto.
  - rewrite elem_of_union, elem_of_singleton. tauto.
Qed.

Lemma scan_modified l : forall st x,
  x ∈ modified_files (foldl (scan_file b cache fs) st l)
  <-> x ∈ modified_files st \/ (x ∈ l /\ is_modified b cache fs x).
Proof.
  induction l as [|rel l IH]; intros st x; simpl.
  - rewrite elem_of_nil. tauto.
  - rewrite IH, scan_file_modified, elem_of_cons. split.
    + intros [[?|[-> ?]]|[? ?]]; tauto.
    + intros [?|[[->|?] ?]]; tauto.
Qed.

Lemma scan_changed l : forall st p,
  p ∈ changed_files (foldl (scan_file b cache fs) st l)
  <-> p ∈ changed_files st
      \/ exists rel, rel ∈ l /\ p = Path.join (repo_path b) rel
                     /\ is_reprocessed b cache fs rel.
Proof.
  induction l as [|rel l IH]; intros st p; simpl.
  - split; [by left|]. intros [?|(?&Hin&_)]; [done|]. by apply elem_of_nil in Hin.
  - rewrite IH, scan_file_changed. split.
    + intros [[?|[-> ?]]|(r&?&?&?)]; [by left|right..].
      * exists rel. split; [apply elem_of_cons; by left|done].
      * exists r. split; [apply elem_of_cons; by right|done].
    + intros [?|(r&[->|?]%elem_of_cons&?&?)]; [tauto|tauto|].
      right. by exists r.
Qed.

Lemma report_modified_iff current rel :
  rel ∈ report_modified (classify_changes b cache current fs)
  <-> rel ∈ current /\ is_modified b cache fs rel.
Proof.
  unfold classify_changes; simpl. rewrite scan_modified. simpl.
  rewrite elem_of_nil, elem_of_elements. tauto.
Qed.

Lemma changed_iff current p :
  p ∈ changed (classify_changes b cache current fs)
  <-> exists rel, rel ∈ current /\ p = Path.join (repo_path b) rel
                  /\ is_reprocessed b cache fs rel.
Proof.
  unfold classify_changes; simpl. rewrite scan_changed. simpl.
  rewrite elem_of_empty. split.
  - intros [[]|(r&?%elem_of_elements&?)]. by exists r.
  - intros (r&?&?). right. exists r. by rewrite elem_of_elements.
Qed.

Lemma report_deleted_iff current rel :
  rel ∈ report_deleted (classify_changes b cache current fs)
  <-> is_Some (files cache !! rel) /\ (rel ∉ current)
      /\ (rel ∉ deleted_files cache).
Proof.
  unfold classify_changes, detect_deleted; simpl.
  rewrite list_elem_of_filter, list_elem_of_fmap.
  split.
  - intros [[? ?] ([k v]&->&Hin)]. apply elem_of_map_to_list in Hin.
    simpl. eauto.
  - intros ([v Hv]&?&?). split; [done|]. exists (rel, v). split; [done|].
    by apply elem_of_map_to_list.
Qed.

End Classification.

Section Persistence.
Context {pf : Platform}.

Lemma dict_of_items_acc {V} (l : list (string * V)) :
  forall (m : gmap string V) k v,
  foldl (fun m kv => <[kv.1 := kv.2]> m) m l !! k = Some v ->
  (k, v) ∈ l \/ m !! k = Some v.
Proof.
  induction l as [|[k' v'] l IH]; intros m k v; simpl; [by right|].
  intros [Hin|Hm]%IH.
  - left. by apply elem_of_cons; right.
  - destruct (decide (k' = k)) as [->|Hne].
    + rewrite lookup_insert_eq in Hm. injection Hm as ->.
      left. apply elem_of_cons. by left.
    + rewrite lookup_insert_ne in Hm by done. by right.
Qed.

Lemma dict_of_items_elem {V} (l : list (string * V)) k v :
  dict_of_items l !! k = Some v -> (k, v) ∈ l.
Proof.
  intros [?|Hm]%dict_of_items_acc; [done|]. by rewrite lookup_empty in Hm.
Qed.

Lemma abs_cache_keys_truthy b c k v :
  Str.truthy (repo_path b) = true ->
  (k, v) ∈ doc_files (abs_cache b c) -> Str.truthy k = true.
Proof.
  intros Hb Hin. unfold abs_cache in Hin; simpl in Hin.
  apply elem_of_map_to_list, dict_of_items_elem in Hin.
  apply list_elem_of_fmap in Hin as ([k0 v0]&E&_).
  injection E as -> ->. by apply truthy_join.
Qed.

Lemma relpath_is_Some p start :
  Str.truthy p = true -> is_Some (Path.relpath p start).
Proof.
  intros Hp. unfold Path.relpath. rewrite Hp. simpl.
  by destruct (_ ++ _).
Qed.

Lemma relative_items_saved b c :
  Str.truthy (repo_path b) = true ->
  is_Some (relative_items b (doc_files (abs_cache b c))).
Proof.
  intros Hb. unfold relative_items. apply mapM_is_Some, Forall_forall.
  intros [k v] Hin. simpl.
  destruct (relpath_is_Some k (repo_path b)) as [rel ->]; [|done].
  by eapply abs_cache_keys_truthy.
Qed.

(** The deleted set survives a save followed by a load. *)
Lemma load_save_deleted_files b c :
  Str.truthy (repo_path b) = true ->
  deleted_files (_load_cache b (Some (Document (abs_cache b c))))
  = deleted_files c.
Proof.
  intros Hb. unfold _load_cache.
  destruct (relative_items_saved b c Hb) as [items ->]. simpl.
  apply list_to_set_elements_L.
Qed.

Lemma repo_path_init repo dir : Str.truthy (repo_path (init repo dir)) = true.
Proof. apply truthy_normpath. Qed.

Lemma update_file_deleted b fs c p :
  deleted_files (update_file b fs c p) = deleted_files c.
Proof.
  unfold update_file. destruct (Path.relpath _ _); [|done].
  by destruct (_get_file_info _ _).
Qed.

Lemma updated_cache_deleted b fs ps : forall c,
  deleted_files (foldl (update_file b fs) c ps) = deleted_files c.
Proof.
  induction ps as [|p ps IH]; intros c; simpl; [done|].
  by rewrite IH, update_file_deleted.
Qed.

(** Every call keeps what the cache file records as deleted. *)
Lemma run_call_deleted_mono b file c :
  Str.truthy (repo_path b) = true ->
  deleted_files (_load_cache b file)
  ⊆ deleted_files (_load_cache b (run_call b file c).1).
Proof.
  intros Hb. destruct c as [current fs [|]|processed fs [|]];
    unfold run_call, get_changed_files, update_cache, _save_cache;
    cbn [fst snd]; try done.
  - rewrite load_save_deleted_files by done. simpl. set_solver.
  - rewrite load_save_deleted_files by done.
    unfold updated_cache. by rewrite updated_cache_deleted.
Qed.

Lemma run_call_report b file c rel :
  rel ∈ deleted_files (_load_cache b file) -> rel ∉ (run_call b file c).2.
Proof.
  intros Hin. destruct c as [current fs w|processed fs w];
    unfold run_call, get_changed_files; cbn [fst snd].
  - rewrite report_deleted_iff. tauto.
  - apply not_elem_of_nil.
Qed.

End Persistence.

End TrackerFacts.

(** *** The change classification and the deleted set. *)

Module TrackerClaims.
Import PathFacts TrackerFacts IncrementalBuilder Examples.
Local Open Scope Z_scope.

Section Tracker.
Context {pf : Platform}.

(** For a file that is cached and can be read, the verdict of the loop is
    the test of the source. *)
Lemma known_file_is_modified (b : Builder) (cache : Cache) (fs : FileSystem)
    (rel : string) (cm m : Z) (ch h : string) :
  files cache !! rel = Some (cm, ch) ->
  _get_file_info fs (Path.join (repo_path b) rel) = Some (m, h) ->
  is_modified b cache fs rel <-> (m > cm \/ h <> ch).
Proof.
  intros Hc Hi. unfold is_modified. rewrite Hi, Hc. split.
  - intros (?&?&?&?&E1&E2&?). by simplify_eq.
  - intros ?. by exists m, h, cm, ch.
Qed.

(** A listed, cached, readable file is in the returned set exactly when it
    is listed as modified. *)
Lemma known_file_changed (b : Builder) (cache : Cache) (fs : FileSystem)
    (current : gset string) (rel : string) (cm m : Z) (ch h : string) :
  rel ∈ current ->
  (forall r, r ∈ current -> Path.isabs r = false) ->
  files cache !! rel = Some (cm, ch) ->
  _get_file_info fs (Path.join (repo_path b) rel) = Some (m, h) ->
  Path.join (repo_path b) rel ∈ changed (classify_changes b cache current fs)
  <-> is_modified b cache fs rel.
Proof.
  intros Hin Hrel Hc Hi. rewrite changed_iff. split.
  - intros (rel'&Hin'&E&Hre).
    apply join_inj in E; [|by apply Hrel..]. subst rel'.
    destruct Hre as [Hre|[Hre|Hre]]; [congruence|congruence|done].
  - intros ?. exists rel. split_and!; [done..|]. right; by right.
Qed.

(** C4. A file present in both the cache and the listing is listed as
    modified, and is in the set to reprocess, if and only if its current
    mtime is newer than the cached one or its current hash differs from the
    cached one; when both are those of the cache it is skipped. *)
Theorem known_file_modified_iff (b : Builder) (cache : Cache)
    (current : gset string) (fs : FileSystem) (rel : string)
    (cm m : Z) (ch h : string) :
  rel ∈ current ->
  (forall r, r ∈ current -> Path.isabs r = false) ->
  files cache !! rel = Some (cm, ch) ->
  _get_file_info fs (Path.join (repo_path b) rel) = Some (m, h) ->
  let r := classify_changes b cache current fs in
  (rel ∈ report_modified r <-> (m > cm \/ h <> ch))
  /\ (Path.join (repo_path b) rel ∈ changed r <-> (m > cm \/ h <> ch))
  /\ (m = cm /\ h = ch ->
      (Path.join (repo_path b) rel ∉ changed r)
      /\ (rel ∉ report_modified r)).
Proof.
  intros Hin Hrel Hc Hi r.
  pose proof (known_file_is_modified b cache fs rel cm m ch h Hc Hi) as Hmod.
  assert (H1 : rel ∈ report_modified r <-> (m > cm \/ h <> ch)).
  { subst r. rewrite report_modified_iff. tauto. }
  assert (H2 : Path.join (repo_path b) rel ∈ changed r
               <-> (m > cm \/ h <> ch)).
  { subst r. by rewrite (known_file_changed b cache fs current rel cm m ch h). }
  split_and!; [done..|].
  intros [-> ->]. rewrite H1, H2. split; intros [?|?]; [lia|done|lia|done].
Qed.

(** C1, as the code has it.  A hash that differs from the cached one always
    sends a known file to reprocessing; a file whose bytes are unaltered is
    left out exactly when its mtime is not newer than the cached one. *)
Theorem unaltered_file_unchanged_iff_mtime_not_newer (b : Builder)
    (cache : Cache) (current : gset string) (fs : FileSystem)
    (rel : string) (cm m : Z) (ch content : string) :
  rel ∈ current ->
  (forall r, r ∈ current -> Path.isabs r = false) ->
  files cache !! rel = Some (cm, ch) ->
  fs !! Path.join (repo_path b) rel = Some (m, content) ->
  let r := classify_changes b cache current fs in
  (_calculate_file_hash content <> ch ->
   Path.join (repo_path b) rel ∈ changed r)
  /\ (_calculate_file_hash content = ch ->
      ((Path.join (repo_path b) rel ∉ changed r) <-> m <= cm)
      /\ ((rel ∉ report_modified r) <-> m <= cm)).
Proof.
  intros Hin Hrel Hc Hfs r.
  assert (Hi : _get_file_info fs (Path.join (repo_path b) rel)
               = Some (m, _calculate_file_hash content)).
  { unfold _get_file_info. by rewrite Hfs. }
  pose proof (known_file_is_modified b cache fs rel cm m ch _ Hc Hi) as Hmod.
  pose proof (known_file_changed b cache fs current rel cm m ch _
                Hin Hrel Hc Hi) as H2.
  fold r in H2. rewrite Hmod in H2.
  assert (H1 : rel ∈ report_modified r
               <-> (m > cm \/ _calculate_file_hash content <> ch)).
  { subst r. rewrite report_modified_iff. tauto. }
  split.
  - intros Hne. apply H2. by right.
  - intros Heq. rewrite H1, H2. split; (split; [|intros ? [?|?]; [lia|done]]).
    + intros Hn. destruct (decide (m > cm)); [|lia]. destruct Hn. by left.
    + intros Hn. destruct (decide (m > cm)); [|lia]. destruct Hn. by left.
Qed.

Lemma updated_cache_writes (b : Builder) (fs : FileSystem) (rel : string) :
  forall ps c,
    files (foldl (update_file b fs) c ps) !! rel <> files c !! rel ->
    exists abs_path info, abs_path ∈ ps
      /\ Path.relpath abs_path (repo_path b) = Some rel
      /\ _get_file_info fs abs_path = Some info
      /\ files (foldl (update_file b fs) c ps) !! rel = Some info.
Proof.
  induction ps as [|p ps IH]; intros c Hne; simpl in *; [done|].
  destruct (decide (files (foldl (update_file b fs) (update_file b fs c p) ps)
                      !! rel = files (update_file b fs c p) !! rel))
    as [E|NE].
  - rewrite E in *. exists p. unfold update_file in *.
    destruct (Path.relpath p (repo_path b)) as [rel'|] eqn:Hr; [|done].
    destruct (_get_file_info fs p) as [info|] eqn:Hinfo; [|done].
    simpl in *. destruct (decide (rel' = rel)) as [->|Hd].
    + exists info. rewrite lookup_insert_eq. split_and!; try done.
      apply elem_of_cons; by left.
    + by rewrite lookup_insert_ne in Hne.
  - destruct (IH _ NE) as (a&info&?&?&?&?). exists a, info.
    split_and!; try done. apply elem_of_cons; by right.
Qed.

(** C10. [get_changed_files] hands [_save_cache] the loaded [files]
    mapping as it is, with the deleted set grown by the deletions it
    reports; [update_cache] keeps the deleted set and changes the state of
    a path only to the state read for a file of its processed set. *)
Theorem get_changed_files_keeps_file_states (b : Builder)
    (current processed : gset string) (fs fs' : FileSystem)
    (writable : bool) (file : option CacheFileContent) :
  let cache := _load_cache b file in
  let out := get_changed_files b current fs writable file in
  let r := out.1 in
  let cache' := updated_cache b fs' cache processed in
  files (saved_cache r) = files cache
  /\ deleted_files (saved_cache r)
     = deleted_files cache ∪ list_to_set (report_deleted r)
  /\ out.2 = _save_cache b (saved_cache r) writable file
  /\ update_cache b processed fs' writable file
     = _save_cache b cache' writable file
  /\ deleted_files cache' = deleted_files cache
  /\ (forall rel, files cache' !! rel <> files cache !! rel ->
        exists abs_path info, abs_path ∈ processed
          /\ Path.relpath abs_path (repo_path b) = Some rel
          /\ _get_file_info fs' abs_path = Some info
          /\ files cache' !! rel = Some info).
Proof.
  intros cache out r cache'. split_and!; try done.
  - unfold cache', updated_cache. apply updated_cache_deleted.
  - intros rel Hne.
    destruct (updated_cache_writes b fs' rel _ _ Hne) as (a&info&Ha&?&?&?).
    exists a, info. split_and!; try done. by apply elem_of_elements.
Qed.

(** C5. A cached path is reported as deleted only when it is neither
    listed nor already in the deleted set; a reported deletion is in the
    deleted set of the cache file once it is saved; and a path of the
    deleted set of the cache file is in no deleted-files report of any
    later call, whatever the listings are. *)
Theorem deletion_reported_once (b : Builder) :
  Str.truthy (repo_path b) = true ->
  (forall cache current fs rel,
     rel ∈ report_deleted (classify_changes b cache current fs)
     <-> is_Some (files cache !! rel) /\ (rel ∉ current)
         /\ (rel ∉ deleted_files cache))
  /\ (forall file current fs rel,
        let out := get_changed_files b current fs true file in
        rel ∈ report_deleted out.1 ->
        rel ∈ deleted_files (_load_cache b out.2))
  /\ (forall cs file rel,
        rel ∈ deleted_files (_load_cache b file) ->
        Forall (fun report => rel ∉ report) (run_calls b file cs).2).
Proof.
  intros Hb. split_and!.
  - intros. apply report_deleted_iff.
  - intros file current fs rel out Hin. subst out.
    unfold get_changed_files, _save_cache in *. cbn [fst snd] in *.
    rewrite load_save_deleted_files by done. simpl.
    apply elem_of_union. right. by apply elem_of_list_to_set.
  - induction cs as [|c cs IH]; intros file rel Hin; simpl; [constructor|].
    pose proof (run_call_report b file c rel Hin) as Hrep.
    pose proof (run_call_deleted_mono b file c Hb rel Hin) as Hmono.
    destruct (run_call b file c) as [file' rep]. simpl in *.
    specialize (IH file' rel Hmono).
    destruct (run_calls b file' cs) as [file'' reps]. simpl in *.
    by constructor.
Qed.

End Tracker.

Lemma known_file_modified_iff_witness :
  ("/r/a.py" ∈ changed (classify_changes (pf:=example_platform)
      example_builder touched_cache {[ "a.py" ]} touched_fs)
   <-> (20 > 10 \/ "md5:x" <> "md5:x")).
Proof.
  refine (proj1 (proj2 (known_file_modified_iff (pf:=example_platform)
    example_builder touched_cache {[ "a.py" ]} touched_fs "a.py" 10 20
    "md5:x" "md5:x" _ _ _ _))).
  - by apply elem_of_singleton.
  - intros r ->%elem_of_singleton. reflexivity.
  - reflexivity.
  - reflexivity.
Defined.

(** The counterexample to C1 as stated: the bytes of [a.py] are those of
    the cache, only its mtime is newer, and the file is reprocessed. *)
Lemma touched_file_is_reprocessed :
  files touched_cache !! "a.py" = Some (10, "md5:x")
  /\ touched_fs !! "/r/a.py" = Some (20, "x")
  /\ _calculate_file_hash (pf:=example_platform) "x" = "md5:x"
  /\ changed (classify_changes (pf:=example_platform) example_builder
                touched_cache {[ "a.py" ]} touched_fs) = {[ "/r/a.py" ]}
  /\ report_modified (classify_changes (pf:=example_platform) example_builder
                touched_cache {[ "a.py" ]} touched_fs) = ["a.py"].
Proof. split_and!; by vm_compute. Qed.

Lemma unaltered_file_unchanged_iff_mtime_not_newer_witness :
  (("/r/a.py" ∉ changed (classify_changes (pf:=example_platform)
       example_builder touched_cache {[ "a.py" ]} touched_fs)) <-> 20 <= 10).
Proof.
  refine (proj1 (proj2 (unaltered_file_unchanged_iff_mtime_not_newer
    (pf:=example_platform) example_builder touched_cache {[ "a.py" ]}
    touched_fs "a.py" 10 20 "md5:x" "x" _ _ _ _) _)).
  - by apply elem_of_singleton.
  - intros r ->%elem_of_singleton. reflexivity.
  - reflexivity.
  - reflexivity.
  - reflexivity.
Defined.

Lemma deletion_reported_once_witness :
  Forall (fun report => "old.py" ∉ report)
    (run_calls (pf:=example_platform) example_builder recorded_file
       [CallGetChangedFiles ∅ ∅ true;
        CallUpdateCache {[ "/r/a.py" ]} touched_fs true;
        CallGetChangedFiles {[ "a.py" ]} touched_fs true]).2.
Proof.
  refine (proj2 (proj2 (deletion_reported_once (pf:=example_platform)
                          example_builder eq_refl)) _ _ _ _).
  by vm_compute.
Defined.

End TrackerClaims.

(** *** Saving a cache and loading it again. *)

Module RoundTrip.
Import PathFacts TrackerFacts SplitFacts IncrementalBuilder.
Local Open Scope Z_scope.

Section Dict.
Context {V : Type}.

Lemma dict_of_items_some_acc (l : list (string * V)) k :
  forall m : gmap string V,
    (exists v, (k, v) ∈ l) \/ is_Some (m !! k) ->
    is_Some (foldl (fun m kv => <[kv.1 := kv.2]> m) m l !! k).
Proof.
  induction l as [|[k' v'] l IH]; intros m; simpl.
  - intros [[v Hin]|?]; [by apply elem_of_nil in Hin|done].
  - intros [[v Hin]|Hm]; apply IH.
    + apply elem_of_cons in Hin as [E|Hin]; [|left; by exists v].
      injection E as <- <-. right. rewrite lookup_insert_eq. by eexists.
    + right. destruct (decide (k' = k)) as [->|Hne].
      * rewrite lookup_insert_eq. by eexists.
      * by rewrite lookup_insert_ne.
Qed.

(** On items that give each key one value, the comprehension is the
    relation itself. *)
Lemma dict_of_items_functional (l : list (string * V)) k v :
  (forall v1 v2, (k, v1) ∈ l -> (k, v2) ∈ l -> v1 = v2) ->
  dict_of_items l !! k = Some v <-> (k, v) ∈ l.
Proof.
  intros Hfun. split; [apply dict_of_items_elem|].
  intros Hin.
  destruct (dict_of_items_some_acc l k ∅) as [v' Hv'].
  { left. by exists v. }
  fold (dict_of_items l) in Hv'. rewrite Hv'. f_equal.
  apply Hfun; [|done]. by apply dict_of_items_elem.
Qed.

End Dict.

Lemma mapM_elem {A B} (f : A -> option B) l k y :
  mapM f l = Some k -> y ∈ k <-> exists x, x ∈ l /\ f x = Some y.
Proof.
  intros HF%mapM_Some_1. induction HF as [|x0 y0 l k HR HF IH].
  - split; [by intros ?%elem_of_nil|]. by intros (?&?%elem_of_nil&_).
  - rewrite elem_of_cons, IH. split.
    + intros [->|(x&?&?)]; [exists x0|exists x];
        (split; [apply elem_of_cons; auto|done]).
    + intros (x&[->|?]%elem_of_cons&E); [left; congruence|right; eauto].
Qed.

Lemma cache_eq (c1 c2 : Cache) :
  files c1 = files c2 -> deleted_files c1 = deleted_files c2 -> c1 = c2.
Proof. destruct c1, c2; simpl; congruence. Qed.

Section LoadSave.
Context {pf : Platform}.
Variables (b : Builder) (c : Cache).
Hypothesis Hroot : Path.rooted_path (repo_path b) = true.
Hypothesis Hkeys : forall k, is_Some (files c !! k) -> Path.inside_path k = true.

Lemma rooted_truthy : Str.truthy (repo_path b) = true.
Proof. by destruct (repo_path b). Qed.

Lemma saved_entry abs_path v :
  (abs_path, v) ∈ doc_files (abs_cache b c)
  <-> exists k, abs_path = Path.join (repo_path b) k
                /\ files c !! k = Some v.
Proof.
  unfold abs_cache. cbn [doc_files].
  rewrite elem_of_map_to_list, dict_of_items_functional.
  - rewrite list_elem_of_fmap. split.
    + intros ([k v']&E&Hin%elem_of_map_to_list). injection E as -> ->.
      by exists k.
    + intros (k&->&Hk). exists (k, v). split; [done|].
      by apply elem_of_map_to_list.
  - intros v1 v2 ([k1 w1]&E1&H1%elem_of_map_to_list)%list_elem_of_fmap
                 ([k2 w2]&E2&H2%elem_of_map_to_list)%list_elem_of_fmap.
    injection E1 as E1 ->. injection E2 as E2 ->.
    assert (k1 = k2) as ->; [|congruence].
    apply (join_inj (repo_path b)); [| |congruence];
      apply inside_path_relative, Hkeys; eauto.
Qed.

Lemma loaded_entry items k v :
  relative_items b (doc_files (abs_cache b c)) = Some items ->
  (k, v) ∈ items <-> files c !! k = Some v.
Proof.
  intros Hm. unfold relative_items in Hm.
  rewrite (mapM_elem _ _ _ _ Hm). split.
  - intros ([a v']&(k'&->&Hk')%saved_entry&E). simpl in E.
    rewrite relpath_join_inside in E by eauto. by injection E as -> ->.
  - intros Hk. exists (Path.join (repo_path b) k, v). split.
    + apply saved_entry. by exists k.
    + simpl. by rewrite relpath_join_inside by eauto.
Qed.

(** Loading what [_save_cache] wrote gives the cache that was saved. *)
Lemma load_save_cache :
  _load_cache b (Some (Document (abs_cache b c))) = c.
Proof.
  unfold _load_cache.
  destruct (relative_items_saved b c rooted_truthy) as [items Hitems].
  rewrite Hitems. apply cache_eq; cbn [files deleted_files].
  - apply map_eq. intros k. apply option_eq. intros v.
    rewrite dict_of_items_functional.
    + by rewrite (loaded_entry items k v Hitems).
    + intros v1 v2 H1%(loaded_entry _ _ _ Hitems)
                   H2%(loaded_entry _ _ _ Hitems). congruence.
  - apply list_to_set_elements_L.
Qed.

End LoadSave.

End RoundTrip.

(** *** The persisted cache document. *)

Module DocumentClaims.
Import PathFacts TrackerFacts SplitFacts IncrementalBuilder RoundTrip Examples.
Local Open Scope Z_scope.

(** The counterexample to C8 as stated: the document saved for a cache
    keyed by [a.py] is keyed by the absolute path [/r/a.py]. *)
Lemma saved_keys_are_absolute :
  files touched_cache !! "a.py" = Some (10, "md5:x")
  /\ repo_path example_builder = "/r"
  /\ doc_files (abs_cache example_builder touched_cache)
     = [("/r/a.py", (10, "md5:x"))]
  /\ Path.isabs "/r/a.py" = true.
Proof. split_and!; by vm_compute. Qed.

Section Documents.
Context {pf : Platform}.

(** C8, as the code has it.  The document [_save_cache] writes holds a
    [files] object keyed by the absolute paths (the repository root joined
    with the relative key), each with its [[mtime, hash]] pair, and a
    [deleted_files] list of the deleted set; loading it gives the saved
    cache back; the name of the cache file is made of the base name of the
    repository. *)
Theorem cache_document_round_trip (b : Builder) (c : Cache)
    (file : option CacheFileContent) :
  Path.rooted_path (repo_path b) = true ->
  (forall k, is_Some (files c !! k) -> Path.inside_path k = true) ->
  let d := abs_cache b c in
  _save_cache b c true file = Some (Document d)
  /\ (forall abs_path v,
        (abs_path, v) ∈ doc_files d
        <-> exists k, abs_path = Path.join (repo_path b) k
                      /\ files c !! k = Some v)
  /\ (forall abs_path v,
        (abs_path, v) ∈ doc_files d -> Path.isabs abs_path = true)
  /\ (exists l, doc_deleted_files d = Some l
                /\ forall x, x ∈ l <-> x ∈ deleted_files c)
  /\ _load_cache b (Some (Document d)) = c
  /\ (forall repo dir,
        cache_file (init repo dir)
        = Path.join dir (Path.basename (Path.abspath repo)
                         +:+ "_file_state.json")).
Proof.
  intros Hroot Hkeys d. split_and!.
  - done.
  - intros. by apply saved_entry.
  - intros abs_path v (k&->&Hk)%saved_entry; [|done..].
    destruct (repo_path b) as [|a s]; [done|]. cbn [Path.rooted_path] in Hroot.
    apply andb_true_iff in Hroot as [->%bool_decide_eq_true Hs].
    unfold Path.sep. rewrite join_rooted by eauto.
    unfold Path.isabs. by rewrite startswith_head.
  - exists (elements (deleted_files c)). split; [done|].
    intros x. apply elem_of_elements.
  - by apply load_save_cache.
  - done.
Qed.

End Documents.

Lemma cache_document_round_trip_witness :
  _load_cache (pf:=example_platform) example_builder
    (Some (Document (abs_cache example_builder touched_cache)))
  = touched_cache.
Proof.
  refine (proj1 (proj2 (proj2 (proj2 (proj2 (cache_document_round_trip
    (pf:=example_platform) example_builder touched_cache None _ _)))))).
  - reflexivity.
  - intros k [v Hv]. unfold touched_cache in Hv. cbn [files] in Hv.
    apply lookup_singleton_Some in Hv as [<- _]. reflexivity.
Defined.

End DocumentClaims.

(** *** The loop of [process_file]. *)

Module WriterFacts.
Import CodeChunker.

Lemma lstrip_all_space s : Str.all_space s = true -> Str.lstrip s = "".
Proof.
  induction s as [|a s IH]; simpl; [done|].
  intros [-> Hs]%andb_true_iff. by apply IH.
Qed.

Lemma lstrip_head s :
  Str.all_space s = false ->
  exists a s', Str.lstrip s = String a s' /\ Str.isspace a = false.
Proof.
  induction s as [|a s IH]; simpl; [done|].
  destruct (Str.isspace a) eqn:Ha; simpl; [apply IH|].
  intros _. by exists a, s.
Qed.

Lemma rstrip_head a s : Str.isspace a = false -> Str.rstrip (String a s) <> "".
Proof. intros Ha. simpl. rewrite Ha. by destruct (Str.rstrip s). Qed.

(** [not chunk_text.strip()] holds exactly for a text of whitespace only. *)
Lemma strip_truthy s : Str.truthy (Str.strip s) = negb (Str.all_space s).
Proof.
  unfold Str.strip. destruct (Str.all_space s) eqn:Hs; simpl.
  - by rewrite lstrip_all_space.
  - destruct (lstrip_head s Hs) as (a&s'&->&Ha).
    pose proof (rstrip_head a s' Ha). by destruct (Str.rstrip _).
Qed.

Section Loop.
Context {pf : Platform}.
Variables (self : CodeChunker) (file_path : string) (code_info : CodeInfo).

Lemma chunk_data_Some i chunk r :
  chunk_data self file_path code_info i chunk = Some r ->
  Str.all_space chunk.1 = false
  /\ rec_chunk_index r = i
  /\ rec_source r = file_path
  /\ rec_type r = default "unknown" (meta_chunk_type chunk.2)
  /\ rec_id r = _generate_uid file_path
                  (filename code_info +:+ ":" +:+ rec_type r +:+ ":"
                   +:+ pretty i).
Proof.
  destruct chunk as [text meta]. unfold chunk_data. cbn [fst snd].
  rewrite strip_truthy, negb_involutive.
  destruct (Str.all_space text); [done|]. simpl.
  intros [= <-]. split_and!; reflexivity.
Qed.

Lemma chunk_data_filename i chunk r :
  chunk_data self file_path code_info i chunk = Some r ->
  rec_filename r = filename code_info.
Proof.
  destruct chunk as [text meta]. unfold chunk_data.
  destruct (negb _); [done|]. by intros [= <-].
Qed.

Lemma chunk_data_None i chunk :
  chunk_data self file_path code_info i chunk = None
  <-> Str.all_space chunk.1 = true.
Proof.
  destruct chunk as [text meta]. unfold chunk_data. cbn [fst snd].
  rewrite strip_truthy, negb_involutive.
  by destruct (Str.all_space text).
Qed.

Lemma enumerate_from_lookup {A} (l : list A) : forall i j x,
  (j, x) ∈ enumerate_from i l <-> (i <= j)%nat /\ l !! (j - i)%nat = Some x.
Proof.
  induction l as [|y l IH]; intros i j x; simpl.
  - rewrite elem_of_nil. split; [done|]. by intros [_ ?].
  - rewrite elem_of_cons, IH. split.
    + intros [[= -> ->]|[Hle Hl]].
      * by rewrite Nat.sub_diag.
      * split; [lia|]. by replace (j - i)%nat with (S (j - S i)) by lia.
    + intros [Hle Hl]. destruct (decide (j = i)) as [->|Hne].
      * rewrite Nat.sub_diag in Hl. left. by injection Hl as ->.
      * right. split; [lia|].
        by replace (j - i)%nat with (S (j - S i)) in Hl by lia.
Qed.

(** The indices of the emitted records: the positions of the non-blank
    chunks in the full list. *)
Lemma chunk_records_indices (code_chunks : list Chunk) : forall i,
  map rec_chunk_index
      (omap (fun ic => chunk_data self file_path code_info ic.1 ic.2)
            (enumerate_from i code_chunks))
  = map fst (filter (fun ic => Str.all_space (ic.2).1 = false)
                    (enumerate_from i code_chunks)).
Proof.
  induction code_chunks as [|c l IH]; intros i; simpl; [done|].
  destruct (chunk_data self file_path code_info i c) as [r|] eqn:E.
  - apply chunk_data_Some in E as (Hs&Hi&_).
    rewrite filter_cons_True by done. simpl. by rewrite IH, Hi.
  - apply chunk_data_None in E.
    rewrite filter_cons_False by (simpl; congruence). apply IH.
Qed.

End Loop.

End WriterFacts.

(** *** Blank chunks and failing files. *)

Module WriterClaims.
Import CodeChunker WriterFacts.

Section Writer.
Context {pf : Platform} {re : Regex} {ts : TreeSitter.Engine}
        {ip : Interpreter} {oc : OtherChunkers}.

(** C9. [process_file] emits a record exactly for the chunks whose text
    has a character that is not whitespace; the index in the identity and
    in [chunk_index] of a record is the position of its chunk in the full
    list the extractor returned, so the indices of three chunks with a
    blank one in the middle are 0 and 2. *)
Theorem blank_chunks_dropped_positions_kept (self : CodeChunker)
    (file_path : string) (code_info : CodeInfo) (code_chunks : list Chunk) :
  let result := chunk_records self file_path code_info code_chunks in
  map rec_chunk_index result
  = map fst (filter (fun ic => Str.all_space (ic.2).1 = false)
                    (enumerate_from 0 code_chunks))
  /\ (forall r, r ∈ result ->
        exists chunk,
          code_chunks !! rec_chunk_index r = Some chunk
          /\ Str.all_space chunk.1 = false
          /\ rec_id r = _generate_uid file_path
               (filename code_info +:+ ":" +:+ rec_type r +:+ ":"
                +:+ pretty (rec_chunk_index r)))
  /\ (forall i chunk, code_chunks !! i = Some chunk ->
        if Str.all_space chunk.1
        then forall r, r ∈ result -> rec_chunk_index r <> i
        else exists r, r ∈ result /\ rec_chunk_index r = i)
  /\ (forall fs records,
        process_file_try self fs file_path = Ok records ->
        exists content chunks,
          fs !! file_path = Some content
          /\ chunk_code_by_language (extract_code_content content)
               (language (extract_code_info content)) = Ok chunks
          /\ process_file self fs file_path = records
          /\ records = chunk_records self file_path
                         (extract_code_info content) chunks)
  /\ map rec_chunk_index
         (chunk_records self file_path code_info Examples.chunks_with_blank)
     = [0; 2]%nat.
Proof.
  intros result. split_and!.
  - apply chunk_records_indices.
  - intros r Hr. unfold result, chunk_records in Hr.
    apply list_elem_of_omap in Hr as ([i chunk]&Hin&Hd). simpl in Hd.
    apply enumerate_from_lookup in Hin as [_ Hl].
    rewrite Nat.sub_0_r in Hl.
    apply chunk_data_Some in Hd as (Hs&Hi&_&_&Hid).
    exists chunk. rewrite Hi. by split_and!.
  - intros i chunk Hl. destruct (Str.all_space chunk.1) eqn:Hs.
    + intros r Hr Hi. unfold result, chunk_records in Hr.
      apply list_elem_of_omap in Hr as ([j chunk']&Hin&Hd). simpl in Hd.
      apply enumerate_from_lookup in Hin as [_ Hl'].
      rewrite Nat.sub_0_r in Hl'.
      apply chunk_data_Some in Hd as (Hs'&Hj&_). subst.
      rewrite Hl in Hl'. injection Hl' as <-. congruence.
    + destruct (chunk_data self file_path code_info i chunk) as [r|] eqn:Hd.
      * exists r. split; [|by apply chunk_data_Some in Hd as (_&?&_)].
        unfold result, chunk_records. apply list_elem_of_omap.
        exists (i, chunk). split; [|done].
        apply enumerate_from_lookup. split; [lia|]. by rewrite Nat.sub_0_r.
      * apply chunk_data_None in Hd. congruence.
  - intros fs records Htry. unfold process_file. rewrite Htry.
    unfold process_file_try in Htry.
    destruct (fs !! file_path) as [content|]; [|done].
    destruct (chunk_code_by_language _ _) as [chunks|e] eqn:Hc; [|done].
    injection Htry as <-. by exists content, chunks.
  - reflexivity.
Qed.

(** C7. A file on which the [try] block of [process_file] raises (the
    file cannot be read, its language has no extractor, the extractor
    raises) gives no chunk, and [process_directory] returns the chunks of
    the files before it followed by those of the files after it. *)
Theorem file_failure_is_contained (self : CodeChunker)
    (walk : list (string * list string)) (fs : gmap string string)
    (before after : list string) (file : string) (e : Exn) :
  md_files walk = before ++ file :: after ->
  process_file_try self fs file = Raise e ->
  process_file self fs file = []
  /\ process_directory self walk fs
     = flat_map (process_file self fs) before
       ++ flat_map (process_file self fs) after
  /\ (forall f, fs !! f = None ->
        process_file_try self fs f = Raise OSError)
  /\ (forall f content,
        fs !! f = Some content ->
        chunkers (language (extract_code_info content)) = None ->
        exists message, process_file_try self fs f = Raise (ValueError message))
  /\ (forall f content e',
        fs !! f = Some content ->
        chunk_code_by_language (extract_code_content content)
          (language (extract_code_info content)) = Raise e' ->
        process_file_try self fs f = Raise e').
Proof.
  intros Hwalk Htry.
  assert (Hnil : process_file self fs file = []).
  { unfold process_file. by rewrite Htry. }
  split_and!.
  - done.
  - unfold process_directory. rewrite Hwalk, flat_map_app. simpl.
    by rewrite Hnil.
  - intros f Hf. unfold process_file_try. by rewrite Hf.
  - intros f content Hf Hlang. unfold process_file_try. rewrite Hf.
    unfold chunk_code_by_language. rewrite Hlang. by eexists.
  - intros f content e' Hf He. unfold process_file_try. by rewrite Hf, He.
Qed.

End Writer.

Import Examples.

Lemma file_failure_is_contained_witness :
  process_directory (pf:=example_platform) (re:=example_regex)
    (ts:=example_engine) (ip:=insertion_order) (oc:=example_others)
    (init curated_dir false None) walk_mixed fs_mixed
  = flat_map (process_file (pf:=example_platform) (re:=example_regex)
       (ts:=example_engine) (ip:=insertion_order) (oc:=example_others)
       (init curated_dir false None) fs_mixed) []
    ++ flat_map (process_file (pf:=example_platform) (re:=example_regex)
       (ts:=example_engine) (ip:=insertion_order) (oc:=example_others)
       (init curated_dir false None) fs_mixed)
       ["artifacts/curated/repo/notes.rb.md"; foo_path].
Proof.
  refine (proj1 (proj2 (file_failure_is_contained (pf:=example_platform)
    (re:=example_regex) (ts:=example_engine) (ip:=insertion_order)
    (oc:=example_others) (init curated_dir false None) walk_mixed fs_mixed
    [] ["artifacts/curated/repo/notes.rb.md"; foo_path]
    "artifacts/curated/repo/gone.md" OSError _ _))).
  - reflexivity.
  - reflexivity.
Defined.

End WriterClaims.

(** *** Two runs of the extractors under two interpreter processes. *)

Module StabilityFacts.
Import CodeChunker WriterFacts TreeSitter Vocabulary.

Lemma list_ind2 {A} (P : list A -> Prop) :
  P [] -> (forall x, P [x]) ->
  (forall x y l, P l -> P (y :: l) -> P (x :: y :: l)) ->
  forall l, P l.
Proof.
  intros H0 H1 H2.
  assert (Hboth : forall l, P l /\ forall x, P (x :: l)).
  { induction l as [|y l [IH1 IH2]]; [by split|].
    split; [apply IH2|]. intros x. apply H2; [done|apply IH2]. }
  intros l. apply Hboth.
Qed.

(** One turn of the loop of [JavaChunker.chunk_code]. *)
Lemma java_walk_step {ts : Engine} {ip : Interpreter} code caps imports
    node node_type name_node label rest2 :
  JavaChunker.walk code caps imports
    ((node, node_type) :: (name_node, label) :: rest2)
  = if bool_decide (node_type = "class") then
      if bool_decide (label = "class_name")
      then JavaChunker.class_chunk node name_node code imports
           :: JavaChunker.walk code caps imports rest2
      else JavaChunker.walk code caps imports ((name_node, label) :: rest2)
    else if bool_decide (node_type = "method") then
      if bool_decide (label = "method_name")
      then JavaChunker.member_chunk "method" node name_node code caps imports
           :: JavaChunker.walk code caps imports rest2
      else JavaChunker.walk code caps imports ((name_node, label) :: rest2)
    else if bool_decide (node_type = "constructor") then
      if bool_decide (label = "constructor_name")
      then JavaChunker.member_chunk "constructor" node name_node code caps
             imports
           :: JavaChunker.walk code caps imports rest2
      else JavaChunker.walk code caps imports ((name_node, label) :: rest2)
    else JavaChunker.walk code caps imports ((name_node, label) :: rest2).
Proof. reflexivity. Qed.

(** One turn of the loop of [JavaScriptChunker.chunk_code]. *)
Lemma javascript_walk_step {ts : Engine} {ip : Interpreter} code caps
    imports node node_type name_node label rest2 :
  let name := _get_node_text name_node code in
  let go := JavaScriptChunker.walk code caps imports in
  let chunk_of kind name parent :=
    JavaScriptChunker.chunk_of kind name parent node code imports in
  JavaScriptChunker.walk code caps imports
    ((node, node_type) :: (name_node, label) :: rest2)
  = if bool_decide (node_type = "function") then
      if bool_decide (label = "function_name")
      then chunk_of "function" name None :: go rest2
      else go ((name_node, label) :: rest2)
    else if bool_decide (node_type = "method") then
      if bool_decide (label = "method_name")
      then chunk_of "method" name
             (JavaChunker.find_parent_class node code caps) :: go rest2
      else go ((name_node, label) :: rest2)
    else if bool_decide (node_type = "class") then
      if bool_decide (label = "class_name")
      then chunk_of "class" name None :: go rest2
      else go ((name_node, label) :: rest2)
    else if bool_decide (node_type = "arrow_function") then
      if bool_decide (label = "param_name")
      then chunk_of "arrow_function" ("arrow_function(" +:+ name +:+ ")")
             None :: go rest2
      else chunk_of "arrow_function" "anonymous_arrow_function" None
           :: go ((name_node, label) :: rest2)
    else go ((name_node, label) :: rest2).
Proof. reflexivity. Qed.

Section TwoRuns.
Context {pf : Platform} {re : Regex} {ts : Engine}.
Variables (ip1 ip2 : Interpreter) (R : relation (list string)).
Hypothesis Hiter :
  forall s, R (set_iter (Interpreter:=ip2) s) (set_iter (Interpreter:=ip1) s).

Lemma collect_references_related q kw n code :
  R (collect_references (ip:=ip2) q kw n code)
    (collect_references (ip:=ip1) q kw n code).
Proof. unfold collect_references. apply Hiter. Qed.

Lemma java_class_chunk_related node name_node code imports :
  same_chunk_modulo R
    (JavaChunker.class_chunk (ip:=ip1) node name_node code imports)
    (JavaChunker.class_chunk (ip:=ip2) node name_node code imports).
Proof.
  unfold JavaChunker.class_chunk, same_chunk_modulo. simpl.
  split; [done|]. eexists _, _. split_and!; [done| |done].
  apply collect_references_related.
Qed.

Lemma java_member_chunk_related kind node name_node code caps imports :
  same_chunk_modulo R
    (JavaChunker.member_chunk (ip:=ip1) kind node name_node code caps imports)
    (JavaChunker.member_chunk (ip:=ip2) kind node name_node code caps imports).
Proof.
  unfold JavaChunker.member_chunk, same_chunk_modulo. simpl.
  split; [done|]. eexists _, _. split_and!; [done| |done].
  apply collect_references_related.
Qed.

Lemma java_walk_related code caps imports rest :
  Forall2 (same_chunk_modulo R)
    (JavaChunker.walk (ip:=ip1) code caps imports rest)
    (JavaChunker.walk (ip:=ip2) code caps imports rest).
Proof.
  induction rest as [|[n l]|[n l] [n' l'] rest IH2 IH1] using list_ind2.
  - constructor.
  - constructor.
  - rewrite !java_walk_step.
    repeat case_bool_decide; try done;
      constructor; auto using java_class_chunk_related,
        java_member_chunk_related.
Qed.

Lemma python_chunk_of_related kind node name_node parent code imports :
  same_chunk_modulo R
    (PythonChunker.chunk_of (ip:=ip1) kind node name_node parent code imports)
    (PythonChunker.chunk_of (ip:=ip2) kind node name_node parent code imports).
Proof.
  unfold PythonChunker.chunk_of, same_chunk_modulo. simpl.
  split; [done|]. eexists _, _. split_and!; [done| |done].
  apply collect_references_related.
Qed.

Lemma Forall2_map_same {A B} (Q : relation B) (f g : A -> B) l :
  (forall x, Q (f x) (g x)) -> Forall2 Q (map f l) (map g l).
Proof. intros H. induction l; constructor; auto. Qed.

Lemma Forall2_flat_map_same {A B} (Q : relation B) (f g : A -> list B) l :
  (forall x, Forall2 Q (f x) (g x)) ->
  Forall2 Q (flat_map f l) (flat_map g l).
Proof.
  intros H. induction l; simpl; [constructor|]. by apply Forall2_app.
Qed.

Lemma python_chunk_code_related code :
  Forall2 (same_chunk_modulo R)
    (PythonChunker.chunk_code (ip:=ip1) code)
    (PythonChunker.chunk_code (ip:=ip2) code).
Proof.
  unfold PythonChunker.chunk_code. repeat apply Forall2_app.
  - apply Forall2_map_same. intros [[? ?] [? ?]].
    apply python_chunk_of_related.
  - apply Forall2_flat_map_same. intros [[? ?] [? ?]].
    destruct (negb _); constructor; [|constructor].
    apply python_chunk_of_related.
  - apply Forall2_map_same. intros [[? ?] [? ?]].
    apply python_chunk_of_related.
Qed.

Lemma java_chunk_code_related code :
  Forall2 (same_chunk_modulo R)
    (JavaChunker.chunk_code (ip:=ip1) code)
    (JavaChunker.chunk_code (ip:=ip2) code).
Proof. apply java_walk_related. Qed.

Lemma javascript_chunk_of_related kind name parent node code imports :
  same_chunk_modulo R
    (JavaScriptChunker.chunk_of (ip:=ip1) kind name parent node code imports)
    (JavaScriptChunker.chunk_of (ip:=ip2) kind name parent node code imports).
Proof.
  unfold JavaScriptChunker.chunk_of, same_chunk_modulo. simpl.
  split; [done|]. eexists _, _. split_and!; [done| |done].
  apply collect_references_related.
Qed.

Lemma javascript_walk_related code caps imports rest :
  Forall2 (same_chunk_modulo R)
    (JavaScriptChunker.walk (ip:=ip1) code caps imports rest)
    (JavaScriptChunker.walk (ip:=ip2) code caps imports rest).
Proof.
  induction rest as [|[n l]|[n l] [n' l'] rest IH2 IH1] using list_ind2.
  - constructor.
  - simpl. case_bool_decide; repeat constructor.
    apply javascript_chunk_of_related.
  - rewrite !javascript_walk_step. cbn zeta.
    repeat case_bool_decide; try done;
      constructor; auto using javascript_chunk_of_related.
Qed.

Lemma javascript_chunk_code_related code :
  Forall2 (same_chunk_modulo R)
    (JavaScriptChunker.chunk_code (ip:=ip1) code)
    (JavaScriptChunker.chunk_code (ip:=ip2) code).
Proof. apply javascript_walk_related. Qed.

Lemma kotlin_chunks_of_capture_related code imports capture :
  Forall2 (same_chunk_modulo R)
    (KotlinChunker.chunks_of_capture (ip:=ip1) code imports capture)
    (KotlinChunker.chunks_of_capture (ip:=ip2) code imports capture).
Proof.
  destruct capture as [node label]. unfold KotlinChunker.chunks_of_capture.
  cbn [_get_node_lines].
  repeat case_bool_decide; [|destruct (enclosing _ _)|];
    repeat constructor; simpl; try done;
    (eexists _, _; split_and!; [done| |done]);
    apply collect_references_related.
Qed.

Lemma kotlin_chunk_code_related code :
  Forall2 (same_chunk_modulo R)
    (KotlinChunker.chunk_code (ip:=ip1) code)
    (KotlinChunker.chunk_code (ip:=ip2) code).
Proof.
  unfold KotlinChunker.chunk_code. apply Forall2_flat_map_same.
  apply kotlin_chunks_of_capture_related.
Qed.

Lemma chunk_data_related self file_path code_info i c1 c2 :
  same_chunk_modulo R c1 c2 ->
  option_Forall2 (same_record_modulo R)
    (chunk_data self file_path code_info i c1)
    (chunk_data self file_path code_info i c2).
Proof.
  destruct c1 as [t1 m1], c2 as [t2 m2].
  intros [Ht (refs1&refs2&H1&HR&Hm)]. simpl in *. subst t2 m2.
  unfold chunk_data. destruct (negb _); constructor.
  exists refs2. split; [by simpl; rewrite H1|]. reflexivity.
Qed.

Lemma chunk_records_related self file_path code_info l1 l2 :
  Forall2 (same_chunk_modulo R) l1 l2 ->
  Forall2 (same_record_modulo R)
    (chunk_records self file_path code_info l1)
    (chunk_records self file_path code_info l2).
Proof.
  unfold chunk_records. generalize 0%nat.
  intros n HF. revert n. induction HF as [|c1 c2 l1 l2 Hc HF IH]; intros n.
  - constructor.
  - simpl.
    destruct (chunk_data_related self file_path code_info n c1 c2 Hc);
      [constructor|]; auto.
Qed.

Lemma same_record_refl self_R (r : ChunkRecord) :
  (forall l, self_R l l) -> same_record_modulo self_R r r.
Proof. intros Hrefl. exists (rec_references r). split; [done|]. by destruct r. Qed.

(** The two runs of [process_file], each with the five extractors of the
    source run by its own interpreter process. *)
Lemma process_file_related self fs file_path :
  Forall2 (same_record_modulo R)
    (process_file (ip:=ip1) (oc:=LanguageChunker.chunkers ip1) self fs
       file_path)
    (process_file (ip:=ip2) (oc:=LanguageChunker.chunkers ip2) self fs
       file_path).
Proof.
  unfold process_file, process_file_try.
  destruct (fs !! file_path) as [content|]; [|constructor].
  unfold chunk_code_by_language.
  destruct (chunkers _) as [[]|]; try constructor.
  - apply chunk_records_related, python_chunk_code_related.
  - apply chunk_records_related, javascript_chunk_code_related.
  - apply chunk_records_related, java_chunk_code_related.
  - apply chunk_records_related, kotlin_chunk_code_related.
Qed.

End TwoRuns.

Lemma same_record_eq (l1 l2 : list ChunkRecord) :
  Forall2 (same_record_modulo eq) l1 l2 -> l1 = l2.
Proof.
  induction 1 as [|r1 r2 l1 l2 (refs&->&->) HF IH]; [done|].
  f_equal; [by destruct r1|done].
Qed.

Lemma same_record_fields (R : relation (list string)) l1 l2 :
  Forall2 (same_record_modulo R) l1 l2 ->
  map rec_id l1 = map rec_id l2
  /\ map rec_imports l1 = map rec_imports l2
  /\ map rec_chunk_index l1 = map rec_chunk_index l2
  /\ map rec_text l1 = map rec_text l2.
Proof.
  induction 1 as [|r1 r2 l1 l2 (refs&_&->) HF (I1&I2&I3&I4)]; [done|].
  simpl. by rewrite I1, I2, I3, I4.
Qed.

End StabilityFacts.

(** *** Stability of identities and records. *)

Module StabilityClaims.
Import CodeChunker WriterFacts TreeSitter Vocabulary StabilityFacts.

(** C3, as the code has it.  Two runs over the same file, each with the
    extractors of the source (Python, JavaScript, Java, Kotlin,
    Objective-C) run by its own interpreter process, give records that are
    equal one by one, identities and imports included, but for the order
    of each list of references, which is the order in which the
    interpreter process visits a set; the identity is the digest of the
    file path and of [filename:chunk_type:index]; when both processes visit
    sets in the same order the records are equal. *)
Theorem extraction_stable_up_to_reference_order
    {pf : Platform} {re : Regex} {ts : Engine}
    (ip1 ip2 : Interpreter) (self : CodeChunker) (fs : gmap string string)
    (file_path : string) :
  let run1 := process_file (ip:=ip1) (oc:=LanguageChunker.chunkers ip1)
                self fs file_path in
  let run2 := process_file (ip:=ip2) (oc:=LanguageChunker.chunkers ip2)
                self fs file_path in
  Forall2 same_record_up_to_order run1 run2
  /\ map rec_id run1 = map rec_id run2
  /\ map rec_imports run1 = map rec_imports run2
  /\ (forall r, r ∈ run1 ->
        rec_source r = file_path
        /\ rec_id r = _generate_uid (rec_source r)
             (rec_filename r +:+ ":" +:+ rec_type r +:+ ":"
              +:+ pretty (rec_chunk_index r)))
  /\ ((forall s, set_iter (Interpreter:=ip2) s = set_iter (Interpreter:=ip1) s)
      -> run1 = run2).
Proof.
  intros run1 run2.
  assert (HF : Forall2 same_record_up_to_order run1 run2).
  { apply process_file_related. intros s. by rewrite !set_iter_perm. }
  destruct (same_record_fields _ _ _ HF) as (Hid&Himp&_).
  split_and!; try done.
  - intros r Hr. unfold run1, process_file in Hr.
    destruct (process_file_try self fs file_path) as [records|e] eqn:Htry;
      [|by apply elem_of_nil in Hr].
    unfold process_file_try in Htry.
    destruct (fs !! file_path) as [content|]; [|done].
    destruct (chunk_code_by_language _ _) as [chunks|e]; [|done].
    injection Htry as <-. unfold chunk_records in Hr.
    apply list_elem_of_omap in Hr as ([i chunk]&_&Hd). simpl in Hd.
    pose proof (chunk_data_filename _ _ _ _ _ _ Hd) as Hf.
    apply chunk_data_Some in Hd as (_&Hi&Hs&_&Hid').
    split; [done|]. by rewrite Hid', Hs, Hi, Hf.
  - intros Heq. apply same_record_eq, process_file_related; done.
Qed.

Import Examples.

(** The counterexample to C3 as stated: two processes that visit a set
    in different orders give different reference lists for [foo.py]. *)
Lemma reference_order_differs_between_processes :
  let run1 := process_file (pf:=example_platform) (re:=example_regex)
                (ts:=example_engine) (ip:=insertion_order)
                (oc:=LanguageChunker.chunkers (ts:=example_engine)
                       (re:=example_regex) insertion_order)
                (init curated_dir false None) fs_py py_path in
  let run2 := process_file (pf:=example_platform) (re:=example_regex)
                (ts:=example_engine) (ip:=reverse_order)
                (oc:=LanguageChunker.chunkers (ts:=example_engine)
                       (re:=example_regex) reverse_order)
                (init curated_dir false None) fs_py py_path in
  map rec_references run1 = [["Foo"; "bar"; "baz"]; ["bar"; "baz"]]
  /\ map rec_references run2 = [["baz"; "bar"; "Foo"]; ["baz"; "bar"]]
  /\ run1 <> run2.
Proof.
  split_and!; [by vm_compute..|].
  intros E. apply (f_equal (map rec_references)) in E.
  vm_compute in E. discriminate E.
Qed.

End StabilityClaims.

(** *** The look-up of the enclosing class. *)

Module ParentFacts.
Import CodeChunker TreeSitter Vocabulary StabilityFacts.









Lemma pairs_elem {A} (a b : A) : forall l,
  (a, b) ∈ PythonChunker.pairs l ->
  exists i, l !! i = Some a /\ l !! S i = Some b.
Proof.
  induction l as [|x|x y l IH2 IH1] using list_ind2;
    [by intros ?%elem_of_nil..|].
  cbn [PythonChunker.pairs]. intros [[= -> ->]|Hin]%elem_of_cons.
  - by exists 0%nat.
  - destruct (IH2 Hin) as (i&?&?). by exists (S (S i)).
Qed.

End ParentFacts.

(** *** Parent resolution. *)

Module ParentClaims.
Import CodeChunker TreeSitter Vocabulary StabilityFacts ParentFacts.

Section ParentClaim.
Context {pf : Platform} {re : Regex} {ts : Engine} {ip : Interpreter}.


End ParentClaim.

Import Examples.

(** The scenario of the specification: [Foo.java] yields the class [Foo]
    without parent and the method [bar] with parent [Foo], both on line 1;
    and its Python counterpart. *)
Example foo_java_chunks :
  map (fun c : Chunk =>
         (meta_chunk_type c.2, meta_name c.2, meta_parent c.2,
          meta_start_line c.2, meta_end_line c.2))
      (JavaChunker.chunk_code (ts:=example_engine) (re:=example_regex)
         (ip:=insertion_order) foo_java)
  = [(Some "class", Some "Foo", None, Some 1, Some 1);
     (Some "method", Some "bar", Some "Foo", Some 1, Some 1)].
Proof. reflexivity. Qed.

Example foo_py_chunks :
  map (fun c : Chunk =>
         (meta_chunk_type c.2, meta_name c.2, meta_parent c.2,
          meta_start_line c.2, meta_end_line c.2))
      (PythonChunker.chunk_code (ts:=example_engine) (ip:=insertion_order)
         foo_py)
  = [(Some "class", Some "Foo", None, Some 1, Some 3);
     (Some "method", Some "bar", Some "Foo", Some 2, Some 3)].
Proof. reflexivity. Qed.


End ParentClaims.

(** *** The incremental save of a run. *)

Module MergeFacts.
Import CodeChunker WriterFacts Vocabulary.

Section Grouping.
Variable keep : string -> bool.

Lemma kept_append_chunk d chunk :
  kept keep (append_chunk d (rec_source chunk) chunk)
  ≡ₚ kept keep d ++ (if keep (rec_source chunk) then [chunk] else []).
Proof.
  unfold kept. induction d as [|[s l] d IH]; simpl.
  - destruct (keep _); by rewrite ?app_nil_r.
  - case_bool_decide as Hs; simpl.
    + subst s. destruct (keep (rec_source chunk)); simpl.
      * rewrite <- !app_assoc. apply Permutation_app_head.
        apply Permutation_app_comm.
      * by rewrite app_nil_r.
    + rewrite IH. by rewrite app_assoc.
Qed.

Lemma kept_load stored :
  Forall (fun r => Str.truthy (rec_source r) = true) stored ->
  kept keep (_load_existing_chunks (Lines stored))
  ≡ₚ filter (fun r => keep (rec_source r) = true) stored.
Proof.
  intros Hsrc. unfold _load_existing_chunks.
  assert (Hgen : forall l d,
    Forall (fun r => Str.truthy (rec_source r) = true) l ->
    kept keep (foldl (fun d chunk =>
                   let source := rec_source chunk in
                   if Str.truthy source then append_chunk d source chunk
                   else d) d l)
    ≡ₚ kept keep d ++ filter (fun r => keep (rec_source r) = true) l).
  { induction l as [|r l IH]; intros d Hl; simpl.
    - by rewrite app_nil_r.
    - inversion Hl as [|?? Hr Hl']; subst. rewrite Hr.
      rewrite IH, kept_append_chunk by done.
      rewrite <- app_assoc. apply Permutation_app_head.
      destruct (keep (rec_source r)) eqn:Hk.
      + by rewrite filter_cons_True.
      + rewrite filter_cons_False by congruence. done. }
  by rewrite Hgen.
Qed.

(** The same without a condition on the store: the records without
    source are dropped when the store is loaded. *)
Lemma kept_load_sourced stored :
  kept keep (_load_existing_chunks (Lines stored))
  ≡ₚ filter (fun r => Str.truthy (rec_source r) = true
                      /\ keep (rec_source r) = true) stored.
Proof.
  unfold _load_existing_chunks.
  assert (Hgen : forall l d,
    kept keep (foldl (fun d chunk =>
                   let source := rec_source chunk in
                   if Str.truthy source then append_chunk d source chunk
                   else d) d l)
    ≡ₚ kept keep d
       ++ filter (fun r => Str.truthy (rec_source r) = true
                           /\ keep (rec_source r) = true) l).
  { induction l as [|r l IH]; intros d; simpl.
    - by rewrite app_nil_r.
    - rewrite IH. destruct (Str.truthy (rec_source r)) eqn:Hr.
      + rewrite kept_append_chunk, <- app_assoc.
        apply Permutation_app_head.
        destruct (keep (rec_source r)) eqn:Hk.
        * by rewrite filter_cons_True.
        * rewrite filter_cons_False; [done|]. intros [_ ?]. congruence.
      + rewrite filter_cons_False; [done|]. intros [? _]. congruence. }
  by rewrite Hgen.
Qed.

End Grouping.

Section Run.
Context {pf : Platform} {re : Regex} {ts : TreeSitter.Engine}
        {ip : Interpreter} {oc : OtherChunkers}.

Lemma process_file_source self fs f r :
  r ∈ process_file self fs f -> rec_source r = f.
Proof.
  unfold process_file, process_file_try.
  destruct (fs !! f) as [content|]; [|by intros ?%elem_of_nil].
  destruct (chunk_code_by_language _ _); [|by intros ?%elem_of_nil].
  unfold chunk_records. intros ([i c]&_&Hd)%list_elem_of_omap.
  by apply chunk_data_Some in Hd as (_&_&?&_).
Qed.

Lemma process_directory_sources self walk fs s :
  (forall f, f ∈ md_files walk -> process_file self fs f <> []) ->
  s ∈ map rec_source (process_directory self walk fs) <-> s ∈ md_files walk.
Proof.
  intros Hall. unfold process_directory.
  rewrite list_elem_of_fmap. split.
  - intros (r&->&Hr). apply list_elem_of_In, in_flat_map in Hr as (f&Hf&Hr).
    apply list_elem_of_In in Hf, Hr.
    by rewrite (process_file_source _ _ _ _ Hr).
  - intros Hs. specialize (Hall s Hs).
    destruct (process_file self fs s) as [|r rs] eqn:Hp; [done|].
    exists r. split.
    + symmetry. apply (process_file_source self fs). rewrite Hp.
      apply elem_of_cons. by left.
    + apply list_elem_of_In, in_flat_map. exists s.
      split; [by apply list_elem_of_In|]. rewrite Hp. by left.
Qed.

Lemma process_directory_source self walk fs r :
  r ∈ process_directory self walk fs -> rec_source r ∈ md_files walk.
Proof.
  unfold process_directory.
  intros (f&Hf&Hr)%list_elem_of_In%in_flat_map.
  apply list_elem_of_In in Hf, Hr.
  by rewrite (process_file_source _ _ _ _ Hr).
Qed.

(** The incremental save of a run: nothing when no file yields a record,
    otherwise the stored records of the sources that yield no record,
    then the fresh records. *)
Lemma run_incremental self stored walk fs :
  incremental self = true ->
  existing_chunks self = _load_existing_chunks (Lines stored) ->
  let fresh := process_directory self walk fs in
  (fresh = [] -> run self walk fs = [])
  /\ (fresh <> [] ->
      run self walk fs
      ≡ₚ filter (fun r => Str.truthy (rec_source r) = true
                          /\ rec_source r ∉ map rec_source fresh) stored
         ++ fresh).
Proof.
  intros Hinc Hex fresh. unfold run, save_jsonl. fold fresh.
  rewrite Hinc, Hex. split.
  - intros ->. reflexivity.
  - intros Hne.
    set (processed := list_to_set (map rec_source fresh) : gset string).
    assert (Hmem : forall s, s ∈ processed <-> s ∈ map rec_source fresh)
      by (intros s; apply elem_of_list_to_set).
    assert (Hnonempty : nonempty_set (Some processed) = true).
    { simpl. apply negb_true_iff, bool_decide_eq_false. intros Hemp.
      destruct fresh as [|r rs] eqn:Hf; [done|].
      assert (rec_source r ∈ processed) as Hr
        by (apply Hmem; simpl; apply elem_of_cons; by left).
      rewrite Hemp in Hr. by apply elem_of_empty in Hr. }
    rewrite Hnonempty. simpl. apply Permutation_app_tail.
    pose proof (kept_load_sourced
                  (fun s => negb (bool_decide (s ∈ processed))) stored) as Hk.
    unfold kept in Hk.
    erewrite flat_map_ext; [rewrite Hk|].
    + erewrite list_filter_iff; [reflexivity|]. intros r.
      rewrite negb_true_iff, bool_decide_eq_false. by rewrite Hmem.
    + intros [s l]. by destruct (bool_decide (s ∈ processed)).
Qed.

(** When every reprocessed file yields a chunk, the incremental save is
    the whole-file replacement. *)
Lemma run_replaces_whole_files self stored walk fs :
  incremental self = true ->
  existing_chunks self = _load_existing_chunks (Lines stored) ->
  Forall (fun r => Str.truthy (rec_source r) = true) stored ->
  md_files walk <> [] ->
  (forall f, f ∈ md_files walk -> process_file self fs f <> []) ->
  run self walk fs
  ≡ₚ whole_file_replacement stored (md_files walk)
       (process_directory self walk fs).
Proof.
  intros Hinc Hex Hsrc Hne Hall.
  unfold run, save_jsonl, whole_file_replacement. rewrite Hinc, Hex.
  set (chunks := process_directory self walk fs).
  set (processed := list_to_set (map rec_source chunks) : gset string).
  assert (Hmem : forall s, s ∈ processed <-> s ∈ md_files walk).
  { intros s. unfold processed. rewrite elem_of_list_to_set.
    by apply process_directory_sources. }
  assert (Hnonempty : nonempty_set (Some processed) = true).
  { simpl. apply negb_true_iff, bool_decide_eq_false. intros Hemp.
    destruct (md_files walk) as [|f fl] eqn:Hmd; [done|].
    assert (f ∈ processed) as Hf by (apply Hmem, elem_of_cons; by left).
    rewrite Hemp in Hf. by apply elem_of_empty in Hf. }
  rewrite Hnonempty. simpl. apply Permutation_app_tail.
  pose proof (kept_load (fun s => negb (bool_decide (s ∈ processed)))
                stored Hsrc) as Hk.
  unfold kept in Hk.
  erewrite flat_map_ext; [rewrite Hk|].
  - erewrite list_filter_iff; [reflexivity|]. intros r.
    rewrite negb_true_iff, bool_decide_eq_false. by rewrite Hmem.
  - intros [s l]. by destruct (bool_decide (s ∈ processed)).
Qed.

End Run.

End MergeFacts.

(** *** The incremental save when a file yields no chunk. *)

Module MergeClaims.
Import CodeChunker Vocabulary MergeFacts Examples.

(** C2 at the failing input.  [A.java] and [Foo.java] are stored with two
    records each; [A.java] loses its class and is reprocessed to no chunk.
    Run over both files, the incremental save writes the two stale records
    of [A.java] before the fresh ones of [Foo.java], where whole-file
    replacement gives the fresh ones only; run over [A.java] alone it
    writes nothing, where whole-file replacement keeps the stored records
    of [Foo.java]. *)
Theorem zero_chunk_file_keeps_stale_records :
  let self := init curated_dir true (Some (Lines store_before)) in
  let run_ := run (pf:=example_platform) (re:=example_regex)
                (ts:=example_engine) (ip:=insertion_order)
                (oc:=example_others) self in
  let fresh := process_directory (pf:=example_platform) (re:=example_regex)
                (ts:=example_engine) (ip:=insertion_order)
                (oc:=example_others) self in
  map rec_source store_before = [a_path; a_path; foo_path; foo_path]
  /\ md_files walk_both = [a_path; foo_path]
  /\ map rec_source (fresh walk_both fs_after) = [foo_path; foo_path]
  /\ run_ walk_both fs_after
     = filter (fun r => rec_source r = a_path) store_before
       ++ fresh walk_both fs_after
  /\ whole_file_replacement store_before (md_files walk_both)
       (fresh walk_both fs_after)
     = fresh walk_both fs_after
  /\ md_files walk_a_only = [a_path]
  /\ fresh walk_a_only fs_after = []
  /\ run_ walk_a_only fs_after = []
  /\ whole_file_replacement store_before (md_files walk_a_only)
       (fresh walk_a_only fs_after)
     = filter (fun r => rec_source r = foo_path) store_before.
Proof. split_and!; by vm_compute. Qed.

End MergeClaims.

(** *** The listing of the code files. *)

Module ListingFacts.
Import PathFacts SplitFacts TrackerFacts IncrementalBuilder Notions Examples.

Lemma prefix_app_r p : forall s t,
  String.prefix p s = true -> String.prefix p (s +:+ t) = true.
Proof.
  induction p as [|a p IH]; intros s t H.
  - by destruct (s +:+ t).
  - destruct s as [|x s]; [done|].
    change (String x s +:+ t) with (String x (s +:+ t)).
    cbn in *. destruct (ascii_dec a x); [by apply IH|done].
Qed.

Lemma prefix_split p : forall s,
  String.prefix p s = true -> exists t, s = p +:+ t.
Proof.
  induction p as [|a p IH]; intros s H.
  - by exists s.
  - destruct s as [|x s]; [done|]. cbn in H.
    destruct (ascii_dec a x) as [->|]; [|done].
    destruct (IH _ H) as [t ->]. by exists t.
Qed.

Lemma contains_str_app_r sub : forall s t,
  Str.contains_str sub s = true -> Str.contains_str sub (s +:+ t) = true.
Proof.
  induction s as [|x s IH]; intros t H.
  - cbn in H. rewrite orb_false_r in H.
    destruct sub; [|done]. by destruct t.
  - cbn [Str.contains_str] in H. apply orb_true_iff in H as [H|H].
    + apply (prefix_app_r _ _ t) in H.
      change (String x s +:+ t) with (String x (s +:+ t)) in *.
      cbn [Str.contains_str]. by rewrite H.
    + change (String x s +:+ t) with (String x (s +:+ t)).
      cbn [Str.contains_str]. rewrite (IH t H). apply orb_true_r.
Qed.

Lemma contains_str_startswith sub root p :
  Str.contains_str sub p = true -> Str.startswith root p = true ->
  Str.contains_str sub root = true.
Proof.
  intros H Hp. apply prefix_split in Hp as [t ->].
  by apply contains_str_app_r.
Qed.

Lemma truthy_join_r a b : Str.truthy b = true -> Str.truthy (Path.join a b) = true.
Proof.
  intros Hb. unfold Path.join.
  destruct (Str.startswith b "/"); [done|].
  destruct b as [|x b]; [done|].
  destruct (negb (Str.truthy a) || Str.endswith_char a Path.sep);
    by destruct a.
Qed.

Lemma splitext_empty : Path.splitext "" = ("", "").
Proof. reflexivity. Qed.

Lemma code_extension_truthy file :
  Str.lower (Path.splitext file).2 ∈ code_extensions -> Str.truthy file = true.
Proof.
  destruct file; [|done]. vm_compute. intros H.
  repeat (apply elem_of_cons in H as [H|H]; [done|]).
  by apply elem_of_nil in H.
Qed.

Section Listing.
Context {pf : Platform}.
Variable b : Builder.

Lemma list_files_spec root files : forall s,
  exists s', foldl (list_file b root) (Some s) files = Some s'
    /\ forall rel, rel ∈ s' <-> rel ∈ s \/ listed_from b root files rel.
Proof.
  induction files as [|f files IH]; intros s; cbn [foldl].
  - exists s. split; [done|]. intros rel. split; [by left|].
    intros [?|(f&Hf&_)]; [done|]. by apply elem_of_nil in Hf.
  - unfold list_file at 2. case_bool_decide as Hext.
    + destruct (relpath_is_Some (Path.join root f) (repo_path b))
        as [r Hr]. { apply truthy_join_r. by eapply code_extension_truthy. }
      rewrite Hr. destruct (IH (s ∪ {[r]})) as (s'&E&Hs'). exists s'.
      split; [done|]. intros rel. rewrite Hs', elem_of_union, elem_of_singleton.
      split.
      * intros [[?| ->]|(f'&?&?&?)]; [by left|right..].
        -- exists f. split_and!; [left|done..].
        -- exists f'. split_and!; [by right|done..].
      * intros [?|(f'&Hf'&He&Hrel)]; [by left; left|].
        apply elem_of_cons in Hf' as [->|Hf'].
        -- left; right. congruence.
        -- right. by exists f'.
    + destruct (IH s) as (s'&E&Hs'). exists s'. split; [done|].
      intros rel. rewrite Hs'. split.
      * intros [?|(f'&?&?&?)]; [by left|right].
        exists f'. split_and!; [by right|done..].
      * intros [?|(f'&Hf'&He&Hrel)]; [by left|].
        apply elem_of_cons in Hf' as [->|Hf']; [done|].
        right. by exists f'.
Qed.

Lemma listing_spec walk : forall s,
  exists s',
    foldl (fun code_files '(root, files) =>
             if Str.contains_str ".git" root
                || Str.contains_str "node_modules" root
             then code_files
             else foldl (list_file b root) code_files files)
          (Some s) walk = Some s'
    /\ forall rel, rel ∈ s' <->
         rel ∈ s \/ exists root files, (root, files) ∈ walk
                      /\ skipped root = false /\ listed_from b root files rel.
Proof.
  induction walk as [|[root files] walk IH]; intros s; cbn [foldl].
  - exists s. split; [done|]. intros rel. split; [by left|].
    intros [?|(?&?&H&_)]; [done|]. by apply elem_of_nil in H.
  - fold (skipped root). destruct (skipped root) eqn:Hskip.
    + destruct (IH s) as (s'&E&Hs'). exists s'. split; [done|].
      intros rel. rewrite Hs'. split.
      * intros [?|(r&fl&?&?&?)]; [by left|right].
        exists r, fl. split_and!; [by right|done..].
      * intros [?|(r&fl&Hin&Hs&Hl)]; [by left|].
        apply elem_of_cons in Hin as [E'|Hin]; [simplify_eq; congruence|].
        right. by exists r, fl.
    + destruct (list_files_spec root files s) as (s1&E1&Hs1). rewrite E1.
      destruct (IH s1) as (s'&E&Hs'). exists s'. split; [done|].
      intros rel. rewrite Hs', Hs1. split.
      * intros [[?|?]|(r&fl&?&?&?)]; [by left|right..].
        -- exists root, files. split_and!; [left|done..].
        -- exists r, fl. split_and!; [by right|done..].
      * intros [?|(r&fl&Hin&Hs&Hl)]; [by left; left|].
        apply elem_of_cons in Hin as [E'|Hin].
        -- simplify_eq. by left; right.
        -- right. by exists r, fl.
Qed.

Lemma listing_total walk :
  exists s, _get_all_code_files b walk = Some s
    /\ forall rel, rel ∈ s <->
         exists root files, (root, files) ∈ walk
           /\ skipped root = false /\ listed_from b root files rel.
Proof.
  destruct (listing_spec walk ∅) as (s&E&Hs). exists s. split; [done|].
  intros rel. rewrite Hs. split; [|by right].
  intros [H|H]; [|done]. by apply elem_of_empty in H.
Qed.

Lemma split_no_sep c s : Str.contains c s = false -> Str.split c s = [s].
Proof.
  induction s as [|a s IH]; [done|]. cbn. intros H.
  apply orb_false_iff in H as [Ha Hs]. rewrite Ha, (IH Hs). done.
Qed.

Lemma code_file_inside file :
  Str.lower (Path.splitext file).2 ∈ code_extensions ->
  Str.contains Path.sep file = false -> Path.inside_path file = true.
Proof.
  intros Hext Hsep. unfold Path.inside_path. rewrite split_no_sep by done.
  cbn. rewrite andb_true_r. unfold Path.is_component.
  rewrite (code_extension_truthy _ Hext). cbn.
  apply andb_true_iff; split; apply negb_true_iff, bool_decide_eq_false;
    intros ->; vm_compute in Hext;
    repeat (apply elem_of_cons in Hext as [Hext|Hext]; [done|]);
    by apply elem_of_nil in Hext.
Qed.

Lemma join_join_inside s d file :
  Path.inside_path s = true -> Path.inside_path d = true ->
  Path.inside_path file = true ->
  Path.join (Path.join (String "/" s) d) file
  = Path.join (String "/" s) (d +:+ String Path.sep file).
Proof.
  intros Hs Hd Hf. rewrite (join_rooted s d) by done.
  rewrite (join_rooted (s +:+ String Path.sep d) file)
    by (by try apply inside_path_app).
  rewrite (join_rooted s (d +:+ String Path.sep file))
    by (by try apply inside_path_app).
  f_equal. by rewrite app_assoc_string.
Qed.

(** In a walk of the repository a listed path is the path of its file
    from the repository root. *)
Lemma listed_inside root files rel :
  Path.rooted_path (repo_path b) = true ->
  (root = repo_path b
   \/ exists d, Path.inside_path d = true /\ root = Path.join (repo_path b) d) ->
  Forall (fun file => Str.contains Path.sep file = false) files ->
  listed_from b root files rel ->
  Path.inside_path rel = true
  /\ exists file, file ∈ files
       /\ Path.join root file = Path.join (repo_path b) rel.
Proof.
  intros Hroot Hr Hfiles (file&Hin&Hext&Hrel).
  rewrite Forall_forall in Hfiles.
  pose proof (code_file_inside file Hext (Hfiles _ Hin)) as Hf.
  destruct Hr as [->|(d&Hd&->)].
  - rewrite relpath_join_inside in Hrel by done. injection Hrel as <-.
    split; [done|]. by exists file.
  - destruct (repo_path b) as [|a s] eqn:Eb; [done|]. cbn in Hroot.
    apply andb_true_iff in Hroot as [Ha Hs]. apply bool_decide_eq_true in Ha.
    subst a. unfold Path.sep in *.
    rewrite join_join_inside in Hrel by done.
    rewrite <- Eb in Hrel.
    rewrite relpath_join_inside in Hrel.
    + injection Hrel as <-. split; [by apply inside_path_app|]. exists file.
      split; [done|]. by apply join_join_inside.
    + rewrite Eb. cbn. by rewrite Hs.
    + by apply inside_path_app.
Qed.

Lemma listing_inside walk :
  Path.rooted_path (repo_path b) = true ->
  walk_of_repo b walk ->
  exists s, _get_all_code_files b walk = Some s
    /\ forall rel, rel ∈ s ->
         Path.inside_path rel = true
         /\ exists root files file, (root, files) ∈ walk /\ file ∈ files
              /\ Path.join root file = Path.join (repo_path b) rel.
Proof.
  intros Hroot Hwalk. destruct (listing_total walk) as (s&E&Hs).
  exists s. split; [done|].
  intros rel (root&files&Hin&_&Hl)%Hs.
  unfold walk_of_repo in Hwalk. rewrite Forall_forall in Hwalk.
  destruct (Hwalk _ Hin) as [Hr Hf].
  destruct (listed_inside root files rel Hroot Hr Hf Hl) as (?&file&?&?).
  split; [done|]. by exists root, files, file.
Qed.

End Listing.

End ListingFacts.

(** *** A scan, the update of the cache and the next scan. *)

Module CycleFacts.
Import TrackerClaims PathFacts SplitFacts TrackerFacts RoundTrip IncrementalBuilder Notions.
Local Open Scope Z_scope.

Section Scan.
Context {pf : Platform}.
Variables (b : Builder) (cache : Cache) (fs : FileSystem).

Lemma scan_file_new st rel x :
  x ∈ new_files (scan_file b cache fs st rel)
  <-> x ∈ new_files st
      \/ (x = rel
          /\ is_Some (_get_file_info fs (Path.join (repo_path b) rel))
          /\ files cache !! rel = None).
Proof.
  unfold scan_file.
  destruct (_get_file_info fs (Path.join (repo_path b) rel)) as [[m h]|];
    [destruct (files cache !! rel) as [[cm ch]|] eqn:Hc|]; cbn.
  - destruct (bool_decide (m > cm) || negb (bool_decide (h = ch))); cbn;
      (split; [by left|]); by intros [?|(_&_&?)].
  - rewrite elem_of_app, list_elem_of_singleton. split.
    + intros [?|?]; [by left|right]. by split_and!.
    + intros [?|(?&_)]; [by left|by right].
  - split; [by left|]. intros [?|(_&[? ?]&_)]; done.
Qed.

Lemma scan_new l : forall st x,
  x ∈ new_files (foldl (scan_file b cache fs) st l)
  <-> x ∈ new_files st
      \/ (x ∈ l
          /\ is_Some (_get_file_info fs (Path.join (repo_path b) x))
          /\ files cache !! x = None).
Proof.
  induction l as [|rel l IH]; intros st x; cbn [foldl].
  - split; [by left|]. intros [?|(H&_)]; [done|]. by apply elem_of_nil in H.
  - rewrite IH, scan_file_new. split.
    + intros [[?|(->&?)]|(?&?)]; [by left|right..].
      * split; [left|done].
      * split; [by right|done].
    + intros [?|(Hin&?)]; [by left; left|].
      apply elem_of_cons in Hin as [->|?]; [left; right|right]; done.
Qed.

Lemma report_new_iff current rel :
  rel ∈ report_new (classify_changes b cache current fs)
  <-> rel ∈ current
      /\ is_Some (_get_file_info fs (Path.join (repo_path b) rel))
      /\ files cache !! rel = None.
Proof.
  unfold classify_changes. cbn [report_new]. rewrite scan_new.
  rewrite elem_of_elements. split; [|by right].
  intros [H|?]; [|done]. by apply elem_of_nil in H.
Qed.

(** The first loop reads the cache through its [files] mapping only. *)
Lemma scan_files_only cache' l : forall st,
  files cache' = files cache ->
  foldl (scan_file b cache' fs) st l = foldl (scan_file b cache fs) st l.
Proof.
  induction l as [|rel l IH]; intros st E; cbn [foldl]; [done|].
  rewrite IH by done. f_equal. unfold scan_file. by rewrite E.
Qed.

Lemma classify_files_only cache' current :
  files cache' = files cache ->
  let r' := classify_changes b cache' current fs in
  let r := classify_changes b cache current fs in
  changed r' = changed r /\ report_new r' = report_new r
  /\ report_modified r' = report_modified r.
Proof.
  intros E. unfold classify_changes. cbn.
  by rewrite (scan_files_only cache' _ _ E).
Qed.

(** A path of the processed set that cannot be read leaves the state of
    its key as it was; a path that can be read sets it. *)
Lemma updated_cache_miss k : forall ps c,
  Forall (fun p => Path.relpath p (repo_path b) = Some k ->
                   _get_file_info fs p = None) ps ->
  files (foldl (update_file b fs) c ps) !! k = files c !! k.
Proof.
  induction ps as [|p ps IH]; intros c Hps; cbn [foldl]; [done|].
  apply Forall_cons in Hps as [Hp Hps]. rewrite IH by done.
  unfold update_file.
  destruct (Path.relpath p (repo_path b)) as [rel|] eqn:Hr; [|done].
  destruct (_get_file_info fs p) as [info|] eqn:Hi; [|done].
  cbn. destruct (decide (rel = k)) as [->|Hne].
  - by specialize (Hp eq_refl).
  - by rewrite lookup_insert_ne.
Qed.

Lemma updated_cache_hit k i : forall ps c,
  (exists p, p ∈ ps /\ Path.relpath p (repo_path b) = Some k
             /\ _get_file_info fs p = Some i) ->
  Forall (fun p => Path.relpath p (repo_path b) = Some k ->
                   _get_file_info fs p = Some i
                   \/ _get_file_info fs p = None) ps ->
  files (foldl (update_file b fs) c ps) !! k = Some i.
Proof.
  induction ps as [|p ps IH] using rev_ind; intros c (p0&Hin&Hr0&Hi0) Hall.
  - by apply elem_of_nil in Hin.
  - rewrite foldl_app. cbn [foldl]. apply Forall_app in Hall as [Hall Hp].
    apply Forall_cons in Hp as [Hp _]. unfold update_file at 1.
    destruct (Path.relpath p (repo_path b)) as [rel|] eqn:Hr.
    + destruct (_get_file_info fs p) as [info|] eqn:Hi.
      * cbn. destruct (decide (rel = k)) as [->|Hne].
        -- rewrite lookup_insert_eq. destruct (Hp eq_refl); congruence.
        -- rewrite lookup_insert_ne by done. apply IH; [|done].
           exists p0. split; [|done].
           apply elem_of_app in Hin as [?|E%list_elem_of_singleton];
             [done|subst; congruence].
      * apply IH; [|done]. exists p0. split; [|done].
        apply elem_of_app in Hin as [?|E%list_elem_of_singleton];
             [done|subst; congruence].
    + apply IH; [|done]. exists p0. split; [|done].
      apply elem_of_app in Hin as [?|E%list_elem_of_singleton];
             [done|subst; congruence].
Qed.

End Scan.

Section Cycle.
Context {pf : Platform}.
Variables (b : Builder) (fs : FileSystem) (current : gset string).
Hypothesis Hroot : Path.rooted_path (repo_path b) = true.
Hypothesis Hcur : forall rel, rel ∈ current -> Path.inside_path rel = true.

Lemma changed_shape c p :
  p ∈ changed (classify_changes b c current fs) ->
  exists rel, rel ∈ current /\ p = Path.join (repo_path b) rel
              /\ Path.relpath p (repo_path b) = Some rel.
Proof.
  intros (rel&Hin&->&_)%changed_iff. exists rel. split_and!; [done..|].
  apply relpath_join_inside; eauto.
Qed.

Lemma changed_relpath c p rel :
  p ∈ changed (classify_changes b c current fs) ->
  Path.relpath p (repo_path b) = Some rel ->
  rel ∈ current /\ p = Path.join (repo_path b) rel.
Proof.
  intros (rel'&Hin&->&Hr)%changed_shape Hrel. by simplify_eq.
Qed.

Section AfterUpdate.
Variable c : Cache.
Hypothesis Hkeys : keys_inside c.

Let r := classify_changes b c current fs.
Let c1 := updated_cache b fs (saved_cache r) (changed r).

Lemma updated_untouched k :
  Path.join (repo_path b) k ∉ changed r -> files c1 !! k = files c !! k.
Proof.
  intros Hk. unfold c1, updated_cache. rewrite updated_cache_miss; [done|].
  apply Forall_forall. intros p Hp%elem_of_elements Hrel.
  destruct (changed_relpath _ _ _ Hp Hrel) as [_ ->]. done.
Qed.

Lemma updated_processed rel i :
  Path.join (repo_path b) rel ∈ changed r -> rel ∈ current ->
  _get_file_info fs (Path.join (repo_path b) rel) = Some i ->
  files c1 !! rel = Some i.
Proof.
  intros Hp Hin Hi. unfold c1, updated_cache. apply updated_cache_hit.
  - exists (Path.join (repo_path b) rel). split_and!; [|by apply relpath_join_inside; eauto|done].
    by apply elem_of_elements.
  - apply Forall_forall. intros p' Hp'%elem_of_elements Hrel.
    destruct (changed_relpath _ _ _ Hp' Hrel) as [_ ->]. by left.
Qed.

Lemma updated_keys k :
  is_Some (files c1 !! k) -> k ∈ current \/ is_Some (files c !! k).
Proof.
  intros Hk.
  destruct (decide (files c1 !! k = files (saved_cache r) !! k)) as [E|NE].
  - right. by rewrite E in Hk.
  - left. unfold c1, updated_cache in NE.
    apply updated_cache_writes in NE as (a&info&Ha%elem_of_elements&Hrel&_).
    by destruct (changed_relpath _ _ _ Ha Hrel).
Qed.

Lemma updated_keys_inside : keys_inside c1.
Proof.
  intros k [?|?]%updated_keys; [by apply Hcur|by apply Hkeys].
Qed.

Lemma updated_reprocessed rel :
  rel ∈ current ->
  is_reprocessed b c1 fs rel
  <-> _get_file_info fs (Path.join (repo_path b) rel) = None.
Proof.
  intros Hin. split; [|by left].
  destruct (_get_file_info fs (Path.join (repo_path b) rel))
    as [[m h]|] eqn:Hi; [|done].
  intros Hre. exfalso.
  destruct (decide (Path.join (repo_path b) rel ∈ changed r)) as [Hp|Hp].
  - pose proof (updated_processed rel (m, h) Hp Hin Hi) as Hc1.
    destruct Hre as [Hre|[Hre|(m'&h'&cm&ch&E1&E2&Hne)]];
      [congruence..|].
    rewrite Hi in E1. rewrite Hc1 in E2. simplify_eq. destruct Hne; [lia|done].
  - pose proof (updated_untouched rel Hp) as Hc1. apply Hp.
    apply changed_iff. exists rel. split_and!; [done..|].
    destruct Hre as [Hre|[Hre|(m'&h'&cm&ch&E1&E2&Hne)]].
    + by left.
    + right; left. by rewrite <- Hc1.
    + right; right. exists m', h', cm, ch. by rewrite <- Hc1.
Qed.

Lemma updated_deleted k :
  is_Some (files c1 !! k) -> k ∉ current -> k ∈ deleted_files c1.
Proof.
  intros Hk Hn. unfold c1, updated_cache. rewrite updated_cache_deleted.
  unfold r, classify_changes. cbn [saved_cache deleted_files].
  destruct (decide (k ∈ deleted_files c)) as [?|Hd]; [set_solver|].
  apply elem_of_union. right. apply elem_of_list_to_set.
  apply (report_deleted_iff b c fs current k). split_and!; [|done..].
  apply updated_keys in Hk as [?|?]; done.
Qed.

(** The scan of the same files against the updated cache. *)
Lemma rescan :
  let r3 := classify_changes b c1 current fs in
  (forall p, p ∈ changed r3 <->
     exists rel, rel ∈ current /\ p = Path.join (repo_path b) rel
                 /\ _get_file_info fs p = None)
  /\ report_new r3 = [] /\ report_modified r3 = []
  /\ report_deleted r3 = [].
Proof.
  intros r3. split_and!.
  - intros p. unfold r3. rewrite changed_iff. split.
    + intros (rel&Hin&->&Hre). exists rel. split_and!; [done..|].
      by apply updated_reprocessed.
    + intros (rel&Hin&->&Hi). exists rel. split_and!; [done..|].
      by apply updated_reprocessed.
  - apply elem_of_nil_inv. intros rel (Hin&[i Hi]&Hnone)%report_new_iff.
    assert (is_reprocessed b c1 fs rel) as Hre by (right; by left).
    apply updated_reprocessed in Hre; [congruence|done].
  - apply elem_of_nil_inv. intros rel (Hin&Hmod)%report_modified_iff.
    assert (is_reprocessed b c1 fs rel) as Hre by (right; by right).
    apply updated_reprocessed in Hre; [|done].
    destruct Hmod as (?&?&?&?&?&_). congruence.
  - apply elem_of_nil_inv. intros rel (Hk&Hn&Hd)%report_deleted_iff.
    by apply Hd, updated_deleted.
Qed.

End AfterUpdate.

(** The same through the cache file: a scan, the update with the set it
    returned, and a second scan. *)
Lemma rescan_file file :
  keys_inside (_load_cache b file) ->
  let out := get_changed_files b current fs true file in
  let file2 := update_cache b (changed out.1) fs true out.2 in
  let r3 := (get_changed_files b current fs true file2).1 in
  (forall p, p ∈ changed r3 <->
     exists rel, rel ∈ current /\ p = Path.join (repo_path b) rel
                 /\ _get_file_info fs p = None)
  /\ report_new r3 = [] /\ report_modified r3 = []
  /\ report_deleted r3 = [].
Proof.
  intros Hkeys out file2 r3.
  unfold r3, file2, out, get_changed_files, update_cache, _save_cache.
  cbn [fst snd].
  rewrite (load_save_cache b (saved_cache _)) by done.
  rewrite (load_save_cache b (updated_cache _ _ _ _));
    [by apply rescan|done|by apply updated_keys_inside].
Qed.

End Cycle.

End CycleFacts.

(** *** Further properties of the tracker. *)

Module TrackerProperties.
Import PathFacts SplitFacts TrackerFacts RoundTrip ListingFacts CycleFacts IncrementalBuilder Notions Examples.
Local Open Scope Z_scope.

Section Tracker.
Context {pf : Platform}.

(** X1. [_get_all_code_files] never raises: the [relpath] of a file with a
    listed extension is defined.  The set it returns holds exactly the
    relative paths of the files with a listed extension (compared in lower
    case) of the directories whose path contains neither [.git] nor
    [node_modules], and none of them is an absolute path. *)
Theorem code_listing_is_relative (b : Builder)
    (walk : list (string * list string)) :
  exists s, _get_all_code_files b walk = Some s
    /\ (forall rel, rel ∈ s <->
          exists root files, (root, files) ∈ walk
            /\ skipped root = false /\ listed_from b root files rel)
    /\ (forall rel, rel ∈ s -> Path.isabs rel = false).
Proof.
  destruct (listing_total b walk) as (s&E&Hs). exists s.
  split_and!; [done..|].
  intros rel (root&files&_&_&file&_&_&Hrel)%Hs.
  by apply relpath_is_relative in Hrel.
Qed.

(** X2. On a walk of the repository (the root or directories under it,
    file names without separator) of a repository whose root is a
    normalised absolute path, every listed path is a path inside the
    repository, made of plain components, and joining it to the root gives
    back the path of a file of the walk. *)
Theorem code_listing_inside_repository (b : Builder)
    (walk : list (string * list string)) :
  Path.rooted_path (repo_path b) = true ->
  walk_of_repo b walk ->
  exists s, _get_all_code_files b walk = Some s
    /\ forall rel, rel ∈ s ->
         Path.inside_path rel = true
         /\ exists root files file, (root, files) ∈ walk /\ file ∈ files
              /\ Path.join root file = Path.join (repo_path b) rel.
Proof. apply listing_inside. Qed.

(** X3. The test [.git in root] looks at the whole path of a directory:
    when the path of the repository itself contains [.git] or
    [node_modules], every directory of its walk is passed over and no file
    is listed. *)
Theorem repository_path_with_git_lists_nothing (b : Builder)
    (walk : list (string * list string)) :
  skipped (repo_path b) = true ->
  Forall (fun rf => Str.startswith rf.1 (repo_path b) = true) walk ->
  _get_all_code_files b walk = Some ∅.
Proof.
  intros Hskip. unfold _get_all_code_files. generalize (Some (∅ : gset string)).
  induction walk as [|[root files] walk IH]; intros acc Hwalk; [done|].
  apply Forall_cons in Hwalk as [Hr Hwalk]. cbn [foldl fst] in *.
  assert (skipped root = true) as Hs.
  { unfold skipped in *. apply orb_true_iff in Hskip as [H|H];
      apply orb_true_iff; [left|right];
      by apply (contains_str_startswith _ _ (repo_path b)). }
  unfold skipped in Hs. rewrite Hs. by apply IH.
Qed.

(** X4. When the cache file gives the empty cache (it is missing, or the
    [try] of [_load_cache] fails), [get_changed_files] returns the absolute
    path of every listed file: a full rebuild.  The readable ones are
    reported as new, none as modified or deleted. *)
Theorem empty_cache_gives_full_rebuild (b : Builder) (current : gset string)
    (fs : FileSystem) (writable : bool) (file : option CacheFileContent) :
  _load_cache b file = empty_cache ->
  let r := (get_changed_files b current fs writable file).1 in
  (forall p, p ∈ changed r <->
     exists rel, rel ∈ current /\ p = Path.join (repo_path b) rel)
  /\ (forall rel, rel ∈ report_new r <->
        rel ∈ current /\ is_Some (fs !! Path.join (repo_path b) rel))
  /\ report_modified r = [] /\ report_deleted r = [].
Proof.
  intros Hload r. unfold r, get_changed_files. cbn [fst]. rewrite Hload.
  split_and!.
  - intros p. rewrite changed_iff. split.
    + intros (rel&?&?&_). by exists rel.
    + intros (rel&?&?). exists rel. split_and!; [done..|]. right; by left.
  - intros rel. rewrite report_new_iff. unfold _get_file_info.
    split.
    + intros (?&[i Hi]&_). split; [done|].
      by destruct (fs !! Path.join (repo_path b) rel).
    + intros (?&[[m c] Hi]). rewrite Hi. by split_and!.
  - apply elem_of_nil_inv. intros rel (_&(?&?&?&?&_&Hc&_))%report_modified_iff.
    done.
  - apply elem_of_nil_inv. intros rel ([? Hc]&_)%report_deleted_iff. done.
Qed.

(** X5. A listed file that cannot be read (its [stat] or its [open]
    raises) goes through the [except] branch: its absolute path is in the
    returned set, and it is reported neither as new nor as modified,
    whatever the cache holds for it. *)
Theorem unreadable_file_is_returned_unreported (b : Builder) (cache : Cache)
    (current : gset string) (fs : FileSystem) (rel : string) :
  rel ∈ current ->
  fs !! Path.join (repo_path b) rel = None ->
  let r := classify_changes b cache current fs in
  Path.join (repo_path b) rel ∈ changed r
  /\ (rel ∉ report_new r) /\ (rel ∉ report_modified r).
Proof.
  intros Hin Hfs r.
  assert (_get_file_info fs (Path.join (repo_path b) rel) = None) as Hi
    by (unfold _get_file_info; by rewrite Hfs).
  split_and!.
  - apply changed_iff. exists rel. split_and!; [done..|]. by left.
  - intros (_&[? ?]&_)%report_new_iff. congruence.
  - intros (_&(?&?&?&?&?&_))%report_modified_iff. congruence.
Qed.

(** X6. A build cycle reaches a fixed point.  [get_changed_files], then
    [update_cache] with the set it returned, then [get_changed_files] again
    on the same files: the second scan returns only the listed files that
    cannot be read, and reports nothing as new, modified or deleted.  The
    repository root is a normalised absolute path, the paths of the cache
    and of the listing are paths inside the repository, and the cache file
    can be written. *)
Theorem scan_update_rescan_reports_nothing (b : Builder)
    (current : gset string) (fs : FileSystem)
    (file : option CacheFileContent) :
  Path.rooted_path (repo_path b) = true ->
  keys_inside (_load_cache b file) ->
  (forall rel, rel ∈ current -> Path.inside_path rel = true) ->
  let out := get_changed_files b current fs true file in
  let file2 := update_cache b (changed out.1) fs true out.2 in
  let r3 := (get_changed_files b current fs true file2).1 in
  (forall p, p ∈ changed r3 <->
     exists rel, rel ∈ current /\ p = Path.join (repo_path b) rel
                 /\ _get_file_info fs p = None)
  /\ report_new r3 = [] /\ report_modified r3 = []
  /\ report_deleted r3 = [].
Proof. intros Hroot Hkeys Hcur. by apply rescan_file. Qed.

End Tracker.

Lemma code_listing_inside_repository_witness :
  exists s, _get_all_code_files (pf:=example_platform) example_builder
              [("/r", ["a.py"; "notes.txt"]); ("/r/src", ["K.KT"])] = Some s
    /\ forall rel, rel ∈ s ->
         Path.inside_path rel = true
         /\ exists root files file,
              (root, files) ∈ [("/r", ["a.py"; "notes.txt"]);
                               ("/r/src", ["K.KT"])]
              /\ file ∈ files
              /\ Path.join root file = Path.join (repo_path example_builder) rel.
Proof.
  apply (code_listing_inside_repository (pf:=example_platform)).
  - reflexivity.
  - unfold walk_of_repo. repeat apply Forall_cons_2; try apply Forall_nil_2.
    + split; [by left|]. by repeat constructor.
    + split; [right; by exists "src"|]. by repeat constructor.
Defined.

Lemma repository_path_with_git_lists_nothing_witness :
  _get_all_code_files (pf:=example_platform)
    (init (pf:=example_platform) "/home/u/site.github.io" ".build_cache")
    [("/home/u/site.github.io", ["index.js"]);
     ("/home/u/site.github.io/src", ["app.py"])] = Some ∅.
Proof.
  apply (repository_path_with_git_lists_nothing (pf:=example_platform)).
  - reflexivity.
  - by repeat constructor.
Defined.

Lemma empty_cache_gives_full_rebuild_witness :
  report_modified (get_changed_files (pf:=example_platform) example_builder
                     {[ "a.py" ]} touched_fs true (Some Unreadable)).1 = [].
Proof.
  refine (proj1 (proj2 (proj2 (empty_cache_gives_full_rebuild
    (pf:=example_platform) example_builder {[ "a.py" ]} touched_fs true
    (Some Unreadable) _)))).
  reflexivity.
Defined.

Lemma unreadable_file_is_returned_unreported_witness :
  "/r/b.py" ∈ changed (classify_changes (pf:=example_platform)
                         example_builder touched_cache {[ "b.py" ]} touched_fs).
Proof.
  refine (proj1 (unreadable_file_is_returned_unreported
    (pf:=example_platform) example_builder touched_cache {[ "b.py" ]}
    touched_fs "b.py" _ _)).
  - by apply elem_of_singleton.
  - reflexivity.
Defined.

Lemma scan_update_rescan_reports_nothing_witness :
  report_new
    (get_changed_files (pf:=example_platform) example_builder {[ "a.py" ]}
       touched_fs true
       (update_cache (pf:=example_platform) example_builder
          (changed (get_changed_files (pf:=example_platform) example_builder
                      {[ "a.py" ]} touched_fs true None).1)
          touched_fs true
          (get_changed_files (pf:=example_platform) example_builder
             {[ "a.py" ]} touched_fs true None).2)).1 = [].
Proof.
  refine (proj1 (proj2 (scan_update_rescan_reports_nothing
    (pf:=example_platform) example_builder {[ "a.py" ]} touched_fs None
    _ _ _))).
  - reflexivity.
  - intros k [v Hv]. done.
  - intros rel ->%elem_of_singleton. reflexivity.
Defined.

End TrackerProperties.

(** *** The steps of [process_local_repository]. *)

Module PipelineFacts.
Import PathFacts SplitFacts TrackerFacts RoundTrip ListingFacts CycleFacts IncrementalBuilder LocalRepoProcess Notions Examples.

Lemma length_substring_le s : forall n m,
  String.length (String.substring n m s) <= m.
Proof.
  induction s as [|a s IH]; intros [|n] [|m]; cbn; try lia.
  - specialize (IH 0 m). lia.
  - apply IH.
  - apply IH.
Qed.

Lemma prefix_substring s : forall m,
  String.prefix (String.substring 0 m s) s = true.
Proof.
  induction s as [|a s IH]; intros [|m]; cbn; try done.
  destruct (ascii_dec a a); [apply IH|done].
Qed.

Lemma last_elem {A} (l : list A) d : l <> [] -> List.last l d ∈ l.
Proof.
  induction l as [|x l IH]; [done|]. intros _.
  destruct l as [|y l]; [left|]. right. by apply IH.
Qed.

Lemma last_split_contains c s :
  Str.contains c (List.last (Str.split c s) "") = false.
Proof. apply (split_contains c s), last_elem, split_nonempty. Qed.

Section Pipeline.
Context {pf : Platform}.
Variables (repo model : string) (w : World) (file : option CacheFileContent).

Let b := builder repo.

(** An incremental run, from the listing and the scan on. *)
Lemma incremental_skip s :
  _get_all_code_files b (walk w) = Some s ->
  changed (get_changed_files b s (fs_scan w) (writable_scan w) file).1 = ∅ ->
  process_local_repository repo model true w file
  = {| returned := Some true;
       cache_after :=
         (get_changed_files b s (fs_scan w) (writable_scan w) file).2;
       commands := [] |}.
Proof.
  intros Hs Hc. unfold b, builder in *.
  unfold process_local_repository. rewrite Hs.
  unfold get_changed_files in *. cbn [fst snd] in *. rewrite Hc.
  by rewrite bool_decide_eq_true_2.
Qed.

Lemma incremental_cache_after s :
  _get_all_code_files b (walk w) = Some s ->
  let out := get_changed_files b s (fs_scan w) (writable_scan w) file in
  let o := process_local_repository repo model true w file in
  (returned o = Some false -> cache_after o = out.2)
  /\ (returned o = Some true -> changed out.1 <> ∅ ->
      cache_after o = update_cache b (changed out.1) (fs_update w)
                        (writable_update w) out.2).
Proof.
  intros Hs out o. unfold b, builder in *.
  unfold o, process_local_repository. rewrite Hs.
  unfold out, get_changed_files. cbn [fst snd andb].
  case_bool_decide as Hc; [by split|].
  destruct (curate_ok w), (curated_exists w), (chunk_ok w), (chunks_file w),
    (vectorize_ok w); cbn; by split.
Qed.

Lemma full_cache_after :
  cache_after (process_local_repository repo model false w file) = file.
Proof.
  unfold process_local_repository. cbn [andb].
  destruct (curate_ok w), (curated_exists w), (chunk_ok w), (chunks_file w),
    (vectorize_ok w); by cbn.
Qed.

End Pipeline.

End PipelineFacts.

(** *** Properties of the pipeline. *)

Module PipelineProperties.
Import PathFacts SplitFacts TrackerFacts RoundTrip ListingFacts CycleFacts PipelineFacts IncrementalBuilder LocalRepoProcess Notions Examples.

Section Pipeline.
Context {pf : Platform}.

(** X7. A run of [process_local_repository] that returns [False] (a
    command failed, or the curated directory or the chunks file is
    missing) leaves the recorded state of every file as it was: the next
    scan finds the same files changed, new and modified as a scan of
    the cache file the run started from.  The repository root is a
    normalised absolute path and the cached paths are inside it. *)
Theorem failed_run_keeps_file_states (repo model : string)
    (incremental : bool) (w : World) (file : option CacheFileContent) :
  let b := builder repo in
  Path.rooted_path (repo_path b) = true ->
  keys_inside (_load_cache b file) ->
  let o := process_local_repository repo model incremental w file in
  returned o = Some false ->
  files (_load_cache b (cache_after o)) = files (_load_cache b file)
  /\ forall current fs writable,
       let before := (get_changed_files b current fs writable file).1 in
       let after :=
         (get_changed_files b current fs writable (cache_after o)).1 in
       changed after = changed before
       /\ report_new after = report_new before
       /\ report_modified after = report_modified before.
Proof.
  intros b Hroot Hkeys o Hret.
  assert (files (_load_cache b (cache_after o))
          = files (_load_cache b file)) as Hfiles.
  { destruct incremental.
    - destruct (listing_total b (walk w)) as (s&Hs&_).
      destruct (incremental_cache_after repo model w file s Hs) as [Hf _].
      fold o in Hf. rewrite (Hf Hret).
      unfold get_changed_files, _save_cache. cbn [snd].
      destruct (writable_scan w); [|done].
      by rewrite load_save_cache.
    - unfold o. by rewrite full_cache_after. }
  split; [done|]. intros current fs writable.
  unfold get_changed_files. cbn [fst]. by apply classify_files_only.
Qed.

(** X8. After an incremental run that returned [True], a second
    incremental run on the same repository finds no changed file and
    returns [True] without running any command.  The repository root is a
    normalised absolute path, the walk is one of the repository, the cached
    paths are inside it, the cache file can be written, every listed file
    can be read, and the files are the same at the scan and at the
    update. *)
Theorem processed_repository_is_skipped_next_run (repo model : string)
    (w : World) (file : option CacheFileContent) :
  let b := builder repo in
  Path.rooted_path (repo_path b) = true ->
  walk_of_repo b (walk w) ->
  keys_inside (_load_cache b file) ->
  writable_scan w = true -> writable_update w = true ->
  fs_update w = fs_scan w ->
  (forall s rel, _get_all_code_files b (walk w) = Some s -> rel ∈ s ->
     is_Some (fs_scan w !! Path.join (repo_path b) rel)) ->
  let o1 := process_local_repository repo model true w file in
  returned o1 = Some true ->
  let o2 := process_local_repository repo model true w (cache_after o1) in
  returned o2 = Some true /\ commands o2 = [].
Proof.
  intros b Hroot Hwalk Hkeys Hw1 Hw2 Hfs Hread o1 Hret o2.
  destruct (listing_inside b (walk w) Hroot Hwalk) as (s&Hs&Hin).
  assert (forall rel, rel ∈ s -> Path.inside_path rel = true) as Hcur
    by (intros rel Hrel; by destruct (Hin rel Hrel)).
  pose proof (rescan_file b (fs_scan w) s Hroot Hcur file Hkeys) as Hre.
  cbn zeta in Hre. destruct Hre as (Hre&_).
  set (out := get_changed_files b s (fs_scan w) true file) in *.
  assert (changed (get_changed_files b s (fs_scan w) (writable_scan w)
                     (cache_after o1)).1 = ∅) as Hnone.
  { rewrite Hw1. destruct (decide (changed out.1 = ∅)) as [He|Hne].
    - unfold o1. rewrite (incremental_skip repo model w file s Hs)
        by (by rewrite Hw1). cbn [cache_after]. rewrite Hw1. change (builder repo) with b.
      unfold get_changed_files at 1 2, _save_cache. cbn [fst snd].
      rewrite load_save_cache by done.
      rewrite <- He. unfold out, get_changed_files. cbn [fst].
      by apply classify_files_only.
    - destruct (incremental_cache_after repo model w file s Hs) as [_ Hc].
      rewrite Hw1, Hw2, Hfs in Hc. change (builder repo) with b in Hc.
      fold out o1 in Hc.
      rewrite (Hc Hret Hne). apply elem_of_equiv_empty_L.
      intros p (rel&Hrel&->&Hi)%Hre.
      destruct (Hread s rel Hs Hrel) as [[m c] Hx].
      unfold _get_file_info in Hi. by rewrite Hx in Hi. }
  unfold o2. by rewrite (incremental_skip repo model w _ s Hs Hnone).
Qed.

End Pipeline.

(** X9. The collection name printed at the end of a run has at most 63
    characters and is a prefix of [code_<repo>_code_chunks_ast_<model>],
    where [<model>] is what follows the last slash of the model name and
    holds no slash. *)
Theorem collection_name_is_bounded (repo_name model : string) :
  (String.length (collection_name repo_name model) <= 63)%nat
  /\ Str.startswith
       ("code_" +:+ repo_name +:+ "_code_chunks_ast_" +:+ model_short model)
       (collection_name repo_name model) = true
  /\ Str.contains "/" (model_short model) = false.
Proof.
  unfold collection_name.
  set (full := "code_" +:+ repo_name +:+ "_code_chunks_ast_"
               +:+ model_short model).
  split_and!.
  - destruct (63 <? String.length full)%nat eqn:E.
    + apply length_substring_le.
    + by apply Nat.ltb_ge in E.
  - destruct (63 <? String.length full)%nat.
    + apply prefix_substring.
    + unfold Str.startswith. apply String.prefix_correct.
      clear. induction full as [|a s IH]; [done|]. cbn. by rewrite IH.
  - unfold model_short. destruct (Str.contains "/" model) eqn:E; [|done].
    apply last_split_contains.
Qed.

Lemma failed_run_keeps_file_states_witness :
  files (_load_cache (pf:=example_platform) (builder (pf:=example_platform) "/r")
           (cache_after
              (process_local_repository (pf:=example_platform) "/r"
                 "all-MiniLM-L6-v2" true failing_world None)))
  = files (_load_cache (pf:=example_platform)
             (builder (pf:=example_platform) "/r") None).
Proof.
  refine (proj1 (failed_run_keeps_file_states (pf:=example_platform) "/r"
    "all-MiniLM-L6-v2" true failing_world None _ _ _)).
  - reflexivity.
  - intros k [v Hv]. done.
  - reflexivity.
Defined.

Lemma processed_repository_is_skipped_next_run_witness :
  returned
    (process_local_repository (pf:=example_platform) "/r" "all-MiniLM-L6-v2"
       true example_world
       (cache_after
          (process_local_repository (pf:=example_platform) "/r"
             "all-MiniLM-L6-v2" true example_world None))) = Some true
  /\ commands
       (process_local_repository (pf:=example_platform) "/r"
          "all-MiniLM-L6-v2" true example_world
          (cache_after
             (process_local_repository (pf:=example_platform) "/r"
                "all-MiniLM-L6-v2" true example_world None))) = [].
Proof.
  refine (processed_repository_is_skipped_next_run (pf:=example_platform)
    "/r" "all-MiniLM-L6-v2" example_world None _ _ _ _ _ _ _ _).
  - reflexivity.
  - apply Forall_cons_2; [|apply Forall_nil_2].
    split; [by left|]. by repeat constructor.
  - intros k [v Hv]. done.
  - reflexivity.
  - reflexivity.
  - reflexivity.
  - intros s rel Hs Hrel.
    assert (_get_all_code_files (pf:=example_platform)
              (builder (pf:=example_platform) "/r") (walk example_world)
            = Some {[ "a.py" ]}) as Hl by reflexivity.
    rewrite Hl in Hs. injection Hs as <-.
    apply elem_of_singleton in Hrel as ->. by eexists.
  - reflexivity.
Defined.

End PipelineProperties.

(** *** The grouping of the chunk store and the identities. *)

Module StoreFacts.
Import CodeChunker WriterFacts MergeFacts Vocabulary.

(** [append_chunk] on a dict whose keys are distinct. *)
Lemma append_chunk_keys d source chunk :
  map fst (append_chunk d source chunk)
  = if bool_decide (source ∈ map fst d) then map fst d
    else map fst d ++ [source].
Proof.
  induction d as [|[s l] d IH]; [done|]. cbn [append_chunk map fst].
  destruct (decide (s = source)) as [->|Hs].
  - rewrite !bool_decide_eq_true_2; [done|left|done].
  - rewrite (bool_decide_eq_false_2 (s = source)) by done.
    cbn [map fst]. rewrite IH. destruct (decide (source ∈ map fst d)) as [Hin|Hin].
    + rewrite !bool_decide_eq_true_2; [done|by right|done].
    + rewrite !bool_decide_eq_false_2; [done| |done].
      intros [?|?]%elem_of_cons; [by subst|done].
Qed.

Lemma append_chunk_NoDup d source chunk :
  NoDup (map fst d) -> NoDup (map fst (append_chunk d source chunk)).
Proof.
  intros Hd. rewrite append_chunk_keys. case_bool_decide as Hin; [done|].
  apply NoDup_app. split_and!; [done| |apply NoDup_singleton].
  intros x Hx ->%list_elem_of_singleton. done.
Qed.

Lemma append_chunk_elem d source chunk s l :
  NoDup (map fst d) ->
  (s, l) ∈ append_chunk d source chunk
  <-> (s <> source /\ (s, l) ∈ d)
      \/ (s = source
          /\ ((exists l0, (source, l0) ∈ d /\ l = l0 ++ [chunk])
              \/ ((source ∉ map fst d) /\ l = [chunk]))).
Proof.
  induction d as [|[s0 l0] d IH]; intros Hd.
  - cbn. rewrite list_elem_of_singleton. split.
    + intros [= -> ->]. right. split; [done|]. right. split; [|done].
      apply not_elem_of_nil.
    + intros [[_ H]|[-> [(?&H&_)|[_ ->]]]]; [by apply elem_of_nil in H..|done].
  - cbn [map fst] in Hd. apply NoDup_cons in Hd as [Hs0 Hd].
    cbn [append_chunk]. case_bool_decide as Hs.
    + subst s0. rewrite !elem_of_cons. split.
      * intros [[= -> ->]|Hin].
        -- right. split; [done|]. left. exists l0. split; [left|done].
        -- left. split; [|by right]. intros ->. apply Hs0.
           apply list_elem_of_fmap. by exists (source, l).
      * intros [[Hne [[= ? ?]|Hin]]|[-> [(l1&Hin&->)|[Hn _]]]].
        -- done.
        -- by right.
        -- apply elem_of_cons in Hin as [[= ->]|Hin]; [by left|].
           destruct Hs0. apply list_elem_of_fmap. by exists (source, l1).
        -- destruct Hn. cbn. left.
    + rewrite !elem_of_cons, (IH Hd). cbn [map fst]. split.
      * intros [[= -> ->]|[[Hne Hin]|[-> [(l1&Hin&->)|[Hn ->]]]]].
        -- left. split; [done|by left].
        -- left. split; [done|by right].
        -- right. split; [done|]. left. exists l1. split; [by right|done].
        -- right. split; [done|]. right. split; [|done].
           intros [?|?]%elem_of_cons; [by subst|done].
      * intros [[Hne [[= -> ->]|Hin]]|[-> [(l1&Hin&->)|[Hn ->]]]].
        -- by left.
        -- right. left. done.
        -- apply elem_of_cons in Hin as [[= ? ?]|Hin]; [by subst|].
           right. right. split; [done|]. left. by exists l1.
        -- right. right. split; [done|]. right. split; [|done].
           intros ?. apply Hn. by right.
Qed.

(** The dict after the loop of [_load_existing_chunks] over [records]. *)
Lemma load_groups records :
  let d := _load_existing_chunks (Lines records) in
  NoDup (map fst d)
  /\ forall s l, (s, l) ∈ d <->
       Str.truthy s = true /\ l <> []
       /\ l = filter (fun r => rec_source r = s) records.
Proof.
  cbn zeta. unfold _load_existing_chunks.
  induction records as [|r pre IH] using rev_ind.
  - cbn. split; [constructor|]. intros s l. split.
    + by intros ?%elem_of_nil.
    + by intros (_&?&->).
  - rewrite foldl_app. cbn [foldl].
    destruct IH as [Hnd IH].
    set (d := foldl _ [] pre) in *.
    destruct (Str.truthy (rec_source r)) eqn:Hsrc.
    + split; [by apply append_chunk_NoDup|]. intros s l.
      rewrite (append_chunk_elem d _ _ _ _ Hnd), filter_app.
      destruct (decide (rec_source r = s)) as [E|NE].
      * rewrite filter_cons_True, filter_nil by done. subst s. split.
        -- intros [[? _]|[_ [(l0&Hin&->)|[Hn ->]]]]; [done| |].
           ++ apply IH in Hin as (_&_&<-). split_and!; [done| |done].
              by destruct l0.
           ++ split_and!; [done..|].
              destruct (filter _ pre) as [|x fl] eqn:Ef; [done|].
              destruct Hn. apply list_elem_of_fmap.
              exists (rec_source r, x :: fl). split; [done|].
              apply IH. by rewrite Ef.
        -- intros (_&_&->). right. split; [done|].
           destruct (filter _ pre) as [|x fl] eqn:Ef.
           ++ right. split; [|done].
              intros ([s0 l0]&E&Hin)%list_elem_of_fmap. cbn in E. subst s0.
              apply IH in Hin as (_&?&->). by rewrite Ef in *.
           ++ left. exists (x :: fl). split; [|done].
              apply IH. by rewrite Ef.
      * rewrite filter_cons_False, filter_nil, app_nil_r by done. split.
        -- intros [[_ Hin]|[-> _]]; [by apply IH|done].
        -- intros H. left. split; [done|]. by apply IH.
    + split; [done|]. intros s l. rewrite IH, filter_app.
      destruct (decide (rec_source r = s)) as [E|NE].
      * subst s. rewrite Hsrc. split; by intros (?&_).
      * by rewrite filter_cons_False, filter_nil, app_nil_r by done.
Qed.

(** The decimal numeral of an index holds no colon. *)
Lemma contains_app c a b :
  Str.contains c (a +:+ b) = Str.contains c a || Str.contains c b.
Proof.
  induction a as [|x a IH]; [done|].
  change (String x a +:+ b) with (String x (a +:+ b)). cbn.
  by rewrite IH, orb_assoc.
Qed.

Lemma pretty_N_char_digit x : pretty_N_char x <> ":"%char.
Proof. unfold pretty_N_char. by repeat case_match. Qed.

Lemma pretty_N_go_no_colon x : forall s,
  Str.contains ":" s = false -> Str.contains ":" (pretty_N_go x s) = false.
Proof.
  induction (N.lt_wf_0 x) as [x _ IH]; intros s Hs.
  destruct (decide (x = 0)%N) as [->|Hx]; [by rewrite pretty_N_go_0|].
  rewrite pretty_N_go_step by lia. apply IH.
  - apply N.div_lt; lia.
  - cbn. rewrite Hs, orb_false_r. apply bool_decide_eq_false.
    apply pretty_N_char_digit.
Qed.

Lemma pretty_nat_no_colon (n : nat) : Str.contains ":" (pretty n) = false.
Proof.
  unfold pretty, pretty_nat, pretty, pretty_N.
  destruct (decide _); [done|]. by apply pretty_N_go_no_colon.
Qed.

(** What follows the last colon of a text. *)
Lemma last_colon_inj u1 : forall u2 v1 v2,
  Str.contains ":" v1 = false -> Str.contains ":" v2 = false ->
  u1 +:+ String ":" v1 = u2 +:+ String ":" v2 -> v1 = v2.
Proof.
  induction u1 as [|a u1 IH]; intros [|c u2] v1 v2 H1 H2 E.
  - by injection E.
  - injection E as <- ->. rewrite contains_app in H1. cbn in H1.
    by rewrite orb_true_r in H1.
  - injection E as -> <-. rewrite contains_app in H2. cbn in H2.
    by rewrite orb_true_r in H2.
  - injection E as _ E. by apply (IH u2).
Qed.

Lemma NoDup_fmap_eq {A B C} `{EqDecision C} (f : A -> B) (g : A -> C) (l : list A) :
  (forall x y, x ∈ l -> y ∈ l -> f x = f y -> g x = g y) ->
  NoDup (map g l) -> NoDup (map f l).
Proof.
  intros Hfg. induction l as [|x l IH]; intros Hg; [constructor|].
  cbn in *. apply NoDup_cons in Hg as [Hx Hg]. apply NoDup_cons. split.
  - intros (y&E&Hy)%list_elem_of_fmap. apply Hx.
    apply list_elem_of_fmap. exists y. split; [|done].
    apply Hfg; [left|by right|done].
  - apply IH; [|done]. intros ????. apply Hfg; by right.
Qed.

Lemma enumerate_from_indices {A} (P : nat * A -> Prop)
    `{forall x, Decision (P x)} (l : list A) : forall i,
  NoDup (map fst (filter P (enumerate_from i l)))
  /\ Forall (fun j => i <= j) (map fst (filter P (enumerate_from i l))).
Proof.
  induction l as [|x l IH]; intros i; cbn [enumerate_from].
  - split; constructor.
  - destruct (IH (S i)) as [Hnd Hle].
    assert (Forall (fun j => i <= j)
              (map fst (filter P (enumerate_from (S i) l)))) as Hle'
      by (eapply Forall_impl; [done|]; cbn; lia).
    destruct (decide (P (i, x))) as [Hp|Hp].
    + rewrite filter_cons_True by done. cbn. split.
      * apply NoDup_cons. split; [|done]. intros Hin.
        rewrite Forall_forall in Hle. specialize (Hle i Hin). lia.
      * by constructor.
    + by rewrite filter_cons_False by done.
Qed.

Section Records.
Context {pf : Platform} {re : Regex} {ts : TreeSitter.Engine}
        {ip : Interpreter} {oc : OtherChunkers}.

Lemma chunk_data_fields self file_path code_info i chunk r :
  chunk_data self file_path code_info i chunk = Some r ->
  rec_repository r = repo_name self /\ rec_code_type r = rec_type r
  /\ rec_filename r = filename code_info
  /\ rec_filepath r = filepath code_info
  /\ rec_language r = language code_info.
Proof.
  destruct chunk as [text meta]. unfold chunk_data.
  destruct (negb _); [done|]. by intros [= <-].
Qed.

(** What [process_file] returns when it returns a record. *)
Lemma process_file_records self fs f r :
  r ∈ process_file self fs f ->
  exists content chunks i chunk,
    fs !! f = Some content
    /\ process_file self fs f
       = chunk_records self f (extract_code_info content) chunks
    /\ chunk_data self f (extract_code_info content) i chunk = Some r.
Proof.
  unfold process_file, process_file_try.
  destruct (fs !! f) as [content|]; [|by intros ?%elem_of_nil].
  destruct (chunk_code_by_language _ _) as [chunks|]; [|by intros ?%elem_of_nil].
  unfold chunk_records. intros ([i c]&_&Hd)%list_elem_of_omap.
  by exists content, chunks, i, c.
Qed.

Lemma md_files_elem walk f :
  f ∈ md_files walk <->
  exists root files file, (root, files) ∈ walk /\ file ∈ files
    /\ Str.endswith file ".md" = true /\ f = Path.join root file
    /\ Path.basename f <> "_repo_metadata.md".
Proof.
  unfold md_files. rewrite list_elem_of_In, in_flat_map. split.
  - intros ([root files]&Hin&Hf). apply in_flat_map in Hf as (file&Hfile&Hf).
    destruct (Str.endswith file ".md") eqn:He; [|done].
    case_bool_decide as Hb; [done|]. destruct Hf as [<-|[]].
    apply list_elem_of_In in Hin, Hfile. by exists root, files, file.
  - intros (root&files&file&Hin&Hfile&He&->&Hb).
    exists (root, files). split; [by apply list_elem_of_In|].
    apply in_flat_map. exists file. split; [by apply list_elem_of_In|].
    rewrite He, bool_decide_eq_false_2 by done. by left.
Qed.

End Records.

End StoreFacts.

(** *** Properties of the chunk store. *)

Module StoreProperties.
Import CodeChunker WriterFacts MergeFacts StoreFacts Vocabulary Notions Examples.

(** X10. [_load_existing_chunks] groups the records of the store by their
    [source]: the keys of the dict are pairwise distinct, a source has an
    entry exactly when it is a non-empty string that some record carries,
    and its entry holds the records of that source in the order of the
    file.  Records without source are dropped, and a store that cannot be
    read gives the empty dict. *)
Theorem existing_chunks_grouped_by_source (records : list ChunkRecord) :
  let d := _load_existing_chunks (Lines records) in
  NoDup (map fst d)
  /\ (forall s l, (s, l) ∈ d <->
        Str.truthy s = true /\ l <> []
        /\ l = filter (fun r => rec_source r = s) records)
  /\ _load_existing_chunks Malformed = [].
Proof.
  intros d. destruct (load_groups records) as [Hnd Hd]. by split_and!.
Qed.

Section Run.
Context {pf : Platform} {re : Regex} {ts : TreeSitter.Engine}
        {ip : Interpreter} {oc : OtherChunkers}.

(** X11. What an incremental run writes, the store being the records
    [stored] and [fresh] the records the run extracts, all of which have
    a curated file of the walk as source.  When the run extracts no
    record, in particular when the walk holds no curated file, it writes
    nothing and the stored records are lost.  Otherwise it writes, up to
    the order of the lines, the stored records that have a source and
    whose source is not the source of a fresh record, followed by the
    fresh records: the records of a file that yields a record are
    replaced as a whole, those of the other files are kept, and stored
    records without source are dropped. *)
Theorem incremental_run_replaces_whole_files (self : CodeChunker)
    (stored : list ChunkRecord) (walk : list (string * list string))
    (fs : gmap string string) :
  incremental self = true ->
  existing_chunks self = _load_existing_chunks (Lines stored) ->
  let fresh := process_directory self walk fs in
  (forall r, r ∈ fresh -> rec_source r ∈ md_files walk)
  /\ (fresh = [] -> run self walk fs = [])
  /\ (fresh <> [] ->
      run self walk fs
      ≡ₚ filter (fun r => Str.truthy (rec_source r) = true
                          /\ rec_source r ∉ map rec_source fresh) stored
         ++ fresh).
Proof.
  intros Hinc Hex fresh. split.
  - intros r. apply process_directory_source.
  - by apply run_incremental.
Qed.

(** X12. Every record [process_directory] returns comes from a readable
    [.md] file of the walk other than [_repo_metadata.md]: its [source] is
    the path of that file, its file name, file path and language are those
    found in the header of the file, the language is one of the keys of
    [chunkers], its repository is the name of the input directory, and
    [code_type] repeats [type]. *)
Theorem records_come_from_curated_files (self : CodeChunker)
    (walk : list (string * list string)) (fs : gmap string string) :
  Forall (fun r =>
            (exists root files file, (root, files) ∈ walk /\ file ∈ files
               /\ Str.endswith file ".md" = true
               /\ rec_source r = Path.join root file)
            /\ Path.basename (rec_source r) <> "_repo_metadata.md"
            /\ (exists content, fs !! rec_source r = Some content
                  /\ rec_filename r = filename (extract_code_info content)
                  /\ rec_filepath r = filepath (extract_code_info content)
                  /\ rec_language r = language (extract_code_info content))
            /\ is_Some (chunkers (rec_language r))
            /\ rec_repository r = repo_name self
            /\ rec_code_type r = rec_type r)
         (process_directory self walk fs).
Proof.
  apply Forall_forall. intros r Hr. unfold process_directory in Hr.
  apply list_elem_of_In, in_flat_map in Hr as (f&Hf&Hr).
  apply list_elem_of_In in Hf, Hr.
  pose proof (process_file_source _ _ _ _ Hr) as Hsrc. rewrite Hsrc.
  apply md_files_elem in Hf as (root&files&file&?&?&?&Ef&?).
  destruct (process_file_records _ _ _ _ Hr) as (content&chunks&i&c&Hc&_&Hd).
  apply chunk_data_fields in Hd as (?&?&?&?&Hl).
  split_and!; try done.
  - by exists root, files, file.
  - by exists content.
  - rewrite Hl. unfold process_file, process_file_try in Hr.
    rewrite Hc in Hr. unfold chunk_code_by_language in Hr.
    destruct (chunkers _); [done|]. by apply elem_of_nil in Hr.
Qed.

(** X13. The identity of a record is the MD5 digest of the text
    [source:filename:type:index], and within the records of one file these
    texts are pairwise distinct: two records of a file can share an
    identity only through a collision of MD5. *)
Theorem identities_distinct_within_file (self : CodeChunker)
    (fs : gmap string string) (f : string) :
  let records := process_file self fs f in
  Forall (fun r => rec_id r = md5_hexdigest (uid_text r)) records
  /\ NoDup (map uid_text records).
Proof.
  intros records.
  assert (forall r, r ∈ records ->
            exists content i chunk,
              chunk_data self f (extract_code_info content) i chunk = Some r)
    as Hrec.
  { intros r Hr. destruct (process_file_records _ _ _ _ Hr)
      as (content&chunks&i&c&_&_&Hd). by exists content, i, c. }
  split.
  - apply Forall_forall. intros r (content&i&c&Hd)%Hrec.
    pose proof (chunk_data_filename _ _ _ _ _ _ Hd) as Hfn.
    apply chunk_data_Some in Hd as (_&Hi&Hs&_&Hid).
    rewrite Hid. unfold _generate_uid, uid_text. by rewrite Hs, Hfn, Hi.
  - apply (NoDup_fmap_eq _ rec_chunk_index).
    + intros r1 r2 Hr1 Hr2 E. unfold uid_text in E.
      rewrite (process_file_source _ _ _ _ Hr1) in E.
      rewrite (process_file_source _ _ _ _ Hr2) in E.
      do 2 apply String.app_inj in E.
      assert (rec_filename r1 = rec_filename r2) as Hfn.
      { unfold records, process_file, process_file_try in Hr1, Hr2.
        destruct (fs !! f) as [content|]; [|by apply elem_of_nil in Hr1].
        destruct (chunk_code_by_language _ _);
          [|by apply elem_of_nil in Hr1].
        unfold chunk_records in Hr1, Hr2.
        apply list_elem_of_omap in Hr1 as ([i1 c1]&_&H1).
        apply list_elem_of_omap in Hr2 as ([i2 c2]&_&H2).
        apply chunk_data_filename in H1, H2. congruence. }
      rewrite Hfn in E. do 2 apply String.app_inj in E.
      change (?a +:+ ":" +:+ ?b) with (a +:+ String ":" b) in E.
      apply last_colon_inj in E; [|apply pretty_nat_no_colon..].
      by apply (inj pretty) in E.
    + unfold records, process_file, process_file_try.
      destruct (fs !! f) as [content|]; [|constructor].
      destruct (chunk_code_by_language _ _); [|constructor].
      unfold chunk_records. rewrite chunk_records_indices.
      apply enumerate_from_indices.
Qed.

End Run.

Lemma incremental_run_replaces_whole_files_witness :
  let self := CodeChunker.init curated_dir true (Some (Lines store_before)) in
  let fresh := process_directory (pf:=example_platform) (re:=example_regex)
                 (ts:=example_engine) (ip:=insertion_order)
                 (oc:=example_others) self walk_a_only fs_before in
  run (pf:=example_platform) (re:=example_regex) (ts:=example_engine)
      (ip:=insertion_order) (oc:=example_others) self walk_a_only fs_before
  ≡ₚ filter (fun r => Str.truthy (rec_source r) = true
                      /\ rec_source r ∉ map rec_source fresh) store_before
     ++ fresh.
Proof.
  intros self fresh.
  destruct (incremental_run_replaces_whole_files (pf:=example_platform)
              (re:=example_regex) (ts:=example_engine) (ip:=insertion_order)
              (oc:=example_others) self store_before walk_a_only fs_before
              eq_refl eq_refl) as (_&_&Hrun).
  apply Hrun. by vm_compute.
Defined.

End StoreProperties.

(** *** References and declarations of the extractors. *)

Module ExtractorProperties.
Import CodeChunker TreeSitter Vocabulary Notions StabilityFacts Examples.

Lemma pyset_add_elem s x y : y ∈ PySet.add s x <-> y ∈ s \/ y = x.
Proof.
  unfold PySet.add. case_bool_decide as Hin.
  - split; [by left|]. by intros [?| ->].
  - by rewrite elem_of_app, list_elem_of_singleton.
Qed.

Lemma pyset_add_NoDup s x : NoDup s -> NoDup (PySet.add s x).
Proof.
  intros Hs. unfold PySet.add. case_bool_decide as Hin; [done|].
  apply NoDup_app. split_and!; [done| |apply NoDup_singleton].
  by intros y Hy ->%list_elem_of_singleton.
Qed.

Section References.
Context {ts : Engine} {ip : Interpreter}.

(** The set the loop of [extract_references] builds. *)
Lemma references_loop (keywords : list string) code caps : forall refs,
  NoDup refs ->
  let refs' :=
    foldl (fun refs (capture : Capture) =>
             let identifier := _get_node_text capture.1 code in
             if Str.truthy identifier
                && negb (bool_decide (identifier ∈ keywords))
             then PySet.add refs identifier else refs)
          refs caps in
  NoDup refs'
  /\ forall x, x ∈ refs' <->
       x ∈ refs
       \/ ((exists cap, cap ∈ caps /\ _get_node_text cap.1 code = x)
           /\ x <> "" /\ x ∉ keywords).
Proof.
  induction caps as [|cap caps IH]; intros refs Hnd; cbn [foldl].
  - split; [done|]. intros x. split; [by left|].
    intros [?|[(?&?%elem_of_nil&_) _]]; done.
  - set (identifier := _get_node_text cap.1 code).
    destruct (Str.truthy identifier
              && negb (bool_decide (identifier ∈ keywords))) eqn:Ht.
    + apply andb_true_iff in Ht as [Ht Hk].
      apply negb_true_iff, bool_decide_eq_false in Hk.
      destruct (IH (PySet.add refs identifier)) as [Hnd' Hx];
        [by apply pyset_add_NoDup|].
      split; [done|]. intros x. rewrite Hx, pyset_add_elem. split.
      * intros [[?| ->]|[(c&?&?) ?]]; [by left|right..].
        -- split_and!; [|by destruct identifier|done].
           exists cap. split; [left|done].
        -- split; [|done]. exists c. split; [by right|done].
      * intros [?|[(c&Hc&Hcx) Hrest]]; [by left; left|].
        apply elem_of_cons in Hc as [->|Hc].
        -- left; right. done.
        -- right. split; [|done]. by exists c.
    + destruct (IH refs Hnd) as [Hnd' Hx]. split; [done|].
      intros x. rewrite Hx. split.
      * intros [?|[(c&?&?) ?]]; [by left|right].
        split; [|done]. exists c. split; [by right|done].
      * intros [?|[(c&Hc&Hcx) [Hne Hk]]]; [by left|].
        apply elem_of_cons in Hc as [->|Hc].
        -- fold identifier in Hcx. subst x. exfalso.
           apply andb_false_iff in Ht as [Ht|Ht].
           ++ by destruct identifier.
           ++ apply negb_false_iff, bool_decide_eq_true in Ht. done.
        -- right. split; [|done]. by exists c.
Qed.

Lemma collect_references_spec q keywords node code :
  let refs := collect_references q keywords node code in
  NoDup refs
  /\ forall x, x ∈ refs <->
       (exists cap, cap ∈ captures q code node
                    /\ _get_node_text cap.1 code = x)
       /\ x <> "" /\ x ∉ keywords.
Proof.
  cbn zeta. unfold collect_references.
  destruct (references_loop keywords code (captures q code node) [])
    as [Hnd Hx]; [constructor|].
  split.
  - by rewrite set_iter_perm.
  - intros x. rewrite set_iter_perm, Hx. split; [|by right].
    intros [?%elem_of_nil|?]; done.
Qed.

(** X14. [extract_references] of [JavaChunker] and of [PythonChunker]
    returns, without repetition, exactly the texts of the identifiers
    captured under the node that are neither empty nor one of the
    keywords of the extractor; when every captured identifier is a
    keyword the list is empty. *)
Theorem references_are_identifiers_but_keywords (node : Node)
    (code : string) :
  (let refs := JavaChunker.extract_references node code in
   NoDup refs
   /\ (forall x, x ∈ refs <->
         (exists cap, cap ∈ captures JavaQueryReferences code node
                      /\ _get_node_text cap.1 code = x)
         /\ x <> "" /\ x ∉ JavaChunker.keywords)
   /\ (Forall (fun cap => _get_node_text cap.1 code ∈ JavaChunker.keywords)
              (captures JavaQueryReferences code node) -> refs = []))
  /\ (let refs := PythonChunker.extract_references node code in
      NoDup refs
      /\ (forall x, x ∈ refs <->
            (exists cap, cap ∈ captures PyQueryReferences code node
                         /\ _get_node_text cap.1 code = x)
            /\ x <> "" /\ x ∉ PythonChunker.keywords)
      /\ (Forall (fun cap =>
                    _get_node_text cap.1 code ∈ PythonChunker.keywords)
                 (captures PyQueryReferences code node) -> refs = [])).
Proof.
  split.
  - destruct (collect_references_spec JavaQueryReferences
                JavaChunker.keywords node code) as [Hnd Hx].
    split_and!; [done..|]. intros Hall. apply elem_of_nil_inv.
    intros x ((cap&Hc&<-)&_&Hk)%Hx. rewrite Forall_forall in Hall.
    by apply Hk, Hall.
  - destruct (collect_references_spec PyQueryReferences
                PythonChunker.keywords node code) as [Hnd Hx].
    split_and!; [done..|]. intros Hall. apply elem_of_nil_inv.
    intros x ((cap&Hc&<-)&_&Hk)%Hx. rewrite Forall_forall in Hall.
    by apply Hk, Hall.
Qed.

(** The loop of [JavaChunker.chunk_code] over the captures of a list of
    declarations. *)
Lemma java_walk_declarations code caps imports (decls : list Declaration) :
  Forall (fun d => d.1.1 ∈ ["class"; "method"; "constructor"]) decls ->
  JavaChunker.walk code caps imports (flat_map declaration_captures decls)
  = map (java_chunk_of code caps imports) decls.
Proof.
  induction decls as [|[[kind node] name_node] decls IH]; intros Hk;
    [done|].
  apply Forall_cons in Hk as [Hkind Hk]. cbn [flat_map declaration_captures].
  cbn [app]. rewrite java_walk_step, (IH Hk). cbn [map java_chunk_of fst] in *.
  repeat (apply elem_of_cons in Hkind as [->|Hkind]; [by vm_compute|]).
  by apply elem_of_nil in Hkind.
Qed.

(** X15. When the captures of the declaration query are those of a list
    of class, method and constructor declarations, each declaration
    capture followed at once by the capture of its name, [chunk_code] of
    [JavaChunker] returns exactly one chunk for each declaration, in the
    order of the captures. *)
Theorem java_one_chunk_per_declaration {re : Regex} (code : string)
    (decls : list Declaration) :
  Forall (fun d => d.1.1 ∈ ["class"; "method"; "constructor"]) decls ->
  captures JavaQuery code (parse Java code)
  = flat_map declaration_captures decls ->
  JavaChunker.chunk_code code
  = map (java_chunk_of code (captures JavaQuery code (parse Java code))
           (JavaChunker.extract_imports (parse Java code) code))
        decls.
Proof.
  intros Hk Hcaps. unfold JavaChunker.chunk_code.
  rewrite Hcaps at 2. by apply java_walk_declarations.
Qed.

End References.

Lemma java_one_chunk_per_declaration_witness :
  JavaChunker.chunk_code (ts:=example_engine) (ip:=insertion_order)
    (re:=example_regex) foo_java
  = map (java_chunk_of (ts:=example_engine) (ip:=insertion_order) foo_java
           (captures (Engine:=example_engine) JavaQuery foo_java
              (parse (Engine:=example_engine) Java foo_java))
           (JavaChunker.extract_imports (ts:=example_engine)
              (re:=example_regex)
              (parse (Engine:=example_engine) Java foo_java) foo_java))
        [("class", j_class, j_class_name);
         ("method", j_method, j_method_name)].
Proof.
  apply (java_one_chunk_per_declaration (ts:=example_engine)
           (ip:=insertion_order) (re:=example_regex)).
  - by repeat constructor.
  - reflexivity.
Defined.

End ExtractorProperties.

(** *** The searches of the chunker, position by position. *)

Module SearchFacts.
Import CodeChunker Notions.

Lemma app_cons a s t : String a s +:+ t = String a (s +:+ t).
Proof. reflexivity. Qed.

Lemma app_nil t : "" +:+ t = t.
Proof. reflexivity. Qed.

Lemma search_here attempt s g :
  attempt s = Some g -> Re.search attempt s = Some g.
Proof. intros H. destruct s; cbn; by rewrite H. Qed.

Lemma search_next attempt a s :
  attempt (String a s) = None ->
  Re.search attempt (String a s) = Re.search attempt s.
Proof. intros H. cbn. by rewrite H. Qed.

(** No attempt succeeds on a run of characters none of which can start a
    match. *)
Lemma search_skip_chars attempt (Q : ascii -> bool) u v :
  (forall a s, Q a = true -> attempt (String a s) = None) ->
  forallb Q (list_ascii_of_string u) = true ->
  Re.search attempt (u +:+ v) = Re.search attempt v.
Proof.
  intros Hq. induction u as [|a u IH]; [done|]. cbn.
  intros [Ha Hu]%andb_true_iff.
  change (String a u +:+ v) with (String a (u +:+ v)).
  rewrite search_next by by apply Hq. by apply IH.
Qed.

Lemma literal_app l s : Re.literal l (l +:+ s) = Some s.
Proof.
  induction l as [|a l IH]; [by destruct s|].
  change (String a l +:+ s) with (String a (l +:+ s)). cbn.
  by rewrite bool_decide_eq_true_2.
Qed.

Lemma literal_first a l x s :
  a <> x -> Re.literal (String a l) (String x s) = None.
Proof. intros H. cbn. by rewrite bool_decide_eq_false_2. Qed.

Lemma literal_second a1 a2 l x1 x2 s :
  a2 <> x2 ->
  Re.literal (String a1 (String a2 l)) (String x1 (String x2 s)) = None.
Proof.
  intros H. cbn. case_bool_decide; [|done].
  by rewrite bool_decide_eq_false_2.
Qed.

Lemma literal_prefix l : forall s,
  is_Some (Re.literal l s) <-> String.prefix l s = true.
Proof.
  induction l as [|a l IH]; intros s.
  - destruct s; cbn; split; eauto.
  - destruct s as [|x s]; cbn.
    + split; [by intros [??]|done].
    + case_bool_decide as E.
      * subst x. destruct (ascii_dec a a); [apply IH|done].
      * destruct (ascii_dec a x); [done|]. split; [by intros [??]|done].
Qed.

Lemma prefix_crossing l : forall u d v,
  String.prefix l (u +:+ String d v) = true -> Str.contains d l = false ->
  String.prefix l u = true.
Proof.
  induction l as [|a l IH]; intros u d v Hp Hd.
  - by destruct u.
  - cbn in Hd. apply orb_false_iff in Hd as [Ha Hd].
    apply bool_decide_eq_false in Ha.
    destruct u as [|x u].
    + change ("" +:+ String d v) with (String d v) in Hp.
      cbn [String.prefix] in Hp. by destruct (ascii_dec a d).
    + change (String x u +:+ String d v)
        with (String x (u +:+ String d v)) in Hp.
      cbn [String.prefix] in *.
      destruct (ascii_dec a x); [|done]. by apply (IH u d v).
Qed.

(** A literal that does not occur in [u] and does not hold the character
    that follows [u] matches at no position of [u], nor at that character. *)
Lemma search_skip_segment attempt l u d v :
  (forall s, Re.literal l s = None -> attempt s = None) ->
  Str.contains_str l u = false -> Str.contains d l = false -> l <> "" ->
  Re.search attempt (u +:+ String d v) = Re.search attempt v.
Proof.
  intros Hl Hu Hd Hne. induction u as [|x u IH].
  - change ("" +:+ String d v) with (String d v).
    apply search_next, Hl. destruct l as [|a l]; [done|].
    apply literal_first. cbn in Hd. apply orb_false_iff in Hd as [Ha _].
    by apply bool_decide_eq_false in Ha.
  - cbn [Str.contains_str] in Hu. apply orb_false_iff in Hu as [Hp Hu].
    change (String x u +:+ String d v) with (String x (u +:+ String d v)).
    rewrite search_next; [by apply IH|]. apply Hl.
    destruct (Re.literal l _) eqn:E; [|done].
    assert (String.prefix l (String x u +:+ String d v) = true) as Hp'
      by (apply literal_prefix; by eexists).
    apply prefix_crossing in Hp'; [congruence|done].
Qed.

Lemma prefix_contains c l : forall s,
  String.prefix l s = true -> Str.contains c l = true ->
  Str.contains c s = true.
Proof.
  induction l as [|a l IH]; intros [|x s] Hp Hc; try done.
  cbn in *. destruct (ascii_dec a x) as [->|]; [|done].
  destruct (bool_decide (x = c)); [done|]. by apply IH.
Qed.

Lemma contains_char_str c l u :
  Str.contains c l = true -> Str.contains c u = false ->
  Str.contains_str l u = false.
Proof.
  intros Hl. induction u as [|x u IH]; intros Hu.
  - cbn. rewrite orb_false_r. destruct (String.prefix l "") eqn:E; [|done].
    by rewrite (prefix_contains c l "" E Hl) in Hu.
  - cbn [Str.contains_str]. apply orb_false_iff. split.
    + destruct (String.prefix l (String x u)) eqn:E; [|done].
      by rewrite (prefix_contains c l _ E Hl) in Hu.
    + apply IH. cbn in Hu. by apply orb_false_iff in Hu as [_ ?].
Qed.

Lemma contains_forallb c u :
  Str.contains c u = false ->
  forallb (fun a => negb (bool_decide (a = c))) (list_ascii_of_string u)
  = true.
Proof.
  induction u as [|x u IH]; [done|]. cbn.
  intros [-> Hu]%orb_false_iff. by rewrite IH.
Qed.

Lemma forallb_weaken (P Q : ascii -> bool) l :
  (forall a, P a = true -> Q a = true) ->
  forallb P l = true -> forallb Q l = true.
Proof.
  intros H. induction l as [|a l IH]; [done|]. cbn.
  intros [Ha Hl]%andb_true_iff. by rewrite (H a Ha), IH.
Qed.

(** A greedy run stops at the first character outside the class. *)
Lemma span_app p u v :
  forallb p (list_ascii_of_string u) = true ->
  match v with String a _ => p a = false | EmptyString => True end ->
  Re.span p (u +:+ v) = (u, v).
Proof.
  intros Hu Hv. induction u as [|x u IH].
  - change ("" +:+ v) with v. destruct v as [|a v]; [done|]. cbn.
    by rewrite Hv.
  - cbn in Hu. apply andb_true_iff in Hu as [Hx Hu].
    change (String x u +:+ v) with (String x (u +:+ v)). cbn.
    by rewrite Hx, (IH Hu).
Qed.

Lemma rfind_from_last c r : forall i,
  Str.rfind_from c i (r +:+ String c "") = Some (i + String.length r).
Proof.
  induction r as [|x r IH]; intros i.
  - rewrite app_nil. cbn. rewrite bool_decide_eq_true_2 by done.
    f_equal. lia.
  - rewrite app_cons. cbn. rewrite IH. f_equal. lia.
Qed.

Lemma slice_app_l r x :
  Str.slice 0 (String.length r) (r +:+ x) = r.
Proof.
  unfold Str.slice. rewrite Nat.sub_0_r.
  induction r as [|a r IH]; [by destruct x|].
  change (String a r +:+ x) with (String a (r +:+ x)). cbn.
  by rewrite IH.
Qed.

(** An occurrence of the fence cannot start in a text and end in the
    fence that follows it. *)
Lemma fence_no_straddle x u rest :
  String.prefix fence (String x u +:+ fence +:+ rest)
  = String.prefix fence (String x u).
Proof.
  unfold fence, Re.newline.
  destruct u as [|y [|z [|t u]]]; rewrite !app_cons, ?app_nil;
    cbn [String.prefix];
    repeat (destruct (ascii_dec _ _); try done).
  generalize (u +:+ String "010" (String "`" (String "`" (String "`" rest)))).
  intros s. by destruct s, u.
Qed.

Lemma prefix_app_refl s t : String.prefix s (s +:+ t) = true.
Proof.
  induction s as [|a s IH]; [by destruct t|].
  rewrite app_cons. cbn. by destruct (ascii_dec a a).
Qed.

Lemma until_fence c rest :
  Re.until fence (c +:+ fence +:+ rest)
  = Some (default c (Re.until fence c)).
Proof.
  induction c as [|x c IH].
  - rewrite app_nil.
    change (fence +:+ rest) with (String Re.newline ("```" +:+ rest)).
    cbn [Re.until].
    change (String Re.newline ("```" +:+ rest)) with (fence +:+ rest).
    by rewrite prefix_app_refl.
  - pose proof (fence_no_straddle x c rest) as Hs.
    change (String x c +:+ fence +:+ rest)
      with (String x (c +:+ fence +:+ rest)) in *.
    cbn [Re.until]. rewrite Hs.
    destruct (String.prefix fence (String x c)); [done|].
    rewrite IH. cbn. by destruct (Re.until fence c).
Qed.

End SearchFacts.

(** *** The searches on a curated file. *)

Module CuratedFacts.
Import PathFacts StoreFacts CodeChunker Notions SearchFacts.

Lemma header_safe_inv s :
  header_safe s = true ->
  Str.truthy s = true /\ Str.contains Re.newline s = false
  /\ Str.contains "`" s = false
  /\ Str.contains_str "Programming language: " s = false.
Proof.
  unfold header_safe. rewrite !andb_true_iff, !negb_true_iff. tauto.
Qed.

Lemma word_text_inv l :
  word_text l = true ->
  Str.truthy l = true /\ forallb Re.word (list_ascii_of_string l) = true.
Proof. unfold word_text. by rewrite andb_true_iff. Qed.

Lemma word_not_newline a : Re.word a = true -> Re.dot a = true.
Proof.
  intros Hw. unfold Re.dot. apply negb_true_iff, bool_decide_eq_false.
  intros ->. by vm_compute in Hw.
Qed.

Lemma word_not_backquote a :
  Re.word a = true -> negb (bool_decide (a = "`"%char)) = true.
Proof.
  intros Hw. apply negb_true_iff, bool_decide_eq_false.
  intros ->. by vm_compute in Hw.
Qed.

Lemma forallb_app_string p u v :
  forallb p (list_ascii_of_string (u +:+ v))
  = forallb p (list_ascii_of_string u) && forallb p (list_ascii_of_string v).
Proof.
  induction u as [|x u IH]; [done|].
  change (String x u +:+ v) with (String x (u +:+ v)). cbn.
  by rewrite IH, andb_assoc.
Qed.

Lemma until_none stop c :
  Str.contains_str stop c = false -> Re.until stop c = None.
Proof.
  induction c as [|x c IH]; cbn [Str.contains_str Re.until];
    intros [Hp Hc]%orb_false_iff; rewrite Hp; [done|].
  by rewrite IH.
Qed.

(** The text of a curated file, cut at the places the searches stop at. *)
Lemma curated_shape b r l c :
  CodeCurator.curated b r l c
  = "# " +:+ (b +:+ String Re.newline (String Re.newline
      ("File path: `" +:+ (r +:+ String "`" (String Re.newline
         (String Re.newline
            ("Programming language: " +:+ (l +:+ String Re.newline
               (String Re.newline
                  ("```" +:+ (l +:+ String Re.newline
                     (c +:+ fence +:+ CodeCurator.nl)))))))))))).
Proof. reflexivity. Qed.

Section Searches.
Variables b r l c : string.
Hypothesis Hb : header_safe b = true.
Hypothesis Hr : header_safe r = true.
Hypothesis Hl : word_text l = true.

(** [# (.+)] matches at the start of the file. *)
Lemma search_filename :
  Re.search (Re.match_rest_of_line "# ") (CodeCurator.curated b r l c)
  = Some b.
Proof.
  destruct (header_safe_inv b Hb) as (Ht&Hn&_&_).
  rewrite curated_shape. apply search_here. unfold Re.match_rest_of_line.
  rewrite literal_app, span_app; [by cbn; rewrite Ht| |done].
  by apply contains_forallb.
Qed.

(** [File path: `(.+)`] matches on the third line. *)
Lemma search_filepath :
  Re.search Re.match_filepath (CodeCurator.curated b r l c) = Some r.
Proof.
  destruct (header_safe_inv b Hb) as (_&_&Hq&_).
  destruct (header_safe_inv r Hr) as (Ht&Hn&_&_).
  assert (forall s, Re.literal "File path: `" s = None ->
                    Re.match_filepath s = None) as Hlit
    by (intros s E; unfold Re.match_filepath; by rewrite E).
  assert (forall a s,
            negb (bool_decide (a = "F"%char)) = true ->
            Re.match_filepath (String a s) = None) as Hfirst.
  { intros a s Ha. apply Hlit, literal_first.
    apply negb_true_iff, bool_decide_eq_false in Ha. congruence. }
  rewrite curated_shape.
  rewrite (search_skip_chars _ _ "# " _ Hfirst) by reflexivity.
  rewrite (search_skip_segment _ "File path: `" b Re.newline _ Hlit);
    [|by apply (contains_char_str "`"%char)|done|done].
  rewrite search_next by (by apply Hfirst).
  apply search_here. unfold Re.match_filepath. rewrite literal_app.
  destruct r as [|x r']; [done|].
  change (String x r' +:+ String "`" ?Y)
    with (String x r' +:+ (String "`" "" +:+ Y)).
  rewrite <- app_assoc_string.
  rewrite span_app; [| |done].
  - cbn [fst]. unfold Str.rfind. rewrite rfind_from_last.
    cbn [String.length Nat.add].
    change (S (String.length r')) with (String.length (String x r')).
    by rewrite slice_app_l.
  - rewrite forallb_app_string. apply andb_true_iff. split; [|done].
    by apply contains_forallb.
Qed.

(** [Programming language: (.+)] matches on the fifth line. *)
Lemma search_language :
  Re.search (Re.match_rest_of_line "Programming language: ")
    (CodeCurator.curated b r l c) = Some l.
Proof.
  destruct (header_safe_inv b Hb) as (_&_&_&Hpb).
  destruct (header_safe_inv r Hr) as (_&_&_&Hpr).
  destruct (word_text_inv l Hl) as (Ht&Hw).
  set (attempt := Re.match_rest_of_line "Programming language: ").
  assert (forall s, Re.literal "Programming language: " s = None ->
                    attempt s = None) as Hlit
    by (intros s E; unfold attempt, Re.match_rest_of_line; by rewrite E).
  assert (forall a s,
            negb (bool_decide (a = "P"%char)) = true ->
            attempt (String a s) = None) as Hfirst.
  { intros a s Ha. apply Hlit, literal_first.
    apply negb_true_iff, bool_decide_eq_false in Ha. congruence. }
  rewrite curated_shape.
  rewrite (search_skip_chars _ _ "# " _ Hfirst) by reflexivity.
  rewrite (search_skip_segment _ "Programming language: " b Re.newline _
             Hlit) by done.
  rewrite search_next by (by apply Hfirst).
  rewrite (search_skip_chars _ _ "File path: `" _ Hfirst) by reflexivity.
  rewrite (search_skip_segment _ "Programming language: " r "`"%char _
             Hlit) by done.
  rewrite !search_next by (by apply Hfirst).
  apply search_here. unfold attempt, Re.match_rest_of_line.
  rewrite literal_app, span_app; [by cbn; rewrite Ht| |done].
  eapply forallb_weaken; [apply word_not_newline|done].
Qed.

(** The fenced block is found after the header, and its text is the
    content up to the first fence. *)
Lemma search_code_block :
  Re.search Re.match_code_block (CodeCurator.curated b r l c)
  = Some (default c (Re.until fence c)).
Proof.
  destruct (header_safe_inv b Hb) as (_&_&Hqb&_).
  destruct (header_safe_inv r Hr) as (Ht&_&Hqr&_).
  destruct (word_text_inv l Hl) as (_&Hw).
  assert (forall a s,
            negb (bool_decide (a = "`"%char)) = true ->
            Re.match_code_block (String a s) = None) as Hfirst.
  { intros a s Ha. unfold Re.match_code_block. rewrite literal_first; [done|].
    apply negb_true_iff, bool_decide_eq_false in Ha. congruence. }
  rewrite curated_shape.
  rewrite (search_skip_chars _ _ "# " _ Hfirst) by reflexivity.
  rewrite (search_skip_chars _ _ b _ Hfirst) by (by apply contains_forallb).
  rewrite !search_next by (by apply Hfirst).
  change ("File path: `" +:+ ?X) with ("File path: " +:+ String "`" X).
  rewrite (search_skip_chars _ _ "File path: " _ Hfirst) by reflexivity.
  destruct r as [|x r']; [done|].
  change (String x r' +:+ ?Y) with (String x (r' +:+ Y)).
  cbn [Str.contains] in Hqr. apply orb_false_iff in Hqr as [Hx Hqr].
  apply bool_decide_eq_false in Hx.
  rewrite search_next
    by (unfold Re.match_code_block; by rewrite literal_second).
  rewrite search_next
    by (apply Hfirst; by rewrite bool_decide_eq_false_2).
  rewrite (search_skip_chars _ _ r' _ Hfirst) by (by apply contains_forallb).
  rewrite search_next
    by (unfold Re.match_code_block; by rewrite literal_second).
  rewrite !search_next by (by apply Hfirst).
  rewrite (search_skip_chars _ _ "Programming language: " _ Hfirst)
    by reflexivity.
  rewrite (search_skip_chars _ _ l _ Hfirst)
    by (eapply forallb_weaken; [apply word_not_backquote|done]).
  rewrite !search_next by (by apply Hfirst).
  apply search_here. unfold Re.match_code_block.
  rewrite literal_app, span_app; [|done|done]. cbn [snd].
  rewrite bool_decide_eq_true_2 by done. apply until_fence.
Qed.

End Searches.

(** The language names of [estimate_language]. *)
Lemma get_cases d key default :
  (CodeCurator.get d key default = default /\ key ∉ map fst d)
  \/ (key, CodeCurator.get d key default) ∈ d.
Proof.
  induction d as [|[k v] d IH]; cbn.
  - left. split; [done|]. apply not_elem_of_nil.
  - case_bool_decide as E.
    + subst k. right. left.
    + destruct IH as [[E' Hn]|Hin].
      * left. split; [done|]. intros [?|?]%elem_of_cons; [by subst|done].
      * right. by right.
Qed.

Lemma supported_extension ext :
  let language := CodeCurator.get CodeCurator.language_map ext "unknown" in
  word_text language = true
  /\ (is_Some (chunkers language)
      <-> ext ∈ [".py"; ".js"; ".jsx"; ".java"; ".kt"])
  /\ chunkers language <> Some ObjectiveCChunker.
Proof.
  cbn zeta.
  destruct (get_cases CodeCurator.language_map ext "unknown") as [[E Hn]|Hin].
  - rewrite E. split_and!; [done| |done]. split; [by intros [??]|].
    intros Hin. destruct Hn.
    repeat (apply elem_of_cons in Hin as [->|Hin];
            [by repeat constructor|]).
    by apply elem_of_nil in Hin.
  - revert Hin. generalize (CodeCurator.get CodeCurator.language_map ext
                              "unknown"). intros language Hin.
    unfold CodeCurator.language_map in Hin.
    repeat (apply elem_of_cons in Hin as [[= -> ->]|Hin];
            [split_and!; [done| |done];
             (split; [try (by intros [??]); by repeat constructor|
                      intros Hx; try (by eexists);
                      repeat (apply elem_of_cons in Hx as [[=]|Hx]);
                      by apply elem_of_nil in Hx])|]).
    by apply elem_of_nil in Hin.
Qed.

(** A read in text mode changes nothing before the first carriage
    return. *)
Lemma read_app_plain u v :
  Str.contains TextIO.carriage_return u = false ->
  TextIO.read (u +:+ v) = u +:+ TextIO.read v.
Proof.
  induction u as [|a u IH]; [done|]. rewrite !app_cons. cbn.
  intros [Ha Hu]%orb_false_iff. by rewrite Ha, IH.
Qed.

Lemma read_plain s :
  Str.contains TextIO.carriage_return s = false -> TextIO.read s = s.
Proof.
  induction s as [|a s IH]; [done|]. cbn.
  intros [Ha Hs]%orb_false_iff. by rewrite Ha, IH.
Qed.

Lemma word_text_plain l :
  word_text l = true -> Str.contains TextIO.carriage_return l = false.
Proof.
  intros (_&Hw)%word_text_inv. induction l as [|a l IH]; [done|].
  cbn in *. apply andb_true_iff in Hw as [Ha Hl]. rewrite (IH Hl).
  rewrite orb_false_r. apply bool_decide_eq_false. intros ->.
  by vm_compute in Ha.
Qed.

(** A curated file holds a carriage return only if the name, the path or
    the content does. *)
Lemma curated_plain b r l c :
  Str.contains TextIO.carriage_return b = false ->
  Str.contains TextIO.carriage_return r = false ->
  word_text l = true ->
  Str.contains TextIO.carriage_return c = false ->
  Str.contains TextIO.carriage_return (CodeCurator.curated b r l c) = false.
Proof.
  intros Hb Hr Hl%word_text_plain Hc. unfold CodeCurator.curated.
  repeat (rewrite contains_app; apply orb_false_iff; split); done.
Qed.

End CuratedFacts.

(** *** From the curator to the chunker. *)

Module CuratedProperties.

Import PathFacts StoreFacts CodeChunker Notions SearchFacts CuratedFacts
  Examples.


(** X16. The header and the code of a curated file are read back by the
    chunker.  For a file name and a relative path that are not empty and
    hold no newline, no carriage return, no backquote and not the text
    [Programming language: ], a language made of word characters and a
    content without carriage return and without a line that starts with
    three backquotes, the searches of [extract_code_info] and
    [extract_code_content] on what a read in text mode returns for the
    file the curator wrote find the file name, the path, the language and
    the content. *)
Theorem curated_file_is_read_back (java : Regex) (b r l c : string) :
  header_safe b = true -> header_safe r = true -> word_text l = true ->
  Str.contains_str fence c = false ->
  Str.contains TextIO.carriage_return b = false ->
  Str.contains TextIO.carriage_return r = false ->
  Str.contains TextIO.carriage_return c = false ->
  let content := TextIO.read (CodeCurator.curated b r l c) in
  extract_code_info (re:=Re.python_re java) content
  = {| language := l; filename := b; filepath := r |}
  /\ extract_code_content (re:=Re.python_re java) content = c.
Proof.
  intros Hb Hr Hl Hc Pb Pr Pc content. unfold content.
  rewrite read_plain by by apply curated_plain.
  unfold extract_code_info, extract_code_content.
  cbn [re_search Re.python_re].
  rewrite search_filename, search_filepath, search_language,
    search_code_block by done.
  by rewrite (until_none _ _ Hc).
Qed.

(** X27. A carriage return in the name of a source file cuts the file
    name the chunker reads back: the curator writes the name as it is, the
    read in text mode turns the carriage return into a newline, and the
    search of [extract_code_info] stops there.  When the name is [b1], a
    carriage return and [b2], with [b1] not empty and without newline,
    carriage return and backquote, the file name found is [b1]. *)
Theorem carriage_return_cuts_the_file_name (java : Regex)
    (b1 b2 r l c : string) :
  header_safe b1 = true ->
  Str.contains TextIO.carriage_return b1 = false ->
  filename
    (extract_code_info (re:=Re.python_re java)
       (TextIO.read
          (CodeCurator.curated (b1 +:+ String TextIO.carriage_return b2)
             r l c)))
  = b1.
Proof.
  intros Hb Pb. destruct (header_safe_inv b1 Hb) as (Ht&Hn&_&_).
  rewrite curated_shape.
  rewrite (app_assoc_string b1 (String TextIO.carriage_return b2)).
  rewrite <- (app_assoc_string "# " b1).
  rewrite read_app_plain
    by (rewrite contains_app; apply orb_false_iff; by split).
  change (String TextIO.carriage_return b2 +:+ ?X)
    with (String TextIO.carriage_return (b2 +:+ X)).
  cbn [TextIO.read]. rewrite bool_decide_eq_true_2 by done.
  rewrite app_assoc_string.
  unfold extract_code_info. cbn [re_search Re.python_re filename].
  erewrite search_here; [done|]. unfold Re.match_rest_of_line.
  rewrite literal_app, span_app; [by cbn; rewrite Ht| |done].
  by apply contains_forallb.
Qed.

(** X17. The code of a curated file ends at the first line of the
    content that starts with three backquotes: when the content is [c1],
    a newline, three backquotes and [c2], and [c1] has no such line,
    [extract_code_content] returns [c1] and the extractors never see
    [c2].  The file name and the path are not empty and hold no newline,
    no backquote and not the text [Programming language: ], and the
    language is made of word characters. *)
Theorem fence_line_cuts_the_code (java : Regex) (b r l c1 c2 : string) :
  header_safe b = true -> header_safe r = true -> word_text l = true ->
  Str.contains_str fence c1 = false ->
  extract_code_content (re:=Re.python_re java)
    (CodeCurator.curated b r l (c1 +:+ fence +:+ c2)) = c1.
Proof.
  intros Hb Hr Hl Hc. unfold extract_code_content.
  cbn [re_search Re.python_re].
  rewrite search_code_block by done.
  by rewrite until_fence, (until_none _ _ Hc).
Qed.

(** X18. The language [estimate_language] gives a file is made of word
    characters, and it is a key of the [chunkers] of [codeChunker.py]
    exactly for the extensions [.py], [.js], [.jsx], [.java] and [.kt]
    (compared in lower case); it is never the key of the Objective-C
    extractor. *)
Theorem estimated_language_and_chunkers (filepath : string) :
  let language := CodeCurator.estimate_language filepath in
  word_text language = true
  /\ (is_Some (chunkers language)
      <-> Str.lower (Path.splitext filepath).2
          ∈ [".py"; ".js"; ".jsx"; ".java"; ".kt"])
  /\ chunkers language <> Some ObjectiveCChunker.
Proof. apply supported_extension. Qed.

Section EndToEnd.
Context {pf : Platform} {ts : TreeSitter.Engine} {ip : Interpreter}
        {oc : OtherChunkers}.

(** X19. A source file whose extension is none of [.py], [.js], [.jsx],
    [.java] and [.kt] gives no record: the chunker reads the language the
    curator wrote in the header, finds no extractor for it, and
    [process_file] returns the empty list.  The file name and the relative
    path are as in X16. *)
Theorem unsupported_source_gives_no_record (java : Regex)
    (self : CodeChunker) (fs : gmap string string)
    (path filepath rel_path content : string) :
  header_safe (Path.basename filepath) = true ->
  header_safe rel_path = true ->
  fs !! path = Some (CodeCurator.written filepath rel_path content) ->
  Str.lower (Path.splitext filepath).2
    ∉ [".py"; ".js"; ".jsx"; ".java"; ".kt"] ->
  process_file (re:=Re.python_re java) self fs path = [].
Proof.
  intros Hb Hr Hfs Hext.
  destruct (supported_extension (Str.lower (Path.splitext filepath).2))
    as (Hw&Hsup&_).
  fold (CodeCurator.estimate_language filepath) in Hw, Hsup.
  unfold process_file, process_file_try. rewrite Hfs.
  unfold CodeCurator.written, extract_code_info.
  cbn [re_search Re.python_re language].
  rewrite search_language by done.
  change (default "unknown" (Some ?x)) with x.
  unfold chunk_code_by_language.
  destruct (chunkers (CodeCurator.estimate_language filepath)) eqn:E.
  - destruct Hext. apply Hsup. by eexists.
  - reflexivity.
Qed.

End EndToEnd.

Lemma curated_file_is_read_back_witness :
  extract_code_info (re:=Re.python_re example_regex)
    (TextIO.read
       (CodeCurator.curated "Foo.java" "src/Foo.java" "java" foo_java))
  = {| language := "java"; filename := "Foo.java";
       filepath := "src/Foo.java" |}
  /\ extract_code_content (re:=Re.python_re example_regex)
       (TextIO.read
          (CodeCurator.curated "Foo.java" "src/Foo.java" "java" foo_java))
     = foo_java.
Proof.
  apply (curated_file_is_read_back example_regex); reflexivity.
Defined.

Lemma carriage_return_cuts_the_file_name_witness :
  filename
    (extract_code_info (re:=Re.python_re example_regex)
       (TextIO.read
          (CodeCurator.curated
             ("na" +:+ String TextIO.carriage_return "me.py")
             ("na" +:+ String TextIO.carriage_return "me.py") "python"
             "x = 1")))
  = "na".
Proof.
  apply (carriage_return_cuts_the_file_name example_regex "na" "me.py");
    reflexivity.
Defined.

Lemma fence_line_cuts_the_code_witness :
  extract_code_content (re:=Re.python_re example_regex)
    (CodeCurator.curated "notes.py" "notes.py" "python"
       ("x = 1" +:+ fence +:+ "y = 2")) = "x = 1".
Proof.
  apply (fence_line_cuts_the_code example_regex); reflexivity.
Defined.

Lemma unsupported_source_gives_no_record_witness :
  process_file (pf:=example_platform) (ts:=example_engine)
    (ip:=insertion_order) (oc:=example_others)
    (re:=Re.python_re example_regex)
    (CodeChunker.init curated_dir false None)
    {[ "artifacts/curated/repo/notes.rb.md"
       := CodeCurator.written "/r/notes.rb" "notes.rb" "puts 1" ]}
    "artifacts/curated/repo/notes.rb.md" = [].
Proof.
  apply (unsupported_source_gives_no_record (pf:=example_platform)
           (ts:=example_engine) (ip:=insertion_order) (oc:=example_others)
           example_regex _ _ _ "/r/notes.rb" "notes.rb" "puts 1").
  - reflexivity.
  - reflexivity.
  - reflexivity.
  - by vm_compute; intros H; repeat (apply elem_of_cons in H as [[=]|H]);
      apply elem_of_nil in H.
Defined.

End CuratedProperties.

(** *** The entries of a hook report. *)

Module HookProperties.
Import PathFacts SplitFacts ListingFacts PipelineFacts HookAnalysis Notions Examples.

Lemma lstrip_contains c s :
  Str.contains c s = false -> Str.contains c (Str.lstrip s) = false.
Proof.
  induction s as [|a s IH]; [done|]. cbn. intros H.
  destruct (Str.isspace a); [|done].
  apply IH. by apply orb_false_iff in H as [_ ?].
Qed.

Lemma rstrip_contains c s :
  Str.contains c s = false -> Str.contains c (Str.rstrip s) = false.
Proof.
  induction s as [|a s IH]; [done|]. cbn.
  intros [Ha Hs]%orb_false_iff. specialize (IH Hs).
  destruct (Str.rstrip s) as [|b r].
  - destruct (Str.isspace a); [done|]. cbn. by rewrite Ha.
  - cbn in *. by rewrite Ha.
Qed.

Lemma strip_contains c s :
  Str.contains c s = false -> Str.contains c (Str.strip s) = false.
Proof. intros H. by apply rstrip_contains, lstrip_contains. Qed.

Lemma split_join c ls :
  ls <> [] -> Forall (fun x => Str.contains c x = false) ls ->
  Str.split c (Str.join c ls) = ls.
Proof.
  induction ls as [|x ls IH]; [done|]. intros _ Hall.
  apply Forall_cons in Hall as [Hx Hall]. destruct ls as [|y ls].
  - by apply split_no_sep.
  - rewrite join_cons by done. rewrite split_app_sep, split_no_sep by done.
    by rewrite IH.
Qed.

Lemma startswith_join c h ls p :
  Str.startswith h p = true -> Str.startswith (Str.join c (h :: ls)) p = true.
Proof.
  intros H. destruct ls as [|y ls]; [done|].
  rewrite join_cons by done. by apply prefix_app_r.
Qed.

Lemma startswith_truthy h : Str.startswith h "hook:" = true -> Str.truthy h = true.
Proof. by destruct h. Qed.

(** What the loop of [extractHookEntries] keeps true. *)
Lemma scan_invariant lines :
  Forall (fun line => Str.contains Re.newline line = false) lines ->
  let st := foldl scan_line scan_start lines in
  Forall (fun e => exists ls, entry_lines ls /\ e = Str.join Re.newline ls)
         (hook_entries st)
  /\ (current_entry st = [] \/ entry_lines (current_entry st))
  /\ (in_hook_entry st = true -> current_entry st <> [])
  /\ length (hook_entries st)
     + match current_entry st with [] => 0 | _ :: _ => 1 end
     = length (filter (fun line =>
                         Str.startswith (Str.strip line) "hook:" = true)
                      lines).
Proof.
  induction lines as [|line lines IH] using rev_ind; intros Hall.
  - cbn. split_and!; [constructor|by left|done|done].
  - apply Forall_app in Hall as [Hall Hline].
    apply Forall_cons in Hline as [Hline _].
    cbn zeta. rewrite foldl_app. cbn [foldl].
    destruct (IH Hall) as (Hent&Hcur&Hin&Hcount). clear IH.
    set (st := foldl scan_line scan_start lines) in *.
    rewrite filter_app, length_app.
    pose proof (strip_contains Re.newline line Hline) as Hstrip.
    unfold scan_line.
    destruct (Str.startswith (Str.strip line) "hook:") eqn:Hhook.
    + rewrite filter_cons_True, filter_nil by done. cbn [length].
      assert (entry_lines [Str.strip line]) as Hnew.
      { split; [done|]. repeat constructor; [|done].
        by apply startswith_truthy. }
      destruct (current_entry st) as [|h t] eqn:Ec;
        cbn [flush app hook_entries current_entry in_hook_entry].
      * split_and!; [done|by right|by intros _|lia].
      * split_and!; [|by right|by intros _|].
        -- apply Forall_app. split; [done|]. constructor; [|constructor].
           exists (h :: t). split; [|done]. by destruct Hcur.
        -- cbn. rewrite length_app. cbn. lia.
    + rewrite filter_cons_False, filter_nil by (by rewrite Hhook).
      cbn [length]. rewrite Nat.add_0_r.
      destruct (in_hook_entry st) eqn:Ein;
        [|split_and!; [done|done|by rewrite Ein|done]].
      specialize (Hin eq_refl).
      destruct (current_entry st) as [|h t] eqn:Ec; [done|].
      destruct Hcur as [?|[Hh Ht]]; [done|].
      destruct (Str.truthy (Str.strip line)) eqn:Etr;
        cbn [flush app hook_entries current_entry in_hook_entry].
      * split_and!; [done| |by intros _|done]. right. split; [done|].
        rewrite app_comm_cons. apply Forall_app. split; [done|].
        by repeat constructor.
      * split_and!; [|by left|done|].
        -- apply Forall_app. split; [done|]. constructor; [|constructor].
           by exists (h :: t).
        -- rewrite length_app. cbn. lia.
Qed.

Lemma split_lines_no_newline text :
  Forall (fun line => Str.contains Re.newline line = false)
         (Str.split Re.newline text).
Proof. apply Forall_forall. intros x. apply split_contains. Qed.

(** X20. Every entry [extractHookEntries] returns starts with [hook:],
    and split into lines again it has the [hook:] line first and no empty
    line; the entries are as many as the lines of the report that start
    with [hook:] once stripped. *)
Theorem hook_entries_open_with_hook (text : string) :
  let entries := extractHookEntries text in
  Forall (fun e => Str.startswith e "hook:" = true
                   /\ entry_lines (Str.split Re.newline e)) entries
  /\ length entries = length (hook_lines text).
Proof.
  cbn zeta. unfold extractHookEntries, hook_lines.
  destruct (scan_invariant _ (split_lines_no_newline text))
    as (Hent&Hcur&_&Hcount).
  set (st := foldl scan_line scan_start _) in *.
  assert (forall e, (exists ls, entry_lines ls /\ e = Str.join Re.newline ls) ->
            Str.startswith e "hook:" = true
            /\ entry_lines (Str.split Re.newline e)) as Hgood.
  { intros e (ls&Hls&->). destruct ls as [|h t]; [by destruct Hls|].
    split; [apply startswith_join; by destruct Hls|].
    rewrite split_join; [done|done|].
    destruct Hls as [_ Hls]. eapply Forall_impl; [done|]. by intros ? [??]. }
  destruct (current_entry st) as [|h t] eqn:Ec; cbn [flush fst].
  - split; [|lia]. eapply Forall_impl; [done|]. apply Hgood.
  - split.
    + apply Forall_app. split; [eapply Forall_impl; [done|]; apply Hgood|].
      constructor; [|constructor]. apply Hgood. exists (h :: t).
      split; [|done]. by destruct Hcur.
    + rewrite length_app. cbn. lia.
Qed.

(** One entry that is a single line stops the loop of
    [processHookEntries]. *)
Lemma process_entry_single e :
  Str.contains Re.newline e = false -> process_entry e = None.
Proof. intros H. unfold process_entry. by rewrite split_no_sep. Qed.

Lemma process_raised l : 
  foldl (fun results entry =>
           match results with
           | None => None
           | Some rows =>
               match process_entry entry with
               | None => None
               | Some None => Some rows
               | Some (Some row) => Some (rows ++ [row])
               end
           end) None l = None.
Proof. by induction l. Qed.

(** X21. [processHookEntries] reads the second line of every entry
    before anything else: an entry that consists of a single line, the
    [hook:] line alone, makes [lines[1]] raise [IndexError], and the call
    returns no result, whatever the other entries are. *)
Theorem single_line_entry_raises (hook_list : list string) (e : string) :
  e ∈ hook_list -> Str.contains Re.newline e = false ->
  processHookEntries hook_list = None.
Proof.
  intros Hin He. unfold processHookEntries.
  generalize (Some ([] : list HookResult)).
  induction hook_list as [|x l IH]; intros acc; [by apply elem_of_nil in Hin|].
  cbn [foldl]. apply elem_of_cons in Hin as [<-|Hin].
  - rewrite (process_entry_single e He).
    destruct acc; apply process_raised.
  - by apply IH.
Qed.

Lemma scan_line_hook st line :
  Str.startswith (Str.strip line) "hook:" = true ->
  exists entries,
    scan_line st line
    = {| hook_entries := entries; current_entry := [Str.strip line];
         in_hook_entry := true |}.
Proof.
  intros H. unfold scan_line. rewrite H. unfold flush.
  destruct (current_entry st); by eexists.
Qed.

(** X22. A report whose last line starts with [hook:] once stripped
    makes the analysis raise: that line is an entry of its own, flushed
    after the loop of [extractHookEntries], and [processHookEntries] finds
    no second line in it. *)
Theorem report_ending_with_hook_raises (text : string) :
  Str.startswith
    (Str.strip (List.last (Str.split Re.newline text) "")) "hook:" = true ->
  processHookEntries (extractHookEntries text) = None.
Proof.
  intros Hlast.
  pose proof (split_nonempty Re.newline text) as Hne.
  pose proof (split_lines_no_newline text) as Hall.
  unfold extractHookEntries. cbn zeta.
  set (lines := Str.split Re.newline text) in *. clearbody lines.
  destruct lines as [|line lines _] using rev_ind; [done|].
  rewrite last_last in Hlast.
  apply (single_line_entry_raises _ (Str.strip line)).
  - rewrite foldl_app. cbn [foldl].
    destruct (scan_line_hook (foldl scan_line scan_start lines) line Hlast)
      as [entries ->].
    cbn. apply elem_of_app. right. by left.
  - apply strip_contains. apply Forall_app in Hall as [_ Hall].
    by apply Forall_cons in Hall as [? _].
Qed.

Lemma single_line_entry_raises_witness :
  processHookEntries
    ["hook: first" +:+ CodeCurator.nl +:+ "method=getImei>";
     "hook: second"] = None.
Proof.
  apply (single_line_entry_raises _ "hook: second").
  - by repeat constructor.
  - reflexivity.
Defined.

Lemma report_ending_with_hook_raises_witness :
  processHookEntries (extractHookEntries report_ending_with_hook) = None.
Proof.
  apply (report_ending_with_hook_raises report_ending_with_hook).
  reflexivity.
Defined.

End HookProperties.

(** *** Splitting and stripping the text of an import statement. *)

Module ImportFacts.
Import PathFacts StoreFacts TreeSitter Notions SearchFacts CuratedFacts Examples.

Lemma app_empty_r s : s +:+ "" = s.
Proof. induction s as [|a s IH]; [done|]. by rewrite app_cons, IH. Qed.

Lemma rev_app_spec s1 : forall s2,
  String.rev_app s1 s2 = String.rev s1 +:+ s2.
Proof.
  induction s1 as [|a s1 IH]; intros s2; [done|].
  unfold String.rev. cbn [String.rev_app].
  rewrite (IH (String a s2)), (IH (String a "")).
  by rewrite app_assoc_string.
Qed.

Lemma rev_cons a s : String.rev (String a s) = String.rev s +:+ String a "".
Proof. unfold String.rev at 1. cbn [String.rev_app]. apply rev_app_spec. Qed.

(** [split] when the separator does not occur. *)
Lemma split_go_none sep s : forall cur,
  Str.contains_str sep s = false ->
  Str.split_go sep 0 cur s = [String.rev cur +:+ s].
Proof.
  induction s as [|a s IH]; intros cur H.
  - cbn. by rewrite app_empty_r.
  - cbn [Str.contains_str] in H. apply orb_false_iff in H as [Hp Hs].
    cbn [Str.split_go]. rewrite Hp, (IH _ Hs), rev_cons.
    by rewrite app_assoc_string.
Qed.

Lemma split_go_skip sep cur u s :
  Str.split_go sep (String.length u) cur (u +:+ s)
  = Str.split_go sep 0 cur s.
Proof.
  induction u as [|a u IH]; [done|]. rewrite app_cons. apply IH.
Qed.

(** [split] at an occurrence of the separator. *)
Lemma split_go_here a sep' cur s :
  Str.split_go (String a sep') 0 cur (String a sep' +:+ s)
  = String.rev cur :: Str.split_go (String a sep') 0 "" s.
Proof.
  pose proof (prefix_app_refl (String a sep') s) as Hp.
  rewrite app_cons in *. cbn [Str.split_go]. rewrite Hp.
  cbn [String.length]. rewrite Nat.sub_succ, Nat.sub_0_r.
  by rewrite split_go_skip.
Qed.

(** [split] when the first occurrence of the separator starts after
    [x]. *)
Lemma split_go_before a sep' x s : forall cur,
  (forall x1 b x2, x = x1 +:+ String b x2 ->
     String.prefix (String a sep') (String b x2 +:+ String a sep' +:+ s)
     = false) ->
  Str.split_go (String a sep') 0 cur (x +:+ String a sep' +:+ s)
  = (String.rev cur +:+ x) :: Str.split_go (String a sep') 0 "" s.
Proof.
  induction x as [|b x IH]; intros cur Hx.
  - rewrite app_nil, app_empty_r. apply split_go_here.
  - pose proof (Hx "" b x eq_refl) as Hp.
    rewrite app_cons in *. cbn [Str.split_go]. rewrite Hp.
    rewrite IH, rev_cons; [by rewrite app_assoc_string|].
    intros x1 b' x2 ->. apply (Hx (String b x1)). by rewrite app_cons.
Qed.

Lemma prefix_first a sep' b s :
  a <> b -> String.prefix (String a sep') (String b s) = false.
Proof. intros H. cbn. by destruct (ascii_dec a b). Qed.

Lemma contains_suffix c x1 x2 :
  Str.contains c (x1 +:+ x2) = false -> Str.contains c x2 = false.
Proof.
  induction x1 as [|a x1 IH]; [done|]. rewrite app_cons. cbn.
  intros [_ ?]%orb_false_iff. by apply IH.
Qed.

(** [split] at a character that does not occur in [x]. *)
Lemma split_char_before c x s cur :
  Str.contains c x = false ->
  Str.split_go (String c "") 0 cur (x +:+ String c "" +:+ s)
  = (String.rev cur +:+ x) :: Str.split_go (String c "") 0 "" s.
Proof.
  intros Hx. apply split_go_before. intros x1 b x2 ->.
  rewrite app_cons. apply prefix_first.
  apply contains_suffix in Hx. cbn in Hx.
  apply orb_false_iff in Hx as [Hb _].
  apply bool_decide_eq_false in Hb. congruence.
Qed.

Lemma contains_str_suffix sep x1 x2 :
  Str.contains_str sep (x1 +:+ x2) = false -> Str.contains_str sep x2 = false.
Proof.
  induction x1 as [|a x1 IH]; [done|]. rewrite app_cons.
  cbn [Str.contains_str]. intros [_ ?]%orb_false_iff. by apply IH.
Qed.

(** [split] at an occurrence that follows a text without occurrence and
    a character that is not in the separator. *)
Lemma split_segment_before a sep' x d s cur :
  Str.contains_str (String a sep') x = false ->
  Str.contains d (String a sep') = false ->
  Str.split_go (String a sep') 0 cur
    ((x +:+ String d "") +:+ String a sep' +:+ s)
  = (String.rev cur +:+ (x +:+ String d ""))
    :: Str.split_go (String a sep') 0 "" s.
Proof.
  intros Hx Hd. apply split_go_before. intros x1 b x2 E.
  destruct (String.prefix _ _) eqn:Hp; [exfalso|done].
  assert (exists x3, (exists x1', x = x1' +:+ x3)
                     /\ String b x2 = x3 +:+ String d "") as (x3&[x1' ->]&E3).
  { clear Hp Hx. revert x1 E. induction x as [|y x IHx]; intros x1 E.
    - rewrite app_nil in E. destruct x1 as [|z x1].
      + rewrite app_nil in E. exists "". split; [by exists ""|done].
      + rewrite app_cons in E. injection E as _ E. by destruct x1.
    - destruct x1 as [|z x1].
      + rewrite app_nil in E. exists (String y x).
        split; [by exists ""|done].
      + rewrite !app_cons in E. injection E as -> E.
        destruct (IHx x1 E) as (x3&[x1' ->]&?). exists x3.
        split; [|done]. exists (String z x1'). by rewrite app_cons. }
  rewrite E3, app_assoc_string in Hp.
  change (String d "" +:+ ?Y) with (String d Y) in Hp.
  apply prefix_crossing in Hp; [|done].
  apply contains_str_suffix in Hx. destruct x3 as [|y x3].
  - by destruct E3.
  - cbn [Str.contains_str] in Hx. by rewrite Hp in Hx.
Qed.

(** A separator does not occur across a character it does not hold. *)
Lemma contains_str_crossing sep u d v :
  Str.contains_str sep u = false -> Str.contains d sep = false ->
  Str.contains_str sep v = false ->
  Str.contains_str sep (u +:+ String d v) = false.
Proof.
  intros Hu Hd Hv. induction u as [|x u IH].
  - rewrite app_nil. cbn [Str.contains_str]. rewrite Hv, orb_false_r.
    destruct (String.prefix sep (String d v)) eqn:E; [|done].
    apply (prefix_crossing sep "" d v) in E; [|done].
    cbn [Str.contains_str] in Hu. by rewrite E in Hu.
  - cbn [Str.contains_str] in Hu. apply orb_false_iff in Hu as [Hp Hu].
    rewrite app_cons. cbn [Str.contains_str]. rewrite (IH Hu), orb_false_r.
    destruct (String.prefix sep (String x (u +:+ String d v))) eqn:E; [|done].
    apply (prefix_crossing sep (String x u) d v) in E; [|done]. congruence.
Qed.

Lemma rstrip_nospace s :
  forallb (fun a => negb (Str.isspace a)) (list_ascii_of_string s) = true ->
  Str.rstrip s = s.
Proof.
  induction s as [|a s IH]; [done|]. cbn.
  intros [Ha Hs]%andb_true_iff. apply negb_true_iff in Ha.
  rewrite (IH Hs), Ha. by destruct s.
Qed.

Lemma rstrip_app u v :
  v <> "" ->
  forallb (fun a => negb (Str.isspace a)) (list_ascii_of_string v) = true ->
  Str.rstrip (u +:+ v) = u +:+ v.
Proof.
  intros Hne Hv. induction u as [|a u IH].
  - rewrite app_nil. by apply rstrip_nospace.
  - rewrite app_cons. cbn [Str.rstrip]. rewrite IH.
    destruct u, v; try done.
Qed.

Lemma rstrip_space_end u d :
  Str.isspace d = true -> Str.rstrip (u +:+ String d "") = Str.rstrip u.
Proof.
  intros Hd. induction u as [|a u IH].
  - rewrite app_nil. cbn. by rewrite Hd.
  - rewrite app_cons. cbn [Str.rstrip]. by rewrite IH.
Qed.

Lemma lstrip_nospace a s :
  Str.isspace a = false -> Str.lstrip (String a s) = String a s.
Proof. intros H. cbn. by rewrite H. Qed.

Lemma slice_full s : Str.slice 0 (String.length s) s = s.
Proof.
  rewrite <- (app_empty_r s) at 2. rewrite slice_app_l. done.
Qed.

(** What [import_name] says. *)
Lemma import_name_inv n :
  import_name n = true ->
  (exists a n', n = String a n' /\ Str.isspace a = false)
  /\ forallb (fun a => negb (Str.isspace a)) (list_ascii_of_string n) = true
  /\ Str.contains "," n = false
  /\ Str.contains_str "import" n = false
  /\ Str.contains_str "from" n = false.
Proof.
  unfold import_name. rewrite !andb_true_iff, !negb_true_iff.
  intros [[[Ht Hc] Hi] Hf].
  assert (forall a, name_char a = true ->
            negb (Str.isspace a) = true
            /\ negb (bool_decide (a = ","%char)) = true) as Hchar.
  { intros a. unfold name_char. rewrite !andb_true_iff. tauto. }
  split_and!; [| | |done|done].
  - destruct n as [|a n']; [done|]. exists a, n'. split; [done|].
    cbn in Hc. apply andb_true_iff in Hc as [Ha _].
    apply Hchar in Ha as [Ha _]. by apply negb_true_iff.
  - eapply forallb_weaken; [|done]. intros a Ha. by apply Hchar.
  - clear Ht Hi Hf. induction n as [|a n IH]; [done|]. cbn in *.
    apply andb_true_iff in Hc as [Ha Hc]. apply Hchar in Ha as [_ Ha].
    apply negb_true_iff in Ha. by rewrite Ha, IH.
Qed.

Lemma strip_name n : import_name n = true -> Str.strip n = n.
Proof.
  intros ((a&n'&->&Ha)&Hs&_)%import_name_inv. unfold Str.strip.
  rewrite lstrip_nospace by done. by apply rstrip_nospace.
Qed.

Lemma strip_spaced_name n :
  import_name n = true ->
  Str.strip (String " " (n +:+ " ")) = n.
Proof.
  intros Hn. pose proof (strip_name n Hn) as Hs.
  apply import_name_inv in Hn as ((a&n'&->&Ha)&_).
  unfold Str.strip in *. cbn [Str.lstrip Str.isspace] in *.
  change (Str.isspace " ") with true. cbn iota.
  rewrite app_cons. cbn [Str.lstrip]. rewrite Ha in *.
  rewrite <- app_cons. by rewrite rstrip_space_end.
Qed.

(** The names of a list joined by a comma and a space. *)
Lemma concat_cons sep n m l :
  String.concat sep (n :: m :: l)
  = n +:+ sep +:+ String.concat sep (m :: l).
Proof. reflexivity. Qed.

Lemma concat_last_elem sep names :
  names <> [] ->
  exists u v, String.concat sep names = u +:+ v /\ v ∈ names.
Proof.
  induction names as [|n [|m l] IH]; intros Hne; [done| |].
  - exists "", n. split; [done|]. by left.
  - destruct IH as (u&v&E&Hin); [done|].
    exists (n +:+ sep +:+ u), v. split; [|by right].
    by rewrite concat_cons, E, !app_assoc_string.
Qed.

Lemma strip_names names :
  names <> [] -> Forall (fun n => import_name n = true) names ->
  Str.strip (String " " (String.concat ", " names))
  = String.concat ", " names.
Proof.
  intros Hne Hall. unfold Str.strip. cbn [Str.lstrip].
  change (Str.isspace " ") with true. cbn iota.
  destruct (concat_last_elem ", " names Hne) as (u&v&E&Hin).
  assert (Str.lstrip (String.concat ", " names) = String.concat ", " names)
    as ->.
  { destruct names as [|n l]; [done|].
    apply Forall_cons in Hall as [Hn _].
    apply import_name_inv in Hn as ((a&n'&->&Ha)&_).
    destruct l; cbn [String.concat]; rewrite ?app_cons;
      by apply lstrip_nospace. }
  rewrite E. rewrite Forall_forall in Hall.
  destruct (import_name_inv v (Hall v Hin)) as ((a&n'&->&_)&Hs&_).
  by apply rstrip_app.
Qed.

Lemma names_no_word w names :
  w <> "" -> Str.contains "," w = false -> Str.contains " " w = false ->
  Forall (fun n => Str.contains_str w n = false) names ->
  Str.contains_str w (String " " (String.concat ", " names)) = false.
Proof.
  intros Hw Hc Hs Hall.
  assert (Str.contains_str w "" = false) as He by by destruct w.
  apply (contains_str_crossing w "" " "); [done|done|].
  induction Hall as [|n l Hn Hl IH]; [done|].
  destruct l as [|m l]; [done|]. rewrite concat_cons.
  change (", " +:+ ?X) with (String "," (String " " X)).
  apply contains_str_crossing; [done|done|].
  by apply (contains_str_crossing w "" " ").
Qed.

(** [split(',')] on the joined names. *)
Lemma split_names l : forall p n,
  Str.contains "," p = false ->
  Forall (fun n => import_name n = true) (n :: l) ->
  Str.split_str "," (p +:+ String.concat ", " (n :: l))
  = (p +:+ n) :: map (String " ") l.
Proof.
  induction l as [|m l IH]; intros p n Hp [Hn Hl]%Forall_cons.
  - apply import_name_inv in Hn as (_&_&Hc&_). unfold Str.split_str.
    cbn [String.concat map]. rewrite split_go_none; [done|].
    apply (contains_char_str ","%char); [done|].
    by rewrite contains_app, Hp, Hc.
  - rewrite concat_cons. cbn [map].
    change (", " +:+ ?X) with (String "," "" +:+ (String " " "" +:+ X)).
    rewrite <- app_assoc_string. unfold Str.split_str.
    rewrite split_char_before.
    + f_equal. apply (IH (String " " "") m); [done|done].
    + apply import_name_inv in Hn as (_&_&Hc&_).
      by rewrite contains_app, Hp, Hc.
Qed.

Lemma stripped_parts_names names :
  names <> [] -> Forall (fun n => import_name n = true) names ->
  PythonChunker.stripped_parts (String.concat ", " names) = names.
Proof.
  intros Hne Hall. destruct names as [|n l]; [done|].
  unfold PythonChunker.stripped_parts.
  rewrite <- (app_nil (String.concat ", " (n :: l))).
  rewrite split_names by done. rewrite app_nil. cbn [map].
  apply Forall_cons in Hall as [Hn Hl].
  rewrite (strip_name n Hn).
  assert (Str.truthy n = true) as Ht
    by (apply import_name_inv in Hn as ((?&?&->&_)&_); done).
  rewrite filter_cons_True by done. f_equal.
  induction Hl as [|m l Hm Hl IH]; [done|]. cbn [map].
  assert (Str.strip (String " " m) = m) as ->.
  { unfold Str.strip. cbn [Str.lstrip]. change (Str.isspace " ") with true.
    cbn iota. by apply strip_name. }
  assert (Str.truthy m = true) as Htm
    by (apply import_name_inv in Hm as ((?&?&->&_)&_); done).
  rewrite filter_cons_True by done. by rewrite IH.
Qed.

End ImportFacts.

(** *** The imports of a Python file. *)

Module ImportProperties.

Import PathFacts StoreFacts TreeSitter Notions SearchFacts CuratedFacts
  ImportFacts Examples.


Lemma names_Forall names :
  forallb import_name names = true ->
  Forall (fun n => import_name n = true) names.
Proof.
  induction names as [|n l IH]; [done|]. cbn.
  intros [Hn Hl]%andb_true_iff. constructor; [done|by apply IH].
Qed.

Lemma names_without w names :
  (forall n, import_name n = true -> Str.contains_str w n = false) ->
  Forall (fun n => import_name n = true) names ->
  Forall (fun n => Str.contains_str w n = false) names.
Proof. intros Hw Hall. by apply (Forall_impl _ _ _ Hall). Qed.

Lemma name_no_import n :
  import_name n = true -> Str.contains_str "import" n = false.
Proof. intros H. by apply import_name_inv in H as (_&_&_&?&_). Qed.

Lemma name_no_from n :
  import_name n = true -> Str.contains_str "from" n = false.
Proof. intros H. by apply import_name_inv in H as (_&_&_&_&?). Qed.

(** X23: [PythonChunker.extract_imports] on a plain import statement
    whose names are separated by a comma and a space returns exactly these
    names, in their order, when every name is a non-empty ASCII text
    without whitespace and comma in which neither [import] nor [from]
    occurs. *)
Theorem plain_import_gives_its_names names :
  names <> [] -> forallb import_name names = true ->
  let text := "import " +:+ String.concat ", " names in
  PythonChunker.extract_imports (import_node "import_statement" text) text
  = names.
Proof.
  intros Hne Hall%names_Forall text.
  unfold PythonChunker.extract_imports, import_node, _get_node_text.
  cbn [node_type start_byte end_byte]. rewrite slice_full.
  rewrite bool_decide_eq_true_2 by done.
  unfold Str.replace, Str.split_str, text.
  change ("import " +:+ ?X) with ("import" +:+ String " " X).
  rewrite split_go_here.
  rewrite split_go_none
    by (apply names_no_word; [done|done|done|];
        by apply (names_without "import" names name_no_import)).
  change (String.rev "") with "". cbn [String.concat]. rewrite !app_nil.
  rewrite strip_names by done. by apply stripped_parts_names.
Qed.

Lemma plain_import_gives_its_names_witness :
  PythonChunker.extract_imports
    (import_node "import_statement" "import os, sys.path")
    "import os, sys.path" = ["os"; "sys.path"].
Proof.
  apply (plain_import_gives_its_names ["os"; "sys.path"]);
    [done|reflexivity].
Defined.

(** X24: [PythonChunker.extract_imports] on a statement
    [from module import a, b] returns every imported name with the module
    and a dot before it, in the order of the statement, when the module
    and the names are non-empty ASCII texts without whitespace and comma
    in which neither [import] nor [from] occurs. *)
Theorem from_import_prefixes_the_module module names :
  import_name module = true ->
  names <> [] -> forallb import_name names = true ->
  let text :=
    "from " +:+ module +:+ " import " +:+ String.concat ", " names in
  PythonChunker.extract_imports (import_node "import_from_statement" text)
    text
  = map (fun item => module +:+ "." +:+ item) names.
Proof.
  intros Hm Hne Hall%names_Forall text.
  unfold PythonChunker.extract_imports, import_node, _get_node_text.
  cbn [node_type start_byte end_byte]. rewrite slice_full.
  rewrite bool_decide_eq_false_2 by done.
  rewrite bool_decide_eq_true_2 by done.
  assert (text = (("from " +:+ module) +:+ String " " "")
                 +:+ "import" +:+ String " " (String.concat ", " names))
    as ->.
  { unfold text. by rewrite !app_assoc_string. }
  unfold Str.split_str.
  rewrite split_segment_before; [| |done].
  2:{ change ("from " +:+ module) with ("from" +:+ String " " module).
      apply contains_str_crossing; [done|done|by apply name_no_import]. }
  rewrite split_go_none
    by (apply names_no_word; [done|done|done|];
        by apply (names_without "import" names name_no_import)).
  change (String.rev "") with "". rewrite !app_nil.
  rewrite strip_names by done. rewrite stripped_parts_names by done.
  unfold Str.replace, Str.split_str.
  change (("from " +:+ module) +:+ String " " "")
    with ("from" +:+ String " " (module +:+ String " " "")).
  rewrite split_go_here.
  rewrite split_go_none.
  2:{ apply (contains_str_crossing "from" "" " "); [done|done|].
      apply contains_str_crossing; [by apply name_no_from|done|done]. }
  change (String.rev "") with "". cbn [String.concat]. rewrite !app_nil.
  by rewrite strip_spaced_name.
Qed.

Lemma from_import_prefixes_the_module_witness :
  PythonChunker.extract_imports
    (import_node "import_from_statement"
       "from os.path import join, basename")
    "from os.path import join, basename"
  = ["os.path.join"; "os.path.basename"].
Proof.
  apply (from_import_prefixes_the_module "os.path" ["join"; "basename"]);
    [reflexivity|done|reflexivity].
Defined.

Lemma strip_name_space n :
  import_name n = true -> Str.strip (n +:+ String " " "") = n.
Proof.
  intros Hn. pose proof (strip_name n Hn) as Hs.
  apply import_name_inv in Hn as ((a&n'&->&Ha)&_).
  unfold Str.strip in *. rewrite app_cons.
  rewrite lstrip_nospace in * by done. rewrite <- app_cons.
  by rewrite rstrip_space_end.
Qed.

Lemma space_strip_name n :
  import_name n = true -> Str.strip (String " " n) = n.
Proof.
  intros Hn. unfold Str.strip. cbn [Str.lstrip].
  change (Str.isspace " ") with true. cbn iota. by apply strip_name.
Qed.

(** X25: the word [import] is taken out of the imported names as well:
    on the plain import statement of a module whose name is [import]
    followed by [rest], [PythonChunker.extract_imports] returns [rest]
    alone.  [rest] is a non-empty ASCII text without whitespace and
    comma in which neither [import] nor [from] occurs. *)
Theorem plain_import_loses_the_word_import rest :
  import_name rest = true ->
  let text := "import import" +:+ rest in
  PythonChunker.extract_imports (import_node "import_statement" text) text
  = [rest].
Proof.
  intros Hr text.
  unfold PythonChunker.extract_imports, import_node, _get_node_text.
  cbn [node_type start_byte end_byte]. rewrite slice_full.
  rewrite bool_decide_eq_true_2 by done.
  unfold Str.replace, Str.split_str, text.
  change ("import import" +:+ rest)
    with ("import" +:+ ("" +:+ String " " "") +:+ "import" +:+ rest).
  rewrite split_go_here, split_segment_before by done.
  rewrite split_go_none by by apply name_no_import.
  change (String.rev "") with "". cbn [String.concat]. rewrite !app_nil.
  change (String.concat ", " [rest]) with rest.
  change (" " +:+ rest) with (String " " rest).
  rewrite space_strip_name by done.
  apply (stripped_parts_names [rest]); [done|by constructor].
Qed.

Lemma plain_import_loses_the_word_import_witness :
  PythonChunker.extract_imports
    (import_node "import_statement" "import importlib") "import importlib"
  = ["lib"].
Proof.
  apply (plain_import_loses_the_word_import "lib"). reflexivity.
Defined.

(** X26: on a statement [from import<rest> import ...], whatever is
    imported, [PythonChunker.extract_imports] returns the one text
    [.<rest>]: the statement is cut at the first [import], which lies in
    the module name, the module becomes empty and the imported names are
    not read.  [rest] is a non-empty ASCII text without whitespace and
    comma in which neither [import] nor [from] occurs. *)
Theorem from_import_cut_inside_the_module rest tail :
  import_name rest = true ->
  let text := "from import" +:+ rest +:+ " import" +:+ tail in
  PythonChunker.extract_imports (import_node "import_from_statement" text)
    text
  = ["." +:+ rest].
Proof.
  intros Hr text.
  unfold PythonChunker.extract_imports, import_node, _get_node_text.
  cbn [node_type start_byte end_byte]. rewrite slice_full.
  rewrite bool_decide_eq_false_2 by done.
  rewrite bool_decide_eq_true_2 by done.
  assert (text = ("from" +:+ String " " "") +:+ "import"
                 +:+ (rest +:+ String " " "") +:+ "import" +:+ tail) as ->.
  { unfold text. by rewrite !app_assoc_string. }
  unfold Str.split_str.
  rewrite split_segment_before by done.
  rewrite split_segment_before; [|by apply name_no_import|done].
  change (String.rev "") with "". rewrite !app_nil.
  cbv beta iota zeta.
  rewrite strip_name_space by done.
  change rest with (String.concat ", " [rest]) at 1.
  rewrite (stripped_parts_names [rest]); [done|done|by constructor].
Qed.

Lemma from_import_cut_inside_the_module_witness :
  PythonChunker.extract_imports
    (import_node "import_from_statement" "from importlib import metadata")
    "from importlib import metadata"
  = [".lib"].
Proof.
  apply (from_import_cut_inside_the_module "lib" " metadata"). reflexivity.
Defined.

End ImportProperties.

(** *** The extractors of JavaScript, Kotlin and Objective-C. *)

Module ChunkerProperties.

Import CodeChunker WriterFacts StabilityFacts StoreFacts TreeSitter
  Vocabulary Notions.


Lemma javascript_chunk_of_shape {ts : Engine} {ip : Interpreter}
    kind name parent node code imports :
  let chunk := JavaScriptChunker.chunk_of kind name parent node code imports in
  chunk.1 = _get_node_text node code
  /\ meta_chunk_type chunk.2 = Some kind.
Proof. done. Qed.

Section Arrows.
Context {ts : Engine} {ip : Interpreter}.

Let arrow_chunk (chunk : Chunk) : Prop :=
  meta_chunk_type chunk.2 = Some "arrow_function".
Let arrow_capture (capture : Capture) : Prop :=
  capture.2 = "arrow_function".

Lemma filter_arrow_chunk kind name parent node code imports l :
  filter arrow_chunk
    (JavaScriptChunker.chunk_of kind name parent node code imports :: l)
  = if bool_decide (kind = "arrow_function")
    then JavaScriptChunker.chunk_of kind name parent node code imports
         :: filter arrow_chunk l
    else filter arrow_chunk l.
Proof.
  case_bool_decide as E.
  - rewrite filter_cons_True; [done|]. unfold arrow_chunk.
    by rewrite (proj2 (javascript_chunk_of_shape _ _ _ _ _ _)), E.
  - rewrite filter_cons_False; [done|]. unfold arrow_chunk.
    rewrite (proj2 (javascript_chunk_of_shape _ _ _ _ _ _)). congruence.
Qed.

Lemma filter_arrow_capture node label l :
  filter arrow_capture ((node, label) :: l)
  = if bool_decide (label = "arrow_function")
    then (node, label) :: filter arrow_capture l
    else filter arrow_capture l.
Proof.
  case_bool_decide as E.
  - by rewrite filter_cons_True.
  - by rewrite filter_cons_False.
Qed.

(** The loop of [JavaScriptChunker.chunk_code] passes over no capture of
    an arrow function. *)
Lemma javascript_walk_arrows code caps imports rest :
  map fst (filter arrow_chunk (JavaScriptChunker.walk code caps imports rest))
  = map (fun capture : Capture => _get_node_text capture.1 code)
        (filter arrow_capture rest).
Proof.
  induction rest as [|[n l]|[n l] [n' l'] rest IH2 IH1] using list_ind2.
  - done.
  - cbn [JavaScriptChunker.walk]. rewrite filter_arrow_capture.
    case_bool_decide; [|done].
    rewrite filter_arrow_chunk, bool_decide_eq_true_2 by done. done.
  - rewrite javascript_walk_step. cbn zeta.
    rewrite (filter_arrow_capture n l).
    rewrite filter_arrow_capture in IH1.
    repeat case_bool_decide; simplify_eq;
      rewrite ?filter_arrow_chunk, ?filter_arrow_capture;
      repeat (rewrite bool_decide_eq_true_2 by done);
      repeat (rewrite bool_decide_eq_false_2 by done);
      cbn [map fst]; rewrite ?IH1, ?IH2;
      repeat (rewrite bool_decide_eq_true_2 by done);
      repeat (rewrite bool_decide_eq_false_2 by done);
      done.
Qed.

End Arrows.

(** X29. [JavaScriptChunker.chunk_code] passes over no arrow function:
    the chunks of type [arrow_function] are, in order, the texts of the
    captures labelled [arrow_function], whether or not a capture of the
    parameter follows. *)
Theorem javascript_arrow_functions_all_chunked
    {ts : Engine} {re : Regex} {ip : Interpreter} (code : string) :
  map fst
    (filter (fun chunk : Chunk =>
               meta_chunk_type chunk.2 = Some "arrow_function")
       (JavaScriptChunker.chunk_code code))
  = map (fun capture : Capture => _get_node_text capture.1 code)
      (filter (fun capture : Capture => capture.2 = "arrow_function")
         (captures JsQueryFunction code (parse JavaScript code))).
Proof. apply javascript_walk_arrows. Qed.

(** X28. With the extractors of the source no record has the language
    [objc], although [objc] is a key of [chunkers]:
    [ObjectiveCChunker.chunk_code] raises for every code, so a curated
    file whose header gives this language yields no record, and the
    language of every record of [process_directory] is one of the seven
    other keys. *)
Theorem no_record_for_objc {pf : Platform} {re : Regex} {ts : Engine}
    (ip : Interpreter) (self : CodeChunker)
    (walk : list (string * list string)) (fs : gmap string string) :
  chunkers "objc" = Some ObjectiveCChunker
  /\ (forall file_path content,
        fs !! file_path = Some content ->
        language (extract_code_info content) = "objc" ->
        process_file (ip:=ip) (oc:=LanguageChunker.chunkers ip) self fs
          file_path = [])
  /\ Forall (fun r => rec_language r ∈ ["py"; "python"; "js"; "javascript";
                                        "java"; "kt"; "kotlin"])
       (process_directory (ip:=ip) (oc:=LanguageChunker.chunkers ip)
          self walk fs).
Proof.
  split_and!; [done| |].
  - intros file_path content Hc Hl.
    unfold process_file, process_file_try. rewrite Hc.
    unfold chunk_code_by_language. by rewrite Hl.
  - apply Forall_forall. intros r Hr. unfold process_directory in Hr.
    apply list_elem_of_In, in_flat_map in Hr as (f&_&Hr).
    apply list_elem_of_In in Hr.
    destruct (process_file_records _ _ _ _ Hr)
      as (content&chunks&i&c&Hc&_&Hd).
    apply chunk_data_fields in Hd as (_&_&_&_&Hl). rewrite Hl.
    unfold process_file, process_file_try in Hr. rewrite Hc in Hr.
    unfold chunk_code_by_language, chunkers in Hr.
    repeat case_bool_decide;
      try (by apply elem_of_nil in Hr);
      repeat match goal with H : _ \/ _ |- _ => destruct H as [->| ->] end;
      subst; set_solver.
Qed.

Section Kotlin.
Context {ts : Engine} {ip : Interpreter}.

Let declaration (capture : Capture) : Prop :=
  capture.2 = "class" \/ capture.2 = "function".
Let chunk_of_declaration (code : string) (capture : Capture)
    (chunk : Chunk) : Prop :=
  chunk.1 = _get_node_text capture.1 code
  /\ meta_chunk_type chunk.2
     = Some (if bool_decide (capture.2 = "class") then "class"
             else if bool_decide
                       (is_Some (enclosing "class_declaration" capture.1))
                  then "method" else "function")
  /\ meta_name chunk.2
     = Some (default "Unknown"
               (KotlinChunker.first_identifier capture.1 code))
  /\ (meta_chunk_type chunk.2 <> Some "method" -> meta_parent chunk.2 = None).

(** The loop of [KotlinChunker.chunk_code], capture by capture. *)
Lemma kotlin_loop_declarations code imports l :
  Forall2 (chunk_of_declaration code) (filter declaration l)
    (flat_map (KotlinChunker.chunks_of_capture code imports) l).
Proof.
  induction l as [|[node label] l IH]; [constructor|].
  cbn [flat_map]. unfold KotlinChunker.chunks_of_capture at 1.
  cbn [_get_node_lines]. case_bool_decide as Ec.
  - rewrite filter_cons_True by (by left). constructor; [|done].
    unfold chunk_of_declaration. cbn.
    rewrite bool_decide_eq_true_2 by done. by split_and!.
  - case_bool_decide as Ef.
    + rewrite filter_cons_True by (by right).
      destruct (enclosing "class_declaration" node) as [parent|] eqn:Ep;
        (constructor; [|done]); unfold chunk_of_declaration; cbn;
        rewrite (bool_decide_eq_false_2 _ Ec), Ep.
      * rewrite bool_decide_eq_true_2 by by eexists. by split_and!.
      * rewrite bool_decide_eq_false_2 by by intros [??]. by split_and!.
    + rewrite filter_cons_False by (by intros [?|?]). done.
Qed.

End Kotlin.

(** X30. [KotlinChunker.chunk_code] returns one chunk for every capture
    labelled [class] or [function], in the order of the captures, and
    none for another capture.  The chunk holds the text of the captured
    node; its name is the text of the first child of the node that is a
    simple identifier, [Unknown] without such a child; its type is
    [class] for a class, [method] for a function with an enclosing class
    declaration and [function] for another function; only a method has a
    parent. *)
Theorem kotlin_one_chunk_per_declaration
    {ts : Engine} {re : Regex} {ip : Interpreter} (code : string) :
  Forall2
    (fun (capture : Capture) (chunk : Chunk) =>
       chunk.1 = _get_node_text capture.1 code
       /\ meta_chunk_type chunk.2
          = Some (if bool_decide (capture.2 = "class") then "class"
                  else if bool_decide
                            (is_Some (enclosing "class_declaration"
                                        capture.1))
                       then "method" else "function")
       /\ meta_name chunk.2
          = Some (default "Unknown"
                    (KotlinChunker.first_identifier capture.1 code))
       /\ (meta_chunk_type chunk.2 <> Some "method" ->
           meta_parent chunk.2 = None))
    (filter (fun capture : Capture =>
               capture.2 = "class" \/ capture.2 = "function")
       (captures KtQuery code (parse Kotlin code)))
    (KotlinChunker.chunk_code code).
Proof. apply kotlin_loop_declarations. Qed.

End ChunkerProperties.
